(** * Toil Tracker 0.1.1: the classification engine and the result cache

    A shallow embedding of [enhanced_toil_detector.py] (class [ToilDetector])
    and [toil_performance.py] (classes [ToilCache], [ToilPerformanceOptimizer]),
    and the properties of the specification proved or refuted against it.

    Conventions of the embedding:
    - a Python [str] is a Rocq [string]; [str.lower] and [str.upper] act on
      the ASCII letters and leave every other character alone;
    - a Python [dict] whose iteration order the code relies on (the rule
      table, the severity lexicon) is an association list in insertion
      order; a [dict] used only as a mapping is a [gmap];
    - an exception is a value of [exn]; code that can raise lives in
      [outcome], code that also touches the clock, the file system or git
      lives in the state-and-exception monad [M];
    - the libraries the code calls ([re], [pathlib], [hashlib]) are the
      interface [PyLib]; theorems hold for every implementation of it, and
      [Concrete.py] is an executable one for a fragment of their syntax. *)

From Stdlib Require Import ZArith Lia Ascii String List Bool.
From stdpp Require Import base option list gmap strings pretty.

Open Scope string_scope.
Open Scope Z_scope.

(** ** Strings *)

(** [s.startswith(p)]. *)
Fixpoint starts_with (p s : string) : bool :=
  match p, s with
  | EmptyString, _ => true
  | String a p', String b s' => if Ascii.eqb a b then starts_with p' s' else false
  | String _ _, EmptyString => false
  end.

(** [needle in hay] on strings: [needle] occurs in [hay] as a substring. *)
Fixpoint str_in (needle hay : string) : bool :=
  starts_with needle hay ||
  match hay with
  | EmptyString => false
  | String _ hay' => str_in needle hay'
  end.

Definition is_ascii_upper (c : ascii) : bool :=
  ((65 <=? Z.of_N (N_of_ascii c)) && (Z.of_N (N_of_ascii c) <=? 90))%Z.

Definition is_ascii_lower (c : ascii) : bool :=
  ((97 <=? Z.of_N (N_of_ascii c)) && (Z.of_N (N_of_ascii c) <=? 122))%Z.

Definition ascii_lower (c : ascii) : ascii :=
  if is_ascii_upper c then ascii_of_N (N_of_ascii c + 32) else c.

Definition ascii_upper (c : ascii) : ascii :=
  if is_ascii_lower c then ascii_of_N (N_of_ascii c - 32) else c.

Fixpoint str_map (f : ascii -> ascii) (s : string) : string :=
  match s with
  | EmptyString => EmptyString
  | String c s' => String (f c) (str_map f s')
  end.

(** [s.lower()] and [s.upper()]. *)
Definition lower (s : string) : string := str_map ascii_lower s.
Definition upper (s : string) : string := str_map ascii_upper s.

(** Truth value of a [str] in a condition: only the empty string is false. *)
Definition truthy (s : string) : bool :=
  match s with EmptyString => false | String _ _ => true end.

(** ** Exceptions *)

Inductive exn : Type :=
  | re_error (pattern : string)        (* re.error: the pattern does not compile *)
  | OverflowError (pattern : string)   (* re: a repeat count beyond the limit *)
  | RecursionError (pattern : string)  (* re: groups nested too deeply *)
  | ValueError (msg : string)          (* pathlib: "empty pattern" *)
  | TypeError (msg : string)           (* dict.update on a non-mapping *)
  | YAMLError                          (* yaml.safe_load on malformed text *)
  | GitFailed (stderr : string)        (* Exception("Git command failed: ...") *)
  | OSError (msg : string).            (* subprocess / file system failure *)

Inductive outcome (A : Type) : Type :=
  | Ret (a : A)
  | Raise (e : exn).
Arguments Ret {A} a.
Arguments Raise {A} e.

Definition obind {A B} (c : outcome A) (k : A -> outcome B) : outcome B :=
  match c with
  | Ret a => k a
  | Raise e => Raise e
  end.

Notation "'let!' x ':=' c 'in' k" := (obind c (fun x => k))
  (at level 10, x name, c at level 200, k at level 200,
   format "'[v' 'let!'  x  ':='  c  'in' '/' k ']'").

(** [any(f(x) for x in l)] where [f] may raise: the generator is consumed
    left to right, stops at the first true value, and an exception raised
    by [f] before that escapes. *)
Fixpoint any_raising {A} (f : A -> outcome bool) (l : list A) : outcome bool :=
  match l with
  | [] => Ret false
  | x :: l' => let! b := f x in if b then Ret true else any_raising f l'
  end.

(** ** The libraries the detector calls *)

Class PyLib : Type := {
  (** [re]: compiled patterns; [re_compile] is [None] when [re] does not
      accept the pattern and raises; [re_scan r s] is [re.search] of a
      compiled pattern, true when some substring of [s] matches. *)
  regex : Type;
  re_compile : string -> option regex;
  re_scan : regex -> string -> bool;
  (** The exception [re] raises for a pattern it does not accept:
      [re.error] for one that is not a regular expression, [OverflowError]
      or [RecursionError] for one beyond the limits of the implementation. *)
  re_raises : string -> exn;
  (** [Path(file).match(pattern)]; [None] when [pathlib] raises
      [ValueError] (an empty pattern). *)
  path_match : string -> string -> option bool;
  (** [str(Path(p).resolve())]. *)
  path_resolve : string -> string;
  (** [hashlib.md5(s.encode()).hexdigest()]. *)
  md5_hexdigest : string -> string
}.

(** [re.search(pattern, s)] as a truth value. *)
Definition re_search `{PyLib} (pattern s : string) : outcome bool :=
  match re_compile pattern with
  | Some r => Ret (re_scan r s)
  | None => Raise (re_raises pattern)
  end.

Definition Path_match `{PyLib} (file pattern : string) : outcome bool :=
  match path_match file pattern with
  | Some b => Ret b
  | None => Raise (ValueError "empty pattern")
  end.

(** ** Configuration (the dictionary built by [_load_config]) *)

(** One entry of [config['patterns']]; the code reads each field with
    [config.get(field, [])], so an absent field is the empty list. *)
Record Rule : Type := {
  keywords : list string;
  regex_patterns : list string;
  file_patterns : list string;
  exclude : list string
}.

Record Config : Type := {
  patterns : list (string * Rule);
  severity : list (string * list string)
}.

Definition default_patterns : list (string * Rule) :=
  [ ("manual_deploy",
     {| keywords := ["deploy"; "deployment"; "production deploy"; "prod deploy"];
        regex_patterns := ["deploy.*production"; "prod.*deploy";
                           "release.*v\d+\.\d+"; "pipeline.*run"];
        file_patterns := ["deploy*.sh"; "docker-compose.*.yml"; "k8s/*.yaml"];
        exclude := ["test"; "staging"; "dev"] |});
    ("manual_fix",
     {| keywords := ["fix"; "hotfix"; "emergency"; "manual"; "patch"];
        regex_patterns := ["emergency.*fix"; "critical.*bug";
                           "manual.*intervention"; "hotfix.*\d+"];
        file_patterns := ["*.patch"; "hotfix*"];
        exclude := ["test"; "unit test"] |});
    ("revert",
     {| keywords := ["revert"; "rollback"; "backed out"];
        regex_patterns := ["revert.*[a-f0-9]{7,}"; "rollback.*version";
                           "backed out.*changes"];
        file_patterns := [];
        exclude := [] |});
    ("env_setup",
     {| keywords := ["env"; "environment"; "setup"; "config"; "configuration"];
        regex_patterns := ["environment.*setup"; "config.*change";
                           "infrastructure.*update"; "terraform.*apply"];
        file_patterns := ["*.tf"; "ansible/*"; "puppet/*"; "chef/*"; "Dockerfile"];
        exclude := [] |});
    ("restart",
     {| keywords := ["restart"; "reboot"; "restart service"];
        regex_patterns := ["service.*restart"; "server.*reboot";
                           "container.*restart"];
        file_patterns := [];
        exclude := [] |});
    ("pipeline_issue",
     {| keywords := ["pipeline"; "ci"; "cd"; "build"];
        regex_patterns := ["pipeline.*failed"; "ci.*fix"; "build.*broken";
                           "jenkins.*issue"];
        file_patterns := ["*.yml"; "Jenkinsfile"; ".github/workflows/*"];
        exclude := [] |});
    ("kubernetes",
     {| keywords := ["k8s"; "kubernetes"; "kubectl"; "pod"];
        regex_patterns := ["kubectl.*apply"; "k8s.*restart"; "pod.*crash";
                           "deployment.*rollback"];
        file_patterns := ["k8s/*.yaml"; "kubernetes/*.yaml"];
        exclude := [] |}) ].

Definition default_severity : list (string * list string) :=
  [ ("high", ["emergency"; "critical"; "urgent"; "outage"; "downtime"; "security"]);
    ("medium", ["hotfix"; "production"; "manual"; "ci"; "pipeline"]);
    ("low", ["update"; "config"; "restart"; "env"]) ].

Definition default_config : Config :=
  {| patterns := default_patterns; severity := default_severity |}.

(** ** The classifier *)

Section Classifier.
Context `{PyLib}.

(** The three nested tests of the loop body of [_analyze_commit_message],
    for one rule: a keyword occurs in the message; the rule has no regex or
    one of them is found; no exclusion occurs.  The regexes are tried only
    after a keyword hit, the exclusions only after the regex test. *)
Definition rule_fires (config : Rule) (message_lower : string) : outcome bool :=
  if existsb (fun keyword => str_in keyword message_lower) (keywords config) then
    let! confirmed :=
      match regex_patterns config with
      | [] => Ret true
      | _ :: _ => any_raising (fun pattern => re_search pattern message_lower)
                              (regex_patterns config)
      end in
    if confirmed then
      Ret (negb (existsb (fun exclusion => str_in exclusion message_lower)
                         (exclude config)))
    else Ret false
  else Ret false.

(** [for task_type, config in self.config['patterns'].items(): ...
    return task_type] and [return None] after the loop. *)
Fixpoint first_firing (rules : list (string * Rule)) (message_lower : string)
  : outcome (option string) :=
  match rules with
  | [] => Ret None
  | (task_type, config) :: rules' =>
      let! fires := rule_fires config message_lower in
      if fires then Ret (Some task_type) else first_firing rules' message_lower
  end.

Definition _analyze_commit_message (cfg : Config) (message : string)
  : outcome (option string) :=
  let message_lower := lower message in
  first_firing (patterns cfg) message_lower.

(** [any(Path(file).match(pattern) for file in files)]. *)
Definition any_file_matches (pattern : string) (files : list string) : outcome bool :=
  any_raising (fun file => Path_match file pattern) files.

(** The inner loop of [_analyze_files_changed] over one rule's patterns. *)
Definition rule_has_file (config : Rule) (files : list string) : outcome bool :=
  any_raising (fun pattern => any_file_matches pattern files) (file_patterns config).

Fixpoint first_file_rule (rules : list (string * Rule)) (files : list string)
  : outcome (option string) :=
  match rules with
  | [] => Ret None
  | (task_type, config) :: rules' =>
      let! hit := rule_has_file config files in
      if hit then Ret (Some task_type) else first_file_rule rules' files
  end.

Definition _analyze_files_changed (cfg : Config) (files : list string)
  : outcome (option string) :=
  first_file_rule (patterns cfg) files.

(** [for level, keywords in self.config['severity'].items()] of
    [_assess_severity]: the first level, in the order of the dictionary,
    one of whose words occurs in the message. *)
Fixpoint first_level (lexicon : list (string * list string)) (message_lower : string)
  : option string :=
  match lexicon with
  | [] => None
  | (level, words) :: lexicon' =>
      if existsb (fun keyword => str_in keyword message_lower) words
      then Some (upper level)
      else first_level lexicon' message_lower
  end.

Definition high_severity_types : list string := ["manual_fix"; "revert"; "pipeline_issue"].
Definition medium_severity_types : list string := ["manual_deploy"; "restart"].

(** [x in list_of_str]. *)
Definition str_mem (x : string) (l : list string) : bool :=
  existsb (String.eqb x) l.

(** The default table at the end of [_assess_severity]. *)
Definition default_severity_of (task_type : string) : string :=
  if str_mem task_type high_severity_types then "HIGH"
  else if str_mem task_type medium_severity_types then "MEDIUM"
  else "LOW".

Definition _assess_severity (cfg : Config) (message task_type : string) : string :=
  let message_lower := lower message in
  match first_level (severity cfg) message_lower with
  | Some level => level
  | None => default_severity_of task_type
  end.

(** ** Commits and events *)

Record Commit : Type := {
  c_hash : string;
  c_message : string;
  c_date : string;
  c_author : string;
  c_files : list string
}.

Record Event : Type := {
  e_date : string;
  e_repo_path : string;
  e_task_type : string;
  e_description : string;
  e_severity : string;
  e_author : string;
  e_files_changed : string
}.

(** [','.join(l)]. *)
Fixpoint join_comma (l : list string) : string :=
  match l with
  | [] => ""
  | [x] => x
  | x :: l' => x ++ "," ++ join_comma l'
  end.

(** The truth value of an [Optional[str]]: [None] and [''] are false. *)
Definition truthy_opt (o : option string) : bool :=
  match o with
  | Some s => truthy s
  | None => false
  end.

(** The truth value of a list: only the empty list is false. *)
Definition nonempty {A} (l : list A) : bool :=
  match l with [] => false | _ :: _ => true end.

(** [file_based_type or detected_type]. *)
Definition or_else (file_based_type : option string) (detected_type : string) : string :=
  match file_based_type with
  | Some t => if truthy t then t else detected_type
  | None => detected_type
  end.

(** The body of the [for commit in commits] loop of [scan_git_history]:
    the category the commit ends with ([final_type]), or [None] when the
    message analysis finds nothing and the body is skipped. *)
Definition final_type_of (cfg : Config) (include_file_analysis : bool) (commit : Commit)
  : outcome (option string) :=
  let! detected_type := _analyze_commit_message cfg (c_message commit) in
  match detected_type with
  | Some detected =>
      if truthy detected then
        let! file_based_type :=
          (if include_file_analysis && nonempty (c_files commit)
           then _analyze_files_changed cfg (c_files commit)
           else Ret None) in
        Ret (Some (or_else file_based_type detected))
      else Ret None
  | None => Ret None
  end.

Definition classify_commit (cfg : Config) (include_file_analysis : bool)
    (repo_path : string) (commit : Commit) : outcome (option Event) :=
  let! final := final_type_of cfg include_file_analysis commit in
  match final with
  | Some final_type =>
      Ret (Some {| e_date := c_date commit;
                   e_repo_path := repo_path;
                   e_task_type := final_type;
                   e_description := c_message commit;
                   e_severity := _assess_severity cfg (c_message commit) final_type;
                   e_author := c_author commit;
                   e_files_changed := join_comma (c_files commit) |})
  | None => Ret None
  end.

(** The whole loop: events are appended in commit order; an exception
    leaves the loop. *)
Fixpoint classify_commits (cfg : Config) (include_file_analysis : bool)
    (repo_path : string) (commits : list Commit) : outcome (list Event) :=
  match commits with
  | [] => Ret []
  | commit :: commits' =>
      let! ev := classify_commit cfg include_file_analysis repo_path commit in
      let! rest := classify_commits cfg include_file_analysis repo_path commits' in
      Ret (match ev with Some e => e :: rest | None => rest end)
  end.

End Classifier.

(** ** Loading the configuration *)

(** What [yaml.safe_load] makes of the user's file: a mapping, of which the
    detector reads the keys ['patterns'] and ['severity'], or [None] for an
    empty document. *)
Inductive YamlDoc : Type :=
  | YamlMapping (user_patterns : option (list (string * Rule)))
                (user_severity : option (list (string * list string)))
  | YamlNull.

(** The argument [config_path] together with the file system:
    no path or no file there; a file that YAML cannot parse; a parsed file. *)
Inductive ConfigSource : Type :=
  | NoConfigFile
  | MalformedYaml
  | ParsedYaml (doc : YamlDoc).

(** [default_config.update(user_config)] on the two keys the detector reads:
    a key of the user's mapping replaces the value of that key. *)
Definition dict_update (base : Config) (user_patterns : option (list (string * Rule)))
    (user_severity : option (list (string * list string))) : Config :=
  {| patterns := match user_patterns with Some p => p | None => patterns base end;
     severity := match user_severity with Some s => s | None => severity base end |}.

Definition _load_config (src : ConfigSource) : outcome Config :=
  match src with
  | NoConfigFile => Ret default_config
  | MalformedYaml => Raise YAMLError
  | ParsedYaml YamlNull => Raise (TypeError "'NoneType' object is not iterable")
  | ParsedYaml (YamlMapping user_patterns user_severity) =>
      Ret (dict_update default_config user_patterns user_severity)
  end.

(** ** The world outside the process *)

(** A file of the cache directory: its modification time and what
    [json.load] makes of its text, the list that was dumped or a failure. *)
Inductive FileBody : Type :=
  | JsonOf (data : list Event)
  | Corrupt.

Record CacheFile : Type := {
  st_mtime : Z;
  body : FileBody
}.

Record World : Type := {
  (** [time.time()], in seconds *)
  clock : Z;
  (** the regular files of the cache directories, by path *)
  files : gmap string CacheFile;
  (** whether the storage of the cache can be written: a cache file
      opened for writing, or removed (on read-only storage neither can) *)
  writable : bool;
  (** output of [git log -1 --format=%cd] run in a directory, stripped;
      [None] when the command fails *)
  git_last_commit : string -> option string;
  (** the commits [git log --since=...] lists in a directory, parsed;
      raising when the command cannot run or exits with an error *)
  git_log : string -> Z -> outcome (list Commit);
  (** the calls of [scan_git_history] so far, latest first *)
  scans : list (string * Z)
}.

Definition M (A : Type) : Type := World -> outcome A * World.

Definition ret {A} (a : A) : M A := fun w => (Ret a, w).

Definition bind {A B} (c : M A) (k : A -> M B) : M B :=
  fun w =>
    match c w with
    | (Ret a, w') => k a w'
    | (Raise e, w') => (Raise e, w')
    end.

Notation "'let*' x ':=' c 'in' k" := (bind c (fun x => k))
  (at level 10, x name, c at level 200, k at level 200,
   format "'[v' 'let*'  x  ':='  c  'in' '/' k ']'").

(** [try: c  except Exception as e: h e]; what [c] did to the world before
    raising stays done. *)
Definition try_except {A} (c : M A) (h : exn -> M A) : M A :=
  fun w =>
    match c w with
    | (Ret a, w') => (Ret a, w')
    | (Raise e, w') => h e w'
    end.

Definition lift {A} (o : outcome A) : M A := fun w => (o, w).

Definition time_time : M Z := fun w => (Ret (clock w), w).

Definition set_files (fs : gmap string CacheFile) (w : World) : World :=
  {| clock := clock w; files := fs; writable := writable w;
     git_last_commit := git_last_commit w; git_log := git_log w; scans := scans w |}.

Definition set_clock (t : Z) (w : World) : World :=
  {| clock := t; files := files w; writable := writable w;
     git_last_commit := git_last_commit w; git_log := git_log w; scans := scans w |}.

Definition set_git_last_commit (g : string -> option string) (w : World) : World :=
  {| clock := clock w; files := files w; writable := writable w;
     git_last_commit := g; git_log := git_log w; scans := scans w |}.

(** The world with one more call of [scan_git_history] on record. *)
Definition logged (repo_path : string) (days_back : Z) (w : World) : World :=
  {| clock := clock w; files := files w; writable := writable w;
     git_last_commit := git_last_commit w; git_log := git_log w;
     scans := (repo_path, days_back) :: scans w |}.

Definition log_scan (repo_path : string) (days_back : Z) : M unit :=
  fun w => (Ret tt, logged repo_path days_back w).

(** [cache_file.exists()] and [cache_file.stat()]. *)
Definition stat (path : string) : M (option CacheFile) :=
  fun w => (Ret (files w !! path), w).

(** [cache_file.unlink()]: raises when there is no such file, or when the
    storage does not let it be removed. *)
Definition unlink (path : string) : M unit :=
  fun w =>
    match files w !! path with
    | None => (Raise (OSError "FileNotFoundError"), w)
    | Some _ =>
        if writable w then (Ret tt, set_files (delete path (files w)) w)
        else (Raise (OSError "PermissionError"), w)
    end.

(** [with open(cache_file, 'r') as f: return json.load(f)]. *)
Definition json_load_file (path : string) : M (list Event) :=
  fun w =>
    match files w !! path with
    | Some {| st_mtime := _; body := JsonOf data |} => (Ret data, w)
    | Some {| st_mtime := _; body := Corrupt |} => (Raise (ValueError "JSONDecodeError"), w)
    | None => (Raise (OSError "FileNotFoundError"), w)
    end.

(** [with open(cache_file, 'w') as f: json.dump(data, f)]. *)
Definition json_dump_file (path : string) (data : list Event) : M unit :=
  fun w =>
    if writable w
    then (Ret tt, set_files (<[path := {| st_mtime := clock w; body := JsonOf data |}]> (files w)) w)
    else (Raise (OSError "PermissionError"), w).

(** ** [ToilCache] *)

Record ToilCache : Type := {
  cache_dir : string;
  ttl : Z
}.

Section Cache.
Context `{PyLib}.

Definition _get_last_commit_date (repo_path : string) : M string :=
  fun w => (Ret (match git_last_commit w repo_path with Some out => out | None => "" end), w).

(** [f"{resolved_path}:{days_back}:{last_commit_date}"]. *)
Definition key_data (resolved_path : string) (days_back : Z) (last_commit_date : string)
  : string :=
  resolved_path ++ ":" ++ pretty days_back ++ ":" ++ last_commit_date.

Definition _get_cache_key (repo_path : string) (days_back : Z) : M string :=
  let resolved_path := path_resolve repo_path in
  let* last := _get_last_commit_date repo_path in
  ret (md5_hexdigest (key_data resolved_path days_back last)).

(** [self.cache_dir / f"{cache_key}.json"]. *)
Definition cache_file_of (self : ToilCache) (cache_key : string) : string :=
  cache_dir self ++ "/" ++ cache_key ++ ".json".

Definition get (self : ToilCache) (repo_path : string) (days_back : Z)
  : M (option (list Event)) :=
  let* cache_key := _get_cache_key repo_path days_back in
  let cache_file := cache_file_of self cache_key in
  let* st := stat cache_file in
  match st with
  | None => ret None
  | Some st =>
      let* now := time_time in
      let file_age := now - st_mtime st in
      if file_age >? ttl self then
        let* _ := unlink cache_file in
        ret None
      else
        try_except
          (let* data := json_load_file cache_file in ret (Some data))
          (fun _ => let* _ := unlink cache_file in ret None)
  end.

Definition set (self : ToilCache) (repo_path : string) (days_back : Z)
    (data : list Event) : M unit :=
  let* cache_key := _get_cache_key repo_path days_back in
  let cache_file := cache_file_of self cache_key in
  try_except (json_dump_file cache_file data) (fun _ => ret tt).

(** ** [ToilDetector.scan_git_history] and the scans built on it *)

Definition scan_git_history (cfg : Config) (repo_path : string) (days_back : Z)
    (include_file_analysis : bool) : M (list Event) :=
  let* _ := log_scan repo_path days_back in
  try_except
    (let resolved := path_resolve repo_path in
     let* commits := (fun w => (git_log w resolved days_back, w)) in
     lift (classify_commits cfg include_file_analysis resolved commits))
    (fun _ => ret []).

(** [ToilPerformanceOptimizer.scan_with_caching]. *)
Definition scan_with_caching (cache : ToilCache) (detector : Config)
    (repo_path : string) (days_back : Z) : M (list Event) :=
  let* cached_result := get cache repo_path days_back in
  match cached_result with
  | Some cached => ret cached
  | None =>
      let* result := scan_git_history detector repo_path days_back true in
      let* _ := set cache repo_path days_back result in
      ret result
  end.

(** [scan_multiple_repos]: one task per path on a pool of four threads.
    A task only reads the configuration and git, so the pool is modelled by
    the order in which the tasks finish: [finished] lists the submitted
    paths in that order, each task runs [scan_git_history] and its future
    holds the list returned or the exception raised, and the loop over
    [as_completed] stores one entry per future. *)
Definition run_task (cfg : Config) (days_back : Z) (repo : string)
  : M (string * outcome (list Event)) :=
  fun w =>
    let '(r, w') := scan_git_history cfg repo days_back true w in
    (Ret (repo, r), w').

Fixpoint run_tasks (cfg : Config) (days_back : Z) (finished : list string)
  : M (list (string * outcome (list Event))) :=
  match finished with
  | [] => ret []
  | repo :: finished' =>
      let* future := run_task cfg days_back repo in
      let* futures := run_tasks cfg days_back finished' in
      ret (future :: futures)
  end.

(** The body of [for future in as_completed(...)]. *)
Definition store_result (results : gmap string (list Event))
    (future : string * outcome (list Event)) : gmap string (list Event) :=
  match future with
  | (repo, Ret events) => <[repo := events]> results
  | (repo, Raise _) => <[repo := []]> results
  end.

Definition scan_multiple_repos (cfg : Config) (finished : list string) (days_back : Z)
  : M (gmap string (list Event)) :=
  let* futures := run_tasks cfg days_back finished in
  ret (foldl store_result ∅ futures).

End Cache.

(** ** An executable implementation of the library interface

    [re] for the fragment of its syntax that the default configuration
    uses: literal characters, [.], escapes ([\d], [\w], [\s] and escaped
    punctuation), bracket sets with ranges and negation, and the
    quantifiers [*], [+], [?], [{n}], [{n,}], [{n,m}].  [compile] is [None]
    on what [re] rejects in this fragment (a quantifier with nothing to
    repeat, an unterminated set, a reversed range, a trailing backslash)
    and on patterns outside the fragment.  Matching is by derivatives.
    [pathlib] for POSIX paths and patterns made of literals, [*] and [?]. *)
Module Concrete.

Inductive re : Type :=
  | Nul
  | Eps
  | Chars (negated : bool) (ranges : list (ascii * ascii))
  | Cat (r1 r2 : re)
  | Alt (r1 r2 : re)
  | Star (r : re).

Definition code (c : ascii) : N := N_of_ascii c.

Definition in_ranges (c : ascii) (ranges : list (ascii * ascii)) : bool :=
  existsb (fun '(lo, hi) => (code lo <=? code c)%N && (code c <=? code hi)%N) ranges.

Fixpoint nullable (r : re) : bool :=
  match r with
  | Nul => false
  | Eps => true
  | Chars _ _ => false
  | Cat r1 r2 => nullable r1 && nullable r2
  | Alt r1 r2 => nullable r1 || nullable r2
  | Star _ => true
  end.

Definition cat (r1 r2 : re) : re :=
  match r1, r2 with
  | Nul, _ => Nul
  | _, Nul => Nul
  | Eps, _ => r2
  | _, Eps => r1
  | _, _ => Cat r1 r2
  end.

Definition alt (r1 r2 : re) : re :=
  match r1, r2 with
  | Nul, _ => r2
  | _, Nul => r1
  | _, _ => Alt r1 r2
  end.

Fixpoint deriv (c : ascii) (r : re) : re :=
  match r with
  | Nul => Nul
  | Eps => Nul
  | Chars negated ranges => if xorb negated (in_ranges c ranges) then Eps else Nul
  | Cat r1 r2 =>
      if nullable r1 then alt (cat (deriv c r1) r2) (deriv c r2)
      else cat (deriv c r1) r2
  | Alt r1 r2 => alt (deriv c r1) (deriv c r2)
  | Star r1 => cat (deriv c r1) (Star r1)
  end.

(** The whole of [s] matches [r]. *)
Fixpoint accepts (r : re) (s : string) : bool :=
  match s with
  | EmptyString => nullable r
  | String c s' => accepts (deriv c r) s'
  end.

Definition any_char : re := Chars true [].
Definition not_newline : re := Chars true [("010"%char, "010"%char)].
Definition digit : re := Chars false [("0"%char, "9"%char)].
Definition word_char : re :=
  Chars false [("a"%char, "z"%char); ("A"%char, "Z"%char); ("0"%char, "9"%char);
               ("_"%char, "_"%char)].
Definition space_char : re :=
  Chars false [(" "%char, " "%char); ("009"%char, "013"%char)].
Definition lit (c : ascii) : re := Chars false [(c, c)].

(** [re.search]: some substring of [s] matches [r]. *)
Definition scan (r : re) (s : string) : bool :=
  accepts (Cat (Star any_char) (Cat r (Star any_char))) s.

Fixpoint times (n : nat) (r : re) : re :=
  match n with
  | O => Eps
  | S n' => cat r (times n' r)
  end.

Fixpoint up_to (n : nat) (r : re) : re :=
  match n with
  | O => Eps
  | S n' => alt Eps (cat r (up_to n' r))
  end.

Definition is_digit (c : ascii) : bool := in_ranges c [("0"%char, "9"%char)].

Definition is_punct (c : ascii) : bool :=
  negb (in_ranges c [("a"%char, "z"%char); ("A"%char, "Z"%char); ("0"%char, "9"%char)]).

(** Leading decimal digits of [s], as a number, and what follows them. *)
Fixpoint read_nat (acc : nat) (s : string) : nat * string :=
  match s with
  | String c s' =>
      if is_digit c
      then read_nat (10 * acc + (N.to_nat (code c) - 48))%nat s'
      else (acc, s)
  | EmptyString => (acc, s)
  end.

(** The escape after a backslash, outside and inside a set. *)
Definition escape (c : ascii) : option re :=
  if Ascii.eqb c "d" then Some digit
  else if Ascii.eqb c "w" then Some word_char
  else if Ascii.eqb c "s" then Some space_char
  else if is_punct c then Some (lit c)
  else None.

(** The items of a bracket set, after [[] or [[^]; a first []] is literal. *)
Fixpoint set_items (first : bool) (acc : list (ascii * ascii)) (s : string)
  : option (list (ascii * ascii) * string) :=
  match s with
  | EmptyString => None
  | String c s1 =>
      if Ascii.eqb c "]" && negb first then Some (acc, s1)
      else if Ascii.eqb c "\" then
        match s1 with
        | String e s2 =>
            match escape e with
            | Some (Chars false ranges) => set_items false (acc ++ ranges) s2
            | _ => None
            end
        | EmptyString => None
        end
      else
        match s1 with
        | String d (String hi s3) =>
            if Ascii.eqb d "-" && negb (Ascii.eqb hi "]") then
              if (code c <=? code hi)%N
              then set_items false (acc ++ [(c, hi)]) s3
              else None
            else set_items false (acc ++ [(c, c)]) s1
        | _ => set_items false (acc ++ [(c, c)]) s1
        end
  end.

(** One atom at the head of [s]. *)
Definition atom (s : string) : option (re * string) :=
  match s with
  | EmptyString => None
  | String c s1 =>
      if Ascii.eqb c "." then Some (not_newline, s1)
      else if Ascii.eqb c "\" then
        match s1 with
        | String e s2 => match escape e with Some r => Some (r, s2) | None => None end
        | EmptyString => None
        end
      else if Ascii.eqb c "[" then
        match s1 with
        | String n s2 =>
            if Ascii.eqb n "^"
            then match set_items true [] s2 with
                 | Some (ranges, rest) => Some (Chars true ranges, rest)
                 | None => None
                 end
            else match set_items true [] s1 with
                 | Some (ranges, rest) => Some (Chars false ranges, rest)
                 | None => None
                 end
        | EmptyString => None
        end
      else if existsb (Ascii.eqb c) ["*"; "+"; "?"; "{"; "}"; "("; ")"; "|"; "^"; "$"]%char
      then None
      else Some (lit c, s1)
  end.

(** The quantifier that may follow an atom. *)
Definition quantified (r : re) (s : string) : option (re * string) :=
  match s with
  | String c s1 =>
      if Ascii.eqb c "*" then Some (Star r, s1)
      else if Ascii.eqb c "+" then Some (cat r (Star r), s1)
      else if Ascii.eqb c "?" then Some (alt Eps r, s1)
      else if Ascii.eqb c "{" then
        match s1 with
        | String d _ =>
            if is_digit d then
              let '(n, s2) := read_nat 0 s1 in
              match s2 with
              | String e s3 =>
                  if Ascii.eqb e "}" then Some (times n r, s3)
                  else if Ascii.eqb e "," then
                    match s3 with
                    | String f s4 =>
                        if Ascii.eqb f "}" then Some (cat (times n r) (Star r), s4)
                        else if is_digit f then
                          let '(m, s5) := read_nat 0 s3 in
                          match s5 with
                          | String g s6 =>
                              if Ascii.eqb g "}" && (n <=? m)%nat
                              then Some (cat (times n r) (up_to (m - n) r), s6)
                              else None
                          | EmptyString => None
                          end
                        else None
                    | EmptyString => None
                    end
                  else None
              | EmptyString => None
              end
            else None
        | EmptyString => None
        end
      else Some (r, s)
  | EmptyString => Some (r, s)
  end.

(** A sequence of quantified atoms; [fuel] bounds the number of atoms. *)
Fixpoint items (fuel : nat) (s : string) : option re :=
  match s with
  | EmptyString => Some Eps
  | String _ _ =>
      match fuel with
      | O => None
      | S fuel' =>
          match atom s with
          | Some (r, s1) =>
              match quantified r s1 with
              | Some (q, s2) =>
                  match items fuel' s2 with
                  | Some rest => Some (cat q rest)
                  | None => None
                  end
              | None => None
              end
          | None => None
          end
      end
  end.

Definition compile (pattern : string) : option re :=
  items (String.length pattern) pattern.

(** [s.split(sep)] for a one-character separator. *)
Fixpoint split_on (sep : ascii) (s : string) : list string :=
  match s with
  | EmptyString => [EmptyString]
  | String c s' =>
      if Ascii.eqb c sep then EmptyString :: split_on sep s'
      else match split_on sep s' with
           | part :: parts => String c part :: parts
           | [] => [String c EmptyString]
           end
  end.

(** [PurePosixPath(p).parts]: the root, then the components that are
    neither empty nor [.]. *)
Definition parts (p : string) : list string :=
  (if starts_with "/" p then ["/"] else []) ++
  List.filter (fun part => negb (String.eqb part "" || String.eqb part "."))
              (split_on "/" p).

(** A component pattern of [fnmatch]: [*] is any run of characters, [?] any
    one character, anything else itself. *)
Fixpoint fn_pattern (pat : string) : re :=
  match pat with
  | EmptyString => Eps
  | String c pat' =>
      cat (if Ascii.eqb c "*" then Star any_char
           else if Ascii.eqb c "?" then any_char
           else lit c)
          (fn_pattern pat')
  end.

Definition fnmatchcase (name pat : string) : bool := accepts (fn_pattern pat) name.

(** [zip(reversed(parts), reversed(pat_parts))] all match. *)
Fixpoint all_match (rev_parts rev_pats : list string) : bool :=
  match rev_parts, rev_pats with
  | part :: rev_parts', pat :: rev_pats' =>
      fnmatchcase part pat && all_match rev_parts' rev_pats'
  | _, _ => true
  end.

(** [PurePosixPath(file).match(pattern)]. *)
Definition pure_path_match (file pattern : string) : option bool :=
  let pat_parts := parts pattern in
  let file_parts := parts file in
  match pat_parts with
  | [] => None
  | _ :: _ =>
      if starts_with "/" pattern then
        if negb (starts_with "/" file) then Some false
        else if negb (length pat_parts =? length file_parts)%nat then Some false
        else Some (all_match (rev file_parts) (rev (tl pat_parts)))
      else if (length file_parts <? length pat_parts)%nat then Some false
      else Some (all_match (rev file_parts) (rev pat_parts))
  end.

(** The instance: every pattern outside the fragment is rejected with
    [re.error], paths are taken to be resolved already, and the digest,
    whose value no property depends on, is the key text itself. *)
#[export] Instance py : PyLib := {|
  regex := re;
  re_compile := compile;
  re_scan := scan;
  re_raises := re_error;
  path_match := pure_path_match;
  path_resolve := fun p => p;
  md5_hexdigest := fun text => text
|}.

End Concrete.

(** * More of the code *)

(** ** [ToilCache.clear] *)

(** [prefix] taken off the front of [s], if [s] starts with it. *)
Fixpoint strip_prefix (prefix s : string) : option string :=
  match prefix, s with
  | EmptyString, _ => Some s
  | String a prefix', String b s' =>
      if Ascii.eqb a b then strip_prefix prefix' s' else None
  | String _ _, EmptyString => None
  end.

(** [s.endswith(suffix)]. *)
Fixpoint ends_with (suffix s : string) : bool :=
  String.eqb s suffix ||
  match s with
  | EmptyString => false
  | String _ s' => ends_with suffix s'
  end.

(** [c in s] for a character. *)
Definition has_char (c : ascii) (s : string) : bool :=
  existsb (Ascii.eqb c) (list_ascii_of_string s).

(** The file at [path] is listed by [Path(dir).glob("*.json")]: it lies
    directly in the directory and its name ends in [.json]. *)
Definition globbed_json (dir path : string) : bool :=
  match strip_prefix (dir ++ "/") path with
  | Some name => negb (has_char "/" name) && ends_with ".json" name
  | None => false
  end.

(** [Path(dir).glob("*.json")]: the paths of the files it lists. *)
Definition glob_json (dir : string) : M (list string) :=
  fun w => (Ret (List.filter (globbed_json dir) (map fst (map_to_list (files w)))), w).

(** The loop of [clear]: [try: cache_file.unlink()  except: pass] for each
    file listed; a file whose removal fails stays. *)
Fixpoint unlink_each (cache_files : list string) : M unit :=
  match cache_files with
  | [] => ret tt
  | cache_file :: rest =>
      let* _ := try_except (unlink cache_file) (fun _ => ret tt) in
      unlink_each rest
  end.

Definition clear (self : ToilCache) : M unit :=
  let* cache_files := glob_json (cache_dir self) in
  unlink_each cache_files.

(** ** [ToilPerformanceOptimizer.batch_process_commits] *)

(** [list(range(start, stop, step))]. *)
Definition py_range (start stop step : Z) : outcome (list Z) :=
  if step =? 0 then Raise (ValueError "range() arg 3 must not be zero")
  else
    let n := if 0 <? step
             then (if start <? stop then (stop - start - 1) / step + 1 else 0)
             else (if stop <? start then (start - stop - 1) / (- step) + 1 else 0) in
    Ret (map (fun i : nat => start + Z.of_nat i * step) (seq 0 (Z.to_nat n))).

(** A bound of a slice, brought into [0 .. n] the way Python does. *)
Definition slice_bound (n i : Z) : Z :=
  if i <? 0 then Z.max 0 (i + n) else Z.min i n.

(** [l[lo:hi]]. *)
Definition slice {A} (l : list A) (lo hi : Z) : list A :=
  let n := Z.of_nat (length l) in
  take (Z.to_nat (slice_bound n hi - slice_bound n lo))
       (drop (Z.to_nat (slice_bound n lo)) l).

Definition batch_process_commits {A} (commits : list A) (batch_size : Z)
  : outcome (list (list A)) :=
  let! starts := py_range 0 (Z.of_nat (length commits)) batch_size in
  Ret (map (fun i => slice commits i (i + batch_size)) starts).

(** ** [ToilDetector._parse_git_output] *)

(** [c.isspace()] for an ASCII character. *)
Definition py_isspace (c : ascii) : bool :=
  let n := N_of_ascii c in
  ((9 <=? n) && (n <=? 13) || (28 <=? n) && (n <=? 32))%N.

(** [s.lstrip()], [s.rstrip()] and [s.strip()]. *)
Fixpoint lstrip (s : string) : string :=
  match s with
  | EmptyString => EmptyString
  | String c s' => if py_isspace c then lstrip s' else s
  end.

Fixpoint rstrip (s : string) : string :=
  match s with
  | EmptyString => EmptyString
  | String c s' =>
      match rstrip s' with
      | EmptyString => if py_isspace c then EmptyString else String c EmptyString
      | String _ _ as r => String c r
      end
  end.

Definition strip (s : string) : string := lstrip (rstrip s).

(** [s.split(sep, maxsplit)] for a one-character separator. *)
Fixpoint split_max (sep : ascii) (maxsplit : nat) : string -> list string :=
  match maxsplit with
  | O => fun s => [s]
  | S k =>
      fix go (s : string) : list string :=
        match s with
        | EmptyString => [EmptyString]
        | String c s' =>
            if Ascii.eqb c sep then EmptyString :: split_max sep k s'
            else match go s' with
                 | part :: parts => String c part :: parts
                 | [] => [String c EmptyString]
                 end
        end
  end.

(** The loop variables of [_parse_git_output]: the commits appended so
    far and [current_commit], [None] standing for the empty dictionary. *)
Definition ParseState : Type := list Commit * option Commit.

(** One turn of the loop over the lines of the output. *)
Definition parse_line (st : ParseState) (line : string) : ParseState :=
  let '(commits, current_commit) := st in
  if String.eqb (strip line) "" then
    match current_commit with
    | Some commit => ((commits ++ [commit])%list, None)
    | None => (commits, None)
    end
  else if has_char "|" line then
    match split_max "|" 3 line with
    | [p0; p1; p2; p3] =>
        (commits, Some {| c_hash := p0; c_message := p1; c_date := p2;
                          c_author := p3; c_files := [] |})
    | _ => (commits, current_commit)
    end
  else
    match current_commit with
    | Some commit =>
        (commits, Some {| c_hash := c_hash commit; c_message := c_message commit;
                          c_date := c_date commit; c_author := c_author commit;
                          c_files := (c_files commit ++ [strip line])%list |})
    | None => (commits, None)
    end.

(** The loop, and the commit still open when the lines end. *)
Definition parse_lines (lines : list string) : list Commit :=
  match foldl parse_line ([], None) lines with
  | (commits, Some commit) => (commits ++ [commit])%list
  | (commits, None) => commits
  end.

Definition _parse_git_output (output : string) : list Commit :=
  parse_lines (Concrete.split_on "010" output).

(** ['\n'.join(lines)]. *)
Fixpoint join_lines (lines : list string) : string :=
  match lines with
  | [] => ""
  | [line] => line
  | line :: lines' => line ++ String "010" (join_lines lines')
  end.

(** ** [ToilPerformanceOptimizer.parallel_scan_multiple_repos] *)

Section ParallelScan.
Context `{PyLib}.

(** The inner function [scan_repo]. *)
Definition scan_repo (cache : ToilCache) (detector : Config) (days_back : Z)
    (repo_path : string) : M (string * list Event) :=
  try_except
    (let* events := scan_with_caching cache detector repo_path days_back in
     ret (repo_path, events))
    (fun _ => ret (repo_path, [])).

(** The tasks of the pool, run one after another in the order in which
    they finish; tasks for different cache files do not touch each
    other's file. *)
Fixpoint run_scan_repos (cache : ToilCache) (detector : Config) (days_back : Z)
    (finished : list string) : M (list (string * list Event)) :=
  match finished with
  | [] => ret []
  | repo :: finished' =>
      let* result := scan_repo cache detector days_back repo in
      let* results := run_scan_repos cache detector days_back finished' in
      ret (result :: results)
  end.

(** The body of [for future in as_completed(...)]. *)
Definition store_events (results : gmap string (list Event))
    (done : string * list Event) : gmap string (list Event) :=
  let '(repo_path, toil_events) := done in <[repo_path := toil_events]> results.

(** [concurrent.futures.ThreadPoolExecutor(max_workers=max_workers)] for
    an integer: a pool cannot be made with no worker. *)
Definition ThreadPoolExecutor (max_workers : Z) : M unit :=
  if max_workers <=? 0
  then lift (Raise (ValueError "max_workers must be greater than 0"))
  else ret tt.

(** [max_workers] is what [config['performance']['max_workers']] holds, 4
    when the configuration does not set it. *)
Definition parallel_scan_multiple_repos (cache : ToilCache) (detector : Config)
    (max_workers : Z) (finished : list string) (days_back : Z)
  : M (gmap string (list Event)) :=
  let* _ := ThreadPoolExecutor max_workers in
  let* done := run_scan_repos cache detector days_back finished in
  ret (foldl store_events ∅ done).

End ParallelScan.

(** ** The aggregations of [enhanced_cli.py] *)

(** A row of [get_toil_summary]: task type, severity, count, date, author. *)
Record SummaryRow : Type := {
  r_task_type : string;
  r_severity : string;
  r_count : Z;
  r_date : string;
  r_author : string
}.

(** A dictionary operation that can raise [KeyError]. *)
Inductive keyed (A : Type) : Type :=
  | Found (a : A)
  | KeyError (key : string).
Arguments Found {A} a.
Arguments KeyError {A} key.

(** [{"HIGH": 0, "MEDIUM": 0, "LOW": 0}]. *)
Definition zero_counts : gmap string Z :=
  <["HIGH" := 0]> (<["MEDIUM" := 0]> (<["LOW" := 0]> ∅)).

(** The body of the loop of [report_command]:
    [if task_type not in task_summary: task_summary[task_type] = {...}]
    and [task_summary[task_type][severity] += count]. *)
Definition add_to_task_summary (task_summary : gmap string (gmap string Z))
    (row : SummaryRow) : keyed (gmap string (gmap string Z)) :=
  let task_summary :=
    match task_summary !! r_task_type row with
    | Some _ => task_summary
    | None => <[r_task_type row := zero_counts]> task_summary
    end in
  match task_summary !! r_task_type row with
  | Some severities =>
      match severities !! r_severity row with
      | Some n =>
          Found (<[r_task_type row := <[r_severity row := n + r_count row]> severities]>
                   task_summary)
      | None => KeyError (r_severity row)
      end
  | None => KeyError (r_task_type row)
  end.

Definition task_summary (summary : list SummaryRow) : keyed (gmap string (gmap string Z)) :=
  foldl (fun acc row =>
           match acc with
           | Found m => add_to_task_summary m row
           | KeyError key => KeyError key
           end)
        (Found ∅) summary.

(** [aggregate_summary] of [benchmark_command]. *)
Definition aggregate_summary (data : list SummaryRow) : gmap string Z :=
  foldl (fun task_counts row =>
           let task_counts :=
             match task_counts !! r_task_type row with
             | Some _ => task_counts
             | None => <[r_task_type row := 0]> task_counts
             end in
           match task_counts !! r_task_type row with
           | Some n => <[r_task_type row := n + r_count row]> task_counts
           | None => task_counts
           end)
        ∅ data.

(** * The vocabulary of the specification *)

(** [needle] is a substring of [hay]. *)
Definition occurs_in (needle hay : string) : Prop :=
  exists pre post : string, hay = pre ++ needle ++ post.

Section SpecWords.
Context `{PyLib}.

(** (a) some keyword is a substring of the lower-cased message *)
Definition keyword_hit (r : Rule) (message_lower : string) : Prop :=
  exists keyword, keyword ∈ keywords r /\ occurs_in keyword message_lower.

(** a confirm pattern is found in the message by regex search *)
Definition pattern_found (pattern message_lower : string) : Prop :=
  exists rx, re_compile pattern = Some rx /\ re_scan rx message_lower = true.

(** (b) the rule has no confirm pattern, or one of them is found *)
Definition confirmed (r : Rule) (message_lower : string) : Prop :=
  regex_patterns r = [] \/
  exists pattern, pattern ∈ regex_patterns r /\ pattern_found pattern message_lower.

(** an exclude term is a substring of the message *)
Definition excluded (r : Rule) (message_lower : string) : Prop :=
  exists term, term ∈ exclude r /\ occurs_in term message_lower.

(** The full match condition: (a), (b) and (c) no exclude term. *)
Definition satisfies (r : Rule) (message : string) : Prop :=
  keyword_hit r (lower message) /\
  confirmed r (lower message) /\
  ~ excluded r (lower message).

(** Every confirm pattern of the rule is a regular expression. *)
Definition well_formed_rule (r : Rule) : Prop :=
  forall pattern, pattern ∈ regex_patterns r -> is_Some (re_compile pattern).

Definition well_formed_rules (rules : list (string * Rule)) : Prop :=
  forall name r, (name, r) ∈ rules -> well_formed_rule r.

(** The same conditions as a test. *)
Definition pattern_foundb (pattern message_lower : string) : bool :=
  match re_compile pattern with
  | Some rx => re_scan rx message_lower
  | None => false
  end.

Definition satisfiesb (r : Rule) (message : string) : bool :=
  existsb (fun keyword => str_in keyword (lower message)) (keywords r)
  && match regex_patterns r with
     | [] => true
     | _ :: _ => existsb (fun pattern => pattern_foundb pattern (lower message))
                         (regex_patterns r)
     end
  && negb (existsb (fun term => str_in term (lower message)) (exclude r)).

(** The exclude-term veto as the specification words it: a rule of the
    configuration whose keyword and confirm pattern are met and one of
    whose exclude terms occurs leaves the message without a category. *)
Definition exclude_veto_claim : Prop :=
  forall (cfg : Config) (message name : string) (r : Rule),
    well_formed_rules (patterns cfg) ->
    (name, r) ∈ patterns cfg ->
    keyword_hit r (lower message) ->
    (exists pattern, pattern ∈ regex_patterns r /\ pattern_found pattern (lower message)) ->
    excluded r (lower message) ->
    _analyze_commit_message cfg message = Ret None.

(** Some file pattern of the rule matches some changed file. *)
Definition file_hit (r : Rule) (files : list string) : Prop :=
  exists pattern file,
    pattern ∈ file_patterns r /\ file ∈ files /\ path_match file pattern = Some true.

Definition file_hitb (r : Rule) (files : list string) : bool :=
  existsb (fun pattern =>
             existsb (fun file => match path_match file pattern with
                                  | Some b => b
                                  | None => false
                                  end) files)
          (file_patterns r).

(** [pathlib] accepts every file pattern of the rules on these files. *)
Definition globs_accepted (rules : list (string * Rule)) (files : list string) : Prop :=
  forall name r pattern file,
    (name, r) ∈ rules -> pattern ∈ file_patterns r -> file ∈ files ->
    is_Some (path_match file pattern).

(** The file-based override as the specification words it: when the
    message-based pass found a category, the first rule one of whose file
    patterns matches a changed file gives the final category. *)
Definition file_override_claim : Prop :=
  forall (cfg : Config) (commit : Commit) (detected : string)
         (pre post : list (string * Rule)) (name : string) (r : Rule),
    _analyze_commit_message cfg (c_message commit) = Ret (Some detected) ->
    globs_accepted (patterns cfg) (c_files commit) ->
    patterns cfg = (pre ++ (name, r) :: post)%list ->
    (forall name' r', (name', r') ∈ pre -> ~ file_hit r' (c_files commit)) ->
    file_hit r (c_files commit) ->
    final_type_of cfg true commit = Ret (Some name).

Definition well_formed_rulesb (rules : list (string * Rule)) : bool :=
  forallb (fun '(_, r) =>
             forallb (fun pattern => match re_compile pattern with
                                     | Some _ => true
                                     | None => false
                                     end) (regex_patterns r))
          rules.

Definition globs_acceptedb (rules : list (string * Rule)) (files : list string) : bool :=
  forallb (fun '(_, r) =>
             forallb (fun pattern =>
                        forallb (fun file => match path_match file pattern with
                                             | Some _ => true
                                             | None => false
                                             end) files)
                     (file_patterns r))
          rules.

End SpecWords.

(** A word of the list is a substring of the message. *)
Definition word_hit (words : list string) (message_lower : string) : Prop :=
  exists word, word ∈ words /\ occurs_in word message_lower.

(** Severity precedence as the specification words it: a message with a
    word of the HIGH level and a word of the LOW level is assessed HIGH. *)
Definition severity_order_claim : Prop :=
  forall (cfg : Config) (message task_type : string) (high_words low_words : list string),
    ("high", high_words) ∈ severity cfg ->
    ("low", low_words) ∈ severity cfg ->
    word_hit high_words (lower message) ->
    word_hit low_words (lower message) ->
    _assess_severity cfg message task_type = "HIGH".

(** The commit of the specification's worked example. *)
Definition example_commit : Commit :=
  {| c_hash := "abc1234";
     c_message := "update config file";
     c_date := "2024-01-15";
     c_author := "dev";
     c_files := ["README.md"] |}.

(** The worked example as the specification words it. *)
Definition worked_example_claim `{PyLib} : Prop :=
  forall repo_path : string,
    exists ev : Event,
      classify_commit default_config true repo_path example_commit = Ret (Some ev)
      /\ e_task_type ev = "env_setup" /\ e_severity ev = "LOW".

(** ** Cache entries and scans *)

(** The repository fingerprint: what [_get_last_commit_date] returns. *)
Definition fingerprint (w : World) (repo_path : string) : string :=
  match git_last_commit w repo_path with
  | Some out => out
  | None => ""
  end.

(** Seconds since the file was written. *)
Definition age (w : World) (f : CacheFile) : Z := clock w - st_mtime f.

(** The world after another commit has moved the repository's fingerprint. *)
Definition with_fingerprint (repo_path fp : string) (w : World) : World :=
  set_git_last_commit
    (fun p => if String.eqb p repo_path then Some fp else git_last_commit w p) w.

(** The world with the store emptied of one file. *)
Definition without_file (path : string) (w : World) : World :=
  set_files (delete path (files w)) w.

(** What a lookup makes of a stored file it cannot use: a miss, the file
    being removed; or, on storage that does not let the file be removed,
    the error of the removal, the file staying where it is. *)
Definition discard (path : string) (w : World) : outcome (option (list Event)) * World :=
  if writable w then (Ret None, without_file path w)
  else (Raise (OSError "PermissionError"), w).

Section CacheWords.
Context `{PyLib}.

(** The file that holds the entry of a repository and window under the
    repository's present fingerprint. *)
Definition entry_path (self : ToilCache) (repo_path : string) (days_back : Z) (w : World)
  : string :=
  cache_file_of self
    (md5_hexdigest (key_data (path_resolve repo_path) days_back (fingerprint w repo_path))).


(** What [scan_git_history] returns in a world: the events of the commits
    git lists, or the empty list when git or the classification raises. *)
Definition scan_events (cfg : Config) (repo_path : string) (days_back : Z)
    (include_file_analysis : bool) (w : World) : list Event :=
  match git_log w (path_resolve repo_path) days_back with
  | Ret commits =>
      match classify_commits cfg include_file_analysis (path_resolve repo_path) commits with
      | Ret events => events
      | Raise _ => []
      end
  | Raise _ => []
  end.

(** The scan of a repository fails: git raises, or the classification of
    one of its commits does. *)
Definition scan_fails (cfg : Config) (repo_path : string) (days_back : Z) (w : World)
  : Prop :=
  (exists e, git_log w (path_resolve repo_path) days_back = Raise e)
  \/ (exists commits e,
        git_log w (path_resolve repo_path) days_back = Ret commits
        /\ classify_commits cfg true (path_resolve repo_path) commits = Raise e).

(** Fail-fast loading as the specification words it: a configuration that
    loads has no confirm pattern that is not a regular expression. *)
Definition fail_fast_claim : Prop :=
  forall (src : ConfigSource) (cfg : Config),
    _load_config src = Ret cfg -> well_formed_rules (patterns cfg).

End CacheWords.

(** ** Concrete inputs *)

(** [default_config['patterns'][name]]. *)
Definition default_rule (name : string) : Rule :=
  match List.find (fun '(name', _) => String.eqb name' name) default_patterns with
  | Some (_, r) => r
  | None => {| keywords := []; regex_patterns := []; file_patterns := []; exclude := [] |}
  end.

Definition precedence_message : string := "Emergency fix: deploy to production".

Definition veto_message : string := "Deploy to production staging, service restart".

(** A rule set with a category whose name is the empty string. *)
Definition unnamed_config : Config :=
  {| patterns :=
       [ ("", {| keywords := []; regex_patterns := [];
                 file_patterns := ["*.md"]; exclude := [] |});
         ("docs", {| keywords := ["update"]; regex_patterns := [];
                     file_patterns := []; exclude := [] |}) ];
     severity := default_severity |}.

Definition readme_commit : Commit :=
  {| c_hash := "1f2e3d4";
     c_message := "Update readme";
     c_date := "2024-01-15";
     c_author := "dev";
     c_files := ["README.md"] |}.

Definition terraform_commit : Commit :=
  {| c_hash := "9a8b7c6";
     c_message := precedence_message;
     c_date := "2024-01-16";
     c_author := "ops";
     c_files := ["infra/main.tf"] |}.

(** A lexicon that lists its levels from low to high. *)
Definition low_first_config : Config :=
  {| patterns := default_patterns;
     severity := [ ("low", ["update"; "config"]);
                   ("medium", ["hotfix"; "production"]);
                   ("high", ["emergency"; "critical"]) ] |}.

(** A user rule set whose second confirm pattern is not a regular
    expression. *)
Definition broken_rule : Rule :=
  {| keywords := ["deploy"];
     regex_patterns := ["deploy.*prod"; "release.*["];
     file_patterns := [];
     exclude := [] |}.

Definition broken_rules : list (string * Rule) := [("deploys", broken_rule)].

Definition broken_source : ConfigSource :=
  ParsedYaml (YamlMapping (Some broken_rules) None).

Definition broken_config : Config :=
  {| patterns := broken_rules; severity := default_severity |}.

Definition release_commit : Commit :=
  {| c_hash := "5e6f7a8";
     c_message := "Deploy release 1.2";
     c_date := "2024-01-18";
     c_author := "ops";
     c_files := [] |}.

Definition staging_commit : Commit :=
  {| c_hash := "0c0ffee";
     c_message := "deploy to staging";
     c_date := "2024-01-17";
     c_author := "ops";
     c_files := [] |}.

Definition cache0 : ToilCache := {| cache_dir := ".toil_cache"; ttl := 3600 |}.

(** A world with one repository that git can read, an empty cache
    directory, and the clock at 1000 s. *)
Definition world0 : World :=
  {| clock := 1000;
     files := ∅;
     writable := true;
     git_last_commit := fun _ => Some "Mon Jan 15 10:00:00 2024 +0000";
     git_log := fun repo _ =>
                  if String.eqb repo "/srv/app"
                  then Ret [terraform_commit; readme_commit]
                  else Raise (GitFailed "fatal: not a git repository");
     scans := [] |}.

(** A world whose repository has two commits, the later of which reaches
    the broken pattern. *)
Definition world_release : World :=
  {| clock := 1000;
     files := ∅;
     writable := true;
     git_last_commit := fun _ => Some "Thu Jan 18 09:30:00 2024 +0000";
     git_log := fun _ _ => Ret [staging_commit; release_commit];
     scans := [] |}.


(** ** Further vocabulary *)

(** The string has an ASCII upper-case letter. *)
Definition has_upper (s : string) : bool :=
  existsb is_ascii_upper (list_ascii_of_string s).

(** The names of the categories of a configuration. *)
Definition rule_names (cfg : Config) : list string := map fst (patterns cfg).

(** What an event takes from the commit it was made for. *)
Definition event_of_commit (cfg : Config) (repo_path : string) (ev : Event) (c : Commit)
  : Prop :=
  e_date ev = c_date c
  /\ e_repo_path ev = repo_path
  /\ e_description ev = c_message c
  /\ e_author ev = c_author c
  /\ e_files_changed ev = join_comma (c_files c)
  /\ e_task_type ev ∈ rule_names cfg
  /\ e_severity ev = _assess_severity cfg (c_message c) (e_task_type ev).

Section CacheMoreWords.
Context `{PyLib}.

(** The payload [get] would return: that of the file stored under the
    present key, if it is not older than the TTL and parses. *)
Definition valid_entry (self : ToilCache) (repo_path : string) (days_back : Z) (w : World)
  : option (list Event) :=
  match files w !! entry_path self repo_path days_back w with
  | Some f =>
      if age w f >? ttl self then None
      else match body f with
           | JsonOf data => Some data
           | Corrupt => None
           end
  | None => None
  end.

(** Under the present key a file is stored that [get] cannot use (it is
    older than the TTL, or does not parse) and that the storage does not
    let be removed. *)
Definition stuck_entry (self : ToilCache) (repo_path : string) (days_back : Z) (w : World)
  : bool :=
  match files w !! entry_path self repo_path days_back w with
  | Some _ =>
      match valid_entry self repo_path days_back w with
      | Some _ => false
      | None => negb (writable w)
      end
  | None => false
  end.

(** The world between two tasks of the parallel scan, seen from the world
    the pool started in: clock, storage and git as then, and the files as
    then except those of the repositories already scanned. *)
Definition agrees_off (cache : ToilCache) (days_back : Z) (done : list string)
    (w wk : World) : Prop :=
  clock wk = clock w
  /\ writable wk = writable w
  /\ git_last_commit wk = git_last_commit w
  /\ git_log wk = git_log w
  /\ (forall p, (forall r, r ∈ done -> p <> entry_path cache r days_back w) ->
        files wk !! p = files w !! p).

(** The payload of the valid entry of a repository, or the events of a
    fresh scan of it. *)
Definition cached_or_scanned (cache : ToilCache) (detector : Config) (days_back : Z)
    (w : World) (repo_path : string) : list Event :=
  match valid_entry cache repo_path days_back w with
  | Some data => data
  | None => scan_events detector repo_path days_back true w
  end.

(** What the task of a repository hands to the pool: the empty list when
    the cached scan raised, since [scan_repo] catches the exception. *)
Definition task_events (cache : ToilCache) (detector : Config) (days_back : Z)
    (w : World) (repo_path : string) : list Event :=
  if stuck_entry cache repo_path days_back w then []
  else cached_or_scanned cache detector days_back w repo_path.

(** A failed scan captured in the entry of its path, as the specification
    words it: what the mapping holds for a path tells whether the scan of
    that path failed. *)
Definition failure_captured_claim : Prop :=
  exists failed : list Event -> bool,
    forall (cfg : Config) (days_back : Z) (repo_paths : list string) (w w' : World)
           (results : gmap string (list Event)) (repo : string),
      scan_multiple_repos cfg repo_paths days_back w = (Ret results, w') ->
      repo ∈ repo_paths ->
      exists entry : list Event,
        results !! repo = Some entry
        /\ (failed entry = true <-> scan_fails cfg repo days_back w).

End CacheMoreWords.

(** The string has no colon. *)
Definition colon_free (s : string) : Prop := ~ In ":"%char (list_ascii_of_string s).

(** The line [%h|%s|%ad|%an] of a commit. *)
Definition header_line (c : Commit) : string :=
  c_hash c ++ "|" ++ c_message c ++ "|" ++ c_date c ++ "|" ++ c_author c.

(** The lines of a log in the format the parser is written for: for each
    commit its header line, the paths of its changed files, one per line,
    and an empty line. *)
Definition log_lines (commits : list Commit) : list string :=
  concat (map (fun c => header_line c :: (c_files c ++ [""])%list) commits).

Definition bar_free (s : string) : Prop := has_char "|" s = false.
Definition newline_free (s : string) : Prop := has_char "010" s = false.

(** A line that the parser takes for the path of a changed file. *)
Definition file_line (line : string) : Prop :=
  strip line <> "" /\ bar_free line.

(** A commit whose fields the format can carry: no line break in any
    field, no [|] in the hash, the subject and the date, and paths that are
    not blank, have no [|] and no white space at either end. *)
Definition printable (c : Commit) : Prop :=
  bar_free (c_hash c) /\ bar_free (c_message c) /\ bar_free (c_date c)
  /\ newline_free (c_hash c) /\ newline_free (c_message c)
  /\ newline_free (c_date c) /\ newline_free (c_author c)
  /\ Forall (fun f => file_line f /\ strip f = f /\ newline_free f) (c_files c).

(** What every parsed commit satisfies. *)
Definition parsed_shape (c : Commit) : Prop :=
  bar_free (c_hash c) /\ bar_free (c_message c) /\ bar_free (c_date c)
  /\ Forall (fun f => f <> "" /\ bar_free f) (c_files c).

(** The three severities the report knows. *)
Definition report_severities : list string := ["HIGH"; "MEDIUM"; "LOW"].

(** The sum of the counts of the rows of a task type and severity. *)
Definition total_of (rows : list SummaryRow) (task_type severity : string) : Z :=
  foldr Z.add 0
        (map (fun row => if decide (r_task_type row = task_type /\ r_severity row = severity)
                         then r_count row else 0) rows).

(** The sum of the counts of the rows of a task type. *)
Definition task_total (rows : list SummaryRow) (task_type : string) : Z :=
  foldr Z.add 0
        (map (fun row => if decide (r_task_type row = task_type) then r_count row else 0)
             rows).

(** The severity of the first row whose severity the report does not know. *)
Definition first_unknown (rows : list SummaryRow) : option string :=
  r_severity <$> List.find (fun row => negb (str_mem (r_severity row) report_severities)) rows.

(** The state of [task_summary] after the rows read so far. *)
Definition summarises (m : gmap string (gmap string Z)) (rows : list SummaryRow) : Prop :=
  forall t : string,
    (t ∉ map r_task_type rows -> m !! t = None)
    /\ (t ∈ map r_task_type rows ->
        exists severities : gmap string Z,
          m !! t = Some severities
          /\ forall s : string,
               severities !! s
               = if decide (s ∈ report_severities) then Some (total_of rows t s) else None).

(** ** More concrete inputs *)

Definition feature_commit : Commit :=
  {| c_hash := "7d7d7d7";
     c_message := "Add feature 3";
     c_date := "2024-01-19";
     c_author := "dev";
     c_files := ["src/feature3.py"] |}.

(** A rule whose keywords are written with capitals. *)
Definition capital_rule : Rule :=
  {| keywords := ["Deploy"; "HOTFIX"];
     regex_patterns := [];
     file_patterns := [];
     exclude := [] |}.

Definition sample_commits : list Commit :=
  [terraform_commit; feature_commit; readme_commit].

(** The events of [sample_commits] under the default configuration. *)
Definition sample_events : list Event :=
  [ {| e_date := "2024-01-16"; e_repo_path := "/srv/app"; e_task_type := "env_setup";
       e_description := "Emergency fix: deploy to production"; e_severity := "HIGH";
       e_author := "ops"; e_files_changed := "infra/main.tf" |} ].

(** A world whose cache directory cannot be written. *)
Definition world_readonly : World :=
  {| clock := 1000;
     files := ∅;
     writable := false;
     git_last_commit := fun _ => Some "Mon Jan 15 10:00:00 2024 +0000";
     git_log := fun _ _ => Ret sample_commits;
     scans := [] |}.

(** The world with its storage made read-only. *)
Definition read_only (w : World) : World :=
  {| clock := clock w; files := files w; writable := false;
     git_last_commit := git_last_commit w; git_log := git_log w; scans := scans w |}.

(** A world whose cache holds one entry, written at 0 s and expired at
    5000 s, on storage that has become read-only. *)
Definition world_stuck : World :=
  {| clock := 5000;
     files := {[ ".toil_cache//srv/app:30:Mon Jan 15 10:00:00 2024 +0000.json"
                 := {| st_mtime := 0; body := JsonOf [] |} ]};
     writable := false;
     git_last_commit := fun _ => Some "Mon Jan 15 10:00:00 2024 +0000";
     git_log := fun _ _ => Ret sample_commits;
     scans := [] |}.

(** A world whose repositories have commits, none of them toil. *)
Definition world_quiet : World :=
  {| clock := 1000;
     files := ∅;
     writable := true;
     git_last_commit := fun _ => Some "Fri Jan 19 16:00:00 2024 +0000";
     git_log := fun _ _ => Ret [feature_commit; readme_commit];
     scans := [] |}.

(** A world with two files in the cache directory and one beside it. *)
Definition world_cached : World :=
  {| clock := 1000;
     files := <[".toil_cache/app:30:Mon Jan 15 10:00:00 2024 +0000.json"
                := {| st_mtime := 900; body := JsonOf sample_events |}]>
              (<[".toil_cache/notes.txt" := {| st_mtime := 10; body := Corrupt |}]> ∅);
     writable := true;
     git_last_commit := fun _ => Some "Mon Jan 15 10:00:00 2024 +0000";
     git_log := fun _ _ => Ret sample_commits;
     scans := [] |}.

(** A commit that lists no changed files. *)
Definition merge_commit : Commit :=
  {| c_hash := "e4f5a6b";
     c_message := "Merge hotfix branch";
     c_date := "2024-01-15";
     c_author := "dev";
     c_files := [] |}.

Definition sample_rows : list SummaryRow :=
  [ {| r_task_type := "manual_fix"; r_severity := "HIGH"; r_count := 3;
       r_date := "2024-01-15"; r_author := "ops" |};
    {| r_task_type := "manual_fix"; r_severity := "LOW"; r_count := 2;
       r_date := "2024-01-16"; r_author := "dev" |};
    {| r_task_type := "restart"; r_severity := "HIGH"; r_count := 1;
       r_date := "2024-01-16"; r_author := "ops" |} ].

(** A row whose severity comes from a lexicon level named critical. *)
Definition critical_row : SummaryRow :=
  {| r_task_type := "manual_fix"; r_severity := "CRITICAL"; r_count := 1;
     r_date := "2024-01-17"; r_author := "ops" |}.

(** * Properties *)

(** ** Substring tests *)

Lemma starts_with_spec (p s : string) :
  starts_with p s = true <-> exists post : string, s = p ++ post.
Proof.
  revert s. induction p as [|a p IH]; intros s; simpl.
  - split; [intros _; exists s; reflexivity | reflexivity].
  - destruct s as [|b s].
    + split; [discriminate | intros [post Hpost]; discriminate].
    + destruct (Ascii.eqb_spec a b) as [->|Hab].
      * rewrite IH. split; intros [post Hpost]; exists post.
        -- now rewrite Hpost.
        -- simpl in Hpost. now injection Hpost.
      * split; [discriminate|].
        intros [post Hpost]. simpl in Hpost. injection Hpost as Hba _. congruence.
Qed.

Lemma str_in_spec (needle hay : string) :
  str_in needle hay = true <-> occurs_in needle hay.
Proof.
  unfold occurs_in. induction hay as [|c hay IH]; simpl.
  - rewrite orb_false_r, starts_with_spec. split.
    + intros [post Hpost]. exists "", post. exact Hpost.
    + intros [pre [post Hpost]]. destruct pre; simpl in Hpost.
      * exists post. exact Hpost.
      * discriminate.
  - rewrite orb_true_iff, starts_with_spec, IH. split.
    + intros [[post Hpost] | [pre [post Hpost]]].
      * exists "", post. exact Hpost.
      * exists (String c pre), post. simpl. now rewrite Hpost.
    + intros [pre [post Hpost]]. destruct pre as [|d pre]; simpl in Hpost.
      * left. exists post. exact Hpost.
      * right. exists pre, post. now inversion Hpost.
Qed.

Lemma any_word_spec (words : list string) (text : string) :
  existsb (fun word => str_in word text) words = true
  <-> exists word, word ∈ words /\ occurs_in word text.
Proof.
  rewrite existsb_exists. split; intros [word [Hin Hocc]]; exists word.
  - split; [now apply list_elem_of_In | now apply str_in_spec].
  - split; [now apply list_elem_of_In | now apply str_in_spec].
Qed.

(** ** The match conditions of a rule *)

Section ClassifierFacts.
Context `{PyLib}.

Lemma pattern_foundb_spec (pattern text : string) :
  pattern_foundb pattern text = true <-> pattern_found pattern text.
Proof.
  unfold pattern_foundb, pattern_found. destruct (re_compile pattern) as [rx|].
  - split; [intros Hscan; exists rx; auto | intros [rx' [[= <-] Hscan]]; exact Hscan].
  - split; [discriminate | intros [rx [Hrx _]]; discriminate].
Qed.

Lemma confirmedb_spec (r : Rule) (text : string) :
  match regex_patterns r with
  | [] => true
  | _ :: _ => existsb (fun pattern => pattern_foundb pattern text) (regex_patterns r)
  end = true <-> confirmed r text.
Proof.
  unfold confirmed. destruct (regex_patterns r) as [|p ps] eqn:Hps.
  - split; [intros _; left; reflexivity | reflexivity].
  - rewrite existsb_exists. split.
    + intros [q [Hin Hq]]. right. exists q. split.
      * now apply list_elem_of_In.
      * now apply pattern_foundb_spec.
    + intros [Hnil | [q [Hin Hq]]]; [discriminate|].
      exists q. split; [now apply list_elem_of_In | now apply pattern_foundb_spec].
Qed.

Lemma satisfiesb_spec (r : Rule) (message : string) :
  satisfiesb r message = true <-> satisfies r message.
Proof.
  unfold satisfiesb, satisfies, keyword_hit, excluded.
  rewrite !andb_true_iff, negb_true_iff, any_word_spec, confirmedb_spec.
  rewrite <- not_true_iff_false, any_word_spec. tauto.
Qed.

Lemma satisfiesb_false (r : Rule) (message : string) :
  satisfiesb r message = false <-> ~ satisfies r message.
Proof. rewrite <- satisfiesb_spec. symmetry. apply not_true_iff_false. Qed.

(** With patterns that compile, the generator over [re.search] is a plain
    disjunction. *)
Lemma any_search_compiled (ps : list string) (text : string) :
  (forall pattern, pattern ∈ ps -> is_Some (re_compile pattern)) ->
  any_raising (fun pattern => re_search pattern text) ps
  = Ret (existsb (fun pattern => pattern_foundb pattern text) ps).
Proof.
  induction ps as [|p ps IH]; intros Hwf; simpl; [reflexivity|].
  destruct (Hwf p) as [rx Hrx]; [left|].
  unfold re_search, pattern_foundb at 1. rewrite Hrx. simpl.
  destruct (re_scan rx text); [reflexivity|].
  apply IH. intros q Hq. apply Hwf. now right.
Qed.

Lemma confirm_compiled (ps : list string) (text : string) :
  (forall pattern, pattern ∈ ps -> is_Some (re_compile pattern)) ->
  match ps with
  | [] => Ret true
  | _ :: _ => any_raising (fun pattern => re_search pattern text) ps
  end
  = Ret match ps with
        | [] => true
        | _ :: _ => existsb (fun pattern => pattern_foundb pattern text) ps
        end.
Proof.
  intros Hwf. destruct ps as [|p ps]; [reflexivity|].
  now apply any_search_compiled.
Qed.

(** The loop body's test decides the match condition. *)
Lemma rule_fires_well_formed (r : Rule) (message : string) :
  well_formed_rule r ->
  rule_fires r (lower message) = Ret (satisfiesb r message).
Proof.
  intros Hwf. unfold rule_fires, satisfiesb.
  destruct (existsb _ (keywords r)); [|reflexivity].
  rewrite confirm_compiled by exact Hwf. simpl.
  destruct (match regex_patterns r with [] => true | _ :: _ => _ end); reflexivity.
Qed.

(** An exclusion switches the rule off before anything is returned; only a
    regex that does not compile can get in the way. *)
Lemma rule_fires_excluded (r : Rule) (message_lower : string) :
  well_formed_rule r -> excluded r message_lower ->
  rule_fires r message_lower = Ret false.
Proof.
  intros Hwf Hex. unfold rule_fires.
  destruct (existsb _ (keywords r)); [|reflexivity].
  assert (Hx : existsb (fun term => str_in term message_lower) (exclude r) = true)
    by now apply any_word_spec.
  rewrite confirm_compiled by exact Hwf. simpl. rewrite Hx.
  destruct (match regex_patterns r with [] => true | _ :: _ => _ end); reflexivity.
Qed.

Lemma first_firing_app (pre post : list (string * Rule)) (text : string) :
  (forall name r, (name, r) ∈ pre -> rule_fires r text = Ret false) ->
  first_firing (pre ++ post) text = first_firing post text.
Proof.
  induction pre as [|[name r] pre IH]; intros Hpre; simpl; [reflexivity|].
  rewrite (Hpre name r) by left. simpl. apply IH.
  intros n' r' Hin. apply (Hpre n' r'). now right.
Qed.

Lemma first_firing_skip (pre post : list (string * Rule)) (name : string) (r : Rule)
    (text : string) :
  rule_fires r text = Ret false ->
  first_firing (pre ++ (name, r) :: post) text = first_firing (pre ++ post) text.
Proof.
  intros Hr. induction pre as [|[n' r'] pre IH]; simpl.
  - now rewrite Hr.
  - destruct (rule_fires r' text) as [[|]|e]; simpl; auto.
Qed.

Lemma first_firing_none (rules : list (string * Rule)) (message : string) :
  well_formed_rules rules ->
  (first_firing rules (lower message) = Ret None
   <-> forall name r, (name, r) ∈ rules -> ~ satisfies r message).
Proof.
  induction rules as [|[n r] rules IH]; intros Hwf; simpl.
  - split; [intros _ name r Hin; inversion Hin | reflexivity].
  - rewrite rule_fires_well_formed by (apply (Hwf n); left). simpl.
    assert (Hwf' : well_formed_rules rules)
      by (intros n' r' Hin; apply (Hwf n'); now right).
    destruct (satisfiesb r message) eqn:Hs.
    + split; [discriminate|]. intros Hall. exfalso.
      apply (Hall n r); [left | now apply satisfiesb_spec].
    + rewrite (IH Hwf'). split.
      * intros Hall name r' Hin. apply elem_of_cons in Hin as [[= -> ->]|Hin].
        -- now apply satisfiesb_false.
        -- now apply (Hall name).
      * intros Hall name r' Hin. apply (Hall name). now right.
Qed.

End ClassifierFacts.

(** ** Rule precedence and the exclude terms *)

Section MessagePass.
Context `{PyLib}.

Lemma first_firing_at (pre post : list (string * Rule)) (name : string) (r : Rule)
    (message : string) :
  well_formed_rules (pre ++ [(name, r)]) ->
  (forall name' r', (name', r') ∈ pre -> ~ satisfies r' message) ->
  satisfies r message ->
  first_firing (pre ++ (name, r) :: post) (lower message) = Ret (Some name).
Proof.
  intros Hwf Hpre Hr. rewrite first_firing_app.
  - simpl. rewrite rule_fires_well_formed.
    + apply satisfiesb_spec in Hr. now rewrite Hr.
    + apply (Hwf name). apply elem_of_app. right. left.
  - intros n' r' Hin. rewrite rule_fires_well_formed.
    + f_equal. apply satisfiesb_false. now apply (Hpre n').
    + apply (Hwf n'). apply elem_of_app. now left.
Qed.

Lemma first_firing_earliest (pre rest : list (string * Rule)) (n1 : string) (R1 : Rule)
    (message : string) :
  well_formed_rules (pre ++ [(n1, R1)]) ->
  satisfies R1 message ->
  exists (k : nat) (name : string) (r : Rule),
    (k <= length pre)%nat /\
    (pre ++ (n1, R1) :: rest)%list !! k = Some (name, r) /\
    satisfies r message /\
    (forall (j : nat) name' r', (j < k)%nat ->
       (pre ++ (n1, R1) :: rest)%list !! j = Some (name', r') -> ~ satisfies r' message) /\
    first_firing (pre ++ (n1, R1) :: rest) (lower message) = Ret (Some name).
Proof.
  intros Hwf HR1. induction pre as [|[n r] pre IH].
  - exists 0%nat, n1, R1. refine (conj _ (conj _ (conj _ (conj _ _)))); auto.
    + intros j n' r' Hj. lia.
    + now apply (first_firing_at []).
  - assert (Hr : well_formed_rule r) by (apply (Hwf n); left).
    assert (Hwf' : well_formed_rules (pre ++ [(n1, R1)]))
      by (intros n' r' Hin; apply (Hwf n'); now right).
    destruct (satisfiesb r message) eqn:Hs.
    + exists 0%nat, n, r. refine (conj _ (conj _ (conj _ (conj _ _)))).
      * simpl. lia.
      * reflexivity.
      * now apply satisfiesb_spec.
      * intros j n' r' Hj. lia.
      * simpl. rewrite rule_fires_well_formed by exact Hr. now rewrite Hs.
    + destruct (IH Hwf') as (k & name & r0 & Hk & Hlook & Hsat & Hbefore & Hres).
      exists (S k), name, r0. refine (conj _ (conj _ (conj _ (conj _ _)))); auto.
      * simpl. lia.
      * intros [|j] n' r' Hj Hlook'; simpl in Hlook'.
        -- injection Hlook' as <- <-. now apply satisfiesb_false.
        -- apply (Hbefore j n'); [lia | exact Hlook'].
      * simpl. rewrite rule_fires_well_formed by exact Hr. now rewrite Hs.
Qed.

(** C1. Rule precedence.  When two rules [R1] (earlier) and [R2] (later)
    of the configuration both satisfy the full match condition for a
    message, and the confirm patterns of the rules up to [R1] are regular
    expressions, [_analyze_commit_message] returns the category of the first
    rule in configuration order that satisfies the condition: that rule is
    at or before [R1], never [R2]; and it is [R1] itself when no rule before
    it satisfies the condition. *)
Theorem rule_precedence (cfg : Config) (message : string)
    (pre mid post : list (string * Rule)) (n1 n2 : string) (R1 R2 : Rule) :
  patterns cfg = (pre ++ (n1, R1) :: mid ++ (n2, R2) :: post)%list ->
  well_formed_rules (pre ++ [(n1, R1)]) ->
  satisfies R1 message ->
  satisfies R2 message ->
  (exists (k : nat) (name : string) (r : Rule),
     (k <= length pre)%nat /\
     patterns cfg !! k = Some (name, r) /\
     satisfies r message /\
     (forall (j : nat) name' r', (j < k)%nat ->
        patterns cfg !! j = Some (name', r') -> ~ satisfies r' message) /\
     _analyze_commit_message cfg message = Ret (Some name))
  /\ ((forall name r, (name, r) ∈ pre -> ~ satisfies r message) ->
      _analyze_commit_message cfg message = Ret (Some n1)).
Proof.
  intros Hcfg Hwf HR1 _. unfold _analyze_commit_message. rewrite Hcfg. split.
  - now apply first_firing_earliest.
  - intros Hpre. now apply first_firing_at.
Qed.

(** C3, as amended.  A rule that has an exclude term in the lower-cased
    message (and whose confirm patterns are regular expressions) is passed
    over, and the loop goes on to the rules after it: the message-based pass
    returns what it returns for the configuration without that rule.  So the
    result is empty exactly when no other rule satisfies the full match
    condition. *)
Theorem exclude_veto_skips_rule (cfg : Config) (message : string)
    (pre post : list (string * Rule)) (name : string) (r : Rule) :
  patterns cfg = (pre ++ (name, r) :: post)%list ->
  well_formed_rule r ->
  excluded r (lower message) ->
  _analyze_commit_message cfg message
    = _analyze_commit_message {| patterns := pre ++ post; severity := severity cfg |} message
  /\ (well_formed_rules (pre ++ post) ->
      (_analyze_commit_message cfg message = Ret None
       <-> forall name' r', (name', r') ∈ (pre ++ post)%list -> ~ satisfies r' message)).
Proof.
  intros Hcfg Hwf Hex. unfold _analyze_commit_message. rewrite Hcfg. simpl.
  assert (Hskip : first_firing (pre ++ (name, r) :: post) (lower message)
                  = first_firing (pre ++ post) (lower message))
    by (apply first_firing_skip; now apply rule_fires_excluded).
  split; [exact Hskip|].
  intros Hwf'. rewrite Hskip. now apply first_firing_none.
Qed.

End MessagePass.

(** ** The file-based pass *)

Section FilePass.
Context `{PyLib}.

Lemma any_raising_total {A} (f : A -> outcome bool) (g : A -> bool) (l : list A) :
  (forall x, x ∈ l -> f x = Ret (g x)) ->
  any_raising f l = Ret (existsb g l).
Proof.
  induction l as [|x l IH]; intros Hfg; simpl; [reflexivity|].
  rewrite (Hfg x) by left. simpl. destruct (g x); [reflexivity|].
  apply IH. intros y Hy. apply Hfg. now right.
Qed.

Lemma file_hitb_spec (r : Rule) (files : list string) :
  file_hitb r files = true <-> file_hit r files.
Proof.
  unfold file_hitb, file_hit. rewrite existsb_exists. split.
  - intros [pattern [Hp Hfiles]]. apply existsb_exists in Hfiles as [file [Hf Hm]].
    exists pattern, file. rewrite <- !list_elem_of_In in *.
    destruct (path_match file pattern) as [[|]|]; try discriminate. auto.
  - intros (pattern & file & Hp & Hf & Hm). exists pattern.
    split; [now apply list_elem_of_In|].
    apply existsb_exists. exists file. split; [now apply list_elem_of_In|].
    now rewrite Hm.
Qed.

Lemma rule_has_file_total (r : Rule) (files : list string) :
  (forall pattern file, pattern ∈ file_patterns r -> file ∈ files ->
     is_Some (path_match file pattern)) ->
  rule_has_file r files = Ret (file_hitb r files).
Proof.
  intros Hok. unfold rule_has_file, file_hitb.
  apply any_raising_total. intros pattern Hp.
  unfold any_file_matches. apply any_raising_total. intros file Hf.
  unfold Path_match. destruct (Hok pattern file Hp Hf) as [b ->]. reflexivity.
Qed.

Lemma first_file_rule_at (pre post : list (string * Rule)) (name : string) (r : Rule)
    (files : list string) :
  globs_accepted (pre ++ (name, r) :: post) files ->
  (forall name' r', (name', r') ∈ pre -> ~ file_hit r' files) ->
  file_hit r files ->
  first_file_rule (pre ++ (name, r) :: post) files = Ret (Some name).
Proof.
  intros Hok Hpre Hr. induction pre as [|[n' r'] pre IH]; simpl.
  - rewrite rule_has_file_total.
    + apply file_hitb_spec in Hr. now rewrite Hr.
    + intros pattern file. apply (Hok name r). left.
  - rewrite rule_has_file_total.
    + assert (Hno : file_hitb r' files = false).
      { apply not_true_iff_false. rewrite file_hitb_spec. apply (Hpre n'). left. }
      rewrite Hno. simpl. apply IH.
      * intros n0 r0 pattern file Hin. apply (Hok n0 r0). now right.
      * intros n0 r0 Hin. apply (Hpre n0). now right.
    + intros pattern file. apply (Hok n' r'). left.
Qed.

Lemma first_file_rule_none (rules : list (string * Rule)) (files : list string) :
  globs_accepted rules files ->
  (forall name r, (name, r) ∈ rules -> ~ file_hit r files) ->
  first_file_rule rules files = Ret None.
Proof.
  intros Hok Hno. induction rules as [|[n r] rules IH]; simpl; [reflexivity|].
  rewrite rule_has_file_total by (intros pattern file; apply (Hok n r); left).
  assert (Hr : file_hitb r files = false).
  { apply not_true_iff_false. rewrite file_hitb_spec. apply (Hno n). left. }
  rewrite Hr. simpl. apply IH.
  - intros n0 r0 pattern file Hin. apply (Hok n0 r0). now right.
  - intros n0 r0 Hin. apply (Hno n0). now right.
Qed.

(** C2.  File-based override, as the code has it.  When the message-based
    pass found a category with a non-empty name and [pathlib] accepts the
    file patterns: the first rule, in configuration order, one of whose
    file patterns matches a changed file gives the final category if its
    name is a non-empty string, and otherwise (an empty name, or no rule
    with a matching file pattern) the message-based category stands.  When
    the message-based pass found nothing, or a category whose name is the
    empty string, the commit has no category and the file patterns are not
    consulted, whatever they are.  The override holds as specified for
    categories with non-empty names; a category named by the empty string
    is where the truth tests [if detected_type] and
    [file_based_type or detected_type] make the code depart from it. *)
Theorem file_override (cfg : Config) (commit : Commit) :
  (forall detected : string,
     _analyze_commit_message cfg (c_message commit) = Ret (Some detected) ->
     truthy detected = true ->
     globs_accepted (patterns cfg) (c_files commit) ->
     (forall (pre post : list (string * Rule)) (name : string) (r : Rule),
        patterns cfg = (pre ++ (name, r) :: post)%list ->
        (forall name' r', (name', r') ∈ pre -> ~ file_hit r' (c_files commit)) ->
        file_hit r (c_files commit) ->
        final_type_of cfg true commit
          = Ret (Some (if truthy name then name else detected)))
     /\ ((forall name r, (name, r) ∈ patterns cfg -> ~ file_hit r (c_files commit)) ->
         final_type_of cfg true commit = Ret (Some detected)))
  /\ (forall (found : option string) (include_file_analysis : bool),
        _analyze_commit_message cfg (c_message commit) = Ret found ->
        truthy_opt found = false ->
        final_type_of cfg include_file_analysis commit = Ret None).
Proof.
  split.
  - intros detected Hmsg Htrue Hok. unfold final_type_of. rewrite Hmsg. simpl.
    rewrite Htrue. unfold _analyze_files_changed. split.
    + intros pre post name r Hcfg Hpre Hr.
      destruct (c_files commit) as [|file files] eqn:Hfiles.
      * destruct Hr as (pattern & f & _ & Hf & _). inversion Hf.
      * simpl. rewrite Hcfg. rewrite first_file_rule_at; auto.
        now rewrite <- Hcfg.
    + intros Hno. destruct (c_files commit) as [|file files] eqn:Hfiles.
      * reflexivity.
      * simpl. rewrite first_file_rule_none; auto.
  - intros found include Hmsg Hfalse. unfold final_type_of. rewrite Hmsg. simpl.
    destruct found as [detected|]; [|reflexivity].
    simpl in Hfalse. now rewrite Hfalse.
Qed.

End FilePass.

(** ** Severity *)

Lemma first_level_at (pre post : list (string * list string)) (level : string)
    (words : list string) (text : string) :
  (forall l ws, (l, ws) ∈ pre -> ~ word_hit ws text) ->
  word_hit words text ->
  first_level (pre ++ (level, words) :: post) text = Some (upper level).
Proof.
  intros Hpre Hw. induction pre as [|[l ws] pre IH]; simpl.
  - apply any_word_spec in Hw. now rewrite Hw.
  - assert (Hno : existsb (fun keyword => str_in keyword text) ws = false).
    { apply not_true_iff_false. rewrite any_word_spec. apply (Hpre l). left. }
    rewrite Hno. apply IH. intros l' ws' Hin. apply (Hpre l'). now right.
Qed.

Lemma first_level_none (lexicon : list (string * list string)) (text : string) :
  (forall l ws, (l, ws) ∈ lexicon -> ~ word_hit ws text) ->
  first_level lexicon text = None.
Proof.
  intros Hno. induction lexicon as [|[l ws] lexicon IH]; simpl; [reflexivity|].
  assert (Hws : existsb (fun keyword => str_in keyword text) ws = false).
  { apply not_true_iff_false. rewrite any_word_spec. apply (Hno l). left. }
  rewrite Hws. apply IH. intros l' ws' Hin. apply (Hno l'). now right.
Qed.

Lemma str_mem_spec (x : string) (l : list string) : str_mem x l = true <-> x ∈ l.
Proof.
  unfold str_mem. rewrite existsb_exists. split.
  - intros [y [Hin Heq]]. apply String.eqb_eq in Heq as ->. now apply list_elem_of_In.
  - intros Hin. exists x. split; [now apply list_elem_of_In | apply String.eqb_refl].
Qed.

(** C4, as amended.  The levels are checked in the order of the lexicon
    (the order of the keys of [config['severity']]), and the first level
    with a word in the lower-cased message is returned, upper-cased; in a
    lexicon that lists high, medium, low in this order, as the default one
    does, this is HIGH before MEDIUM before LOW, and a message with a HIGH
    and a LOW word is assessed HIGH.  When no word of the lexicon occurs the
    result is HIGH for manual_fix, revert and pipeline_issue, MEDIUM for
    manual_deploy and restart, and LOW for any other category. *)
Theorem severity_assessment (cfg : Config) (message task_type : string) :
  (forall (pre post : list (string * list string)) (level : string) (words : list string),
     severity cfg = (pre ++ (level, words) :: post)%list ->
     (forall l ws, (l, ws) ∈ pre -> ~ word_hit ws (lower message)) ->
     word_hit words (lower message) ->
     _assess_severity cfg message task_type = upper level)
  /\ (forall high_words medium_words low_words : list string,
        severity cfg = [("high", high_words); ("medium", medium_words); ("low", low_words)] ->
        (word_hit high_words (lower message) ->
         _assess_severity cfg message task_type = "HIGH")
        /\ (~ word_hit high_words (lower message) ->
            word_hit medium_words (lower message) ->
            _assess_severity cfg message task_type = "MEDIUM")
        /\ (~ word_hit high_words (lower message) ->
            ~ word_hit medium_words (lower message) ->
            word_hit low_words (lower message) ->
            _assess_severity cfg message task_type = "LOW"))
  /\ (exists high_words medium_words low_words : list string,
        severity default_config
        = [("high", high_words); ("medium", medium_words); ("low", low_words)])
  /\ ((forall l ws, (l, ws) ∈ severity cfg -> ~ word_hit ws (lower message)) ->
      (task_type ∈ ["manual_fix"; "revert"; "pipeline_issue"] ->
       _assess_severity cfg message task_type = "HIGH")
      /\ (task_type ∈ ["manual_deploy"; "restart"] ->
          _assess_severity cfg message task_type = "MEDIUM")
      /\ (task_type ∉ ["manual_fix"; "revert"; "pipeline_issue"; "manual_deploy"; "restart"] ->
          _assess_severity cfg message task_type = "LOW")).
Proof.
  assert (Hgen : forall pre post level words,
             severity cfg = (pre ++ (level, words) :: post)%list ->
             (forall l ws, (l, ws) ∈ pre -> ~ word_hit ws (lower message)) ->
             word_hit words (lower message) ->
             _assess_severity cfg message task_type = upper level).
  { intros pre post level words Hsev Hpre Hw. unfold _assess_severity.
    now rewrite Hsev, (first_level_at pre post level words). }
  split; [exact Hgen|]. split; [|split].
  - intros hw mw lw Hsev. split; [|split].
    + intros Hh. now apply (Hgen [] [("medium", mw); ("low", lw)] "high" hw).
    + intros Hh Hm. apply (Hgen [("high", hw)] [("low", lw)] "medium" mw); auto.
      intros l ws Hin. apply list_elem_of_singleton in Hin. now injection Hin as -> ->.
    + intros Hh Hm Hl. apply (Hgen [("high", hw); ("medium", mw)] [] "low" lw); auto.
      intros l ws Hin. apply elem_of_cons in Hin as [Hin|Hin].
      * now injection Hin as -> ->.
      * apply list_elem_of_singleton in Hin. now injection Hin as -> ->.
  - now eexists _, _, _.
  - intros Hno. unfold _assess_severity. rewrite first_level_none by exact Hno.
    unfold default_severity_of, high_severity_types, medium_severity_types.
    split; [|split].
    + intros Hin. apply str_mem_spec in Hin. now rewrite Hin.
    + intros Hin.
      assert (Hhigh : str_mem task_type ["manual_fix"; "revert"; "pipeline_issue"] = false).
      { apply not_true_iff_false. rewrite str_mem_spec. intros Hh.
        repeat (apply elem_of_cons in Hin as [->|Hin];
                [repeat (apply elem_of_cons in Hh as [Hh|Hh]; [discriminate|]);
                 inversion Hh|]).
        inversion Hin. }
      apply str_mem_spec in Hin. now rewrite Hhigh, Hin.
    + intros Hnot.
      assert (Hhigh : str_mem task_type ["manual_fix"; "revert"; "pipeline_issue"] = false).
      { apply not_true_iff_false. rewrite str_mem_spec. intros Hh. apply Hnot.
        repeat (apply elem_of_cons in Hh as [->|Hh]; [repeat constructor|]).
        inversion Hh. }
      assert (Hmed : str_mem task_type ["manual_deploy"; "restart"] = false).
      { apply not_true_iff_false. rewrite str_mem_spec. intros Hm. apply Hnot.
        repeat (apply elem_of_cons in Hm as [->|Hm]; [repeat constructor|]).
        inversion Hm. }
      now rewrite Hhigh, Hmed.
Qed.

(** ** The result cache *)

Section CacheFacts.
Context `{PyLib}.

Lemma get_cache_key_run (repo_path : string) (days_back : Z) (w : World) :
  _get_cache_key repo_path days_back w
  = (Ret (md5_hexdigest (key_data (path_resolve repo_path) days_back
                                  (fingerprint w repo_path))), w).
Proof. reflexivity. Qed.

(** [get] as a function of the store: the four ways a lookup can go. *)
Lemma get_run (self : ToilCache) (repo_path : string) (days_back : Z) (w : World) :
  get self repo_path days_back w
  = let path := entry_path self repo_path days_back w in
    match files w !! path with
    | None => (Ret None, w)
    | Some f =>
        if age w f >? ttl self then discard path w
        else match body f with
             | JsonOf data => (Ret (Some data), w)
             | Corrupt => discard path w
             end
    end.
Proof.
  unfold get, bind at 1. rewrite get_cache_key_run. fold (entry_path self repo_path days_back w).
  cbv zeta. unfold bind at 1, stat.
  destruct (files w !! entry_path self repo_path days_back w) as [f|] eqn:Hf;
    [|reflexivity].
  assert (Hunlink : (let* _ := unlink (entry_path self repo_path days_back w) in ret None) w
                    = discard (entry_path self repo_path days_back w) w).
  { unfold bind, unlink, discard, ret. rewrite Hf. destruct (writable w); reflexivity. }
  unfold bind at 1, time_time. unfold age.
  destruct (clock w - st_mtime f >? ttl self); [exact Hunlink|].
  unfold try_except. unfold bind at 1, json_load_file. rewrite Hf.
  destruct f as [mtime [data|]]; [reflexivity | exact Hunlink].
Qed.

Lemma set_run (self : ToilCache) (repo_path : string) (days_back : Z)
    (data : list Event) (w : World) :
  set self repo_path days_back data w
  = (Ret tt,
     if writable w
     then set_files (<[entry_path self repo_path days_back w
                       := {| st_mtime := clock w; body := JsonOf data |}]> (files w)) w
     else w).
Proof.
  unfold set, bind at 1. rewrite get_cache_key_run.
  fold (entry_path self repo_path days_back w). cbv zeta.
  unfold try_except, json_dump_file, ret. destruct (writable w); reflexivity.
Qed.

(** [scan_git_history] never raises: it returns [scan_events], and all it
    does to the world is to leave its trace. *)
Lemma scan_git_history_run (cfg : Config) (repo_path : string) (days_back : Z)
    (include_file_analysis : bool) (w : World) :
  scan_git_history cfg repo_path days_back include_file_analysis w
  = (Ret (scan_events cfg repo_path days_back include_file_analysis w),
     logged repo_path days_back w).
Proof.
  unfold scan_git_history, scan_events, bind at 1, log_scan. fold (logged repo_path days_back w).
  unfold try_except, bind, lift, ret. simpl.
  destruct (git_log w (path_resolve repo_path) days_back) as [commits|e]; [|reflexivity].
  destruct (classify_commits cfg include_file_analysis (path_resolve repo_path) commits);
    reflexivity.
Qed.


(** C7.  Cache idempotence.  If a call of [scan_with_caching] misses, scans
    and stores its event list (the cache file can be written), and a second
    call is made while the repository's fingerprint is the same, no more
    than the TTL has passed since the write and the file written is still
    in the store, then the second call returns the event list of the first
    and leaves the world as it found it: [scan_git_history] is not called,
    whatever git would list by then. *)
Theorem cache_idempotence (self : ToilCache) (detector : Config) (repo_path : string)
    (days_back : Z) (w w2 : World) :
  (get self repo_path days_back w).1 = Ret None ->
  writable w = true ->
  files w2 !! entry_path self repo_path days_back w
    = files (scan_with_caching self detector repo_path days_back w).2
        !! entry_path self repo_path days_back w ->
  git_last_commit w2 repo_path = git_last_commit w repo_path ->
  clock w2 - clock w <= ttl self ->
  exists events : list Event,
    (scan_with_caching self detector repo_path days_back w).1 = Ret events
    /\ scans (scan_with_caching self detector repo_path days_back w).2
       = (repo_path, days_back) :: scans w
    /\ scan_with_caching self detector repo_path days_back w2 = (Ret events, w2)
    /\ scans (scan_with_caching self detector repo_path days_back w2).2 = scans w2.
Proof.
  intros Hmiss Hwrite Hfiles Hgit Hage.
  set (path := entry_path self repo_path days_back w).
  assert (Hpath2 : entry_path self repo_path days_back w2 = path)
    by (unfold path, entry_path, fingerprint; now rewrite Hgit).
  (* the first call *)
  assert (Hfirst : exists fs,
             scan_with_caching self detector repo_path days_back w
             = (Ret (scan_events detector repo_path days_back true w),
                set_files (<[path := {| st_mtime := clock w;
                                        body := JsonOf (scan_events detector repo_path
                                                          days_back true w) |}]> fs)
                          (logged repo_path days_back w))).
  { unfold scan_with_caching, bind at 1.
    rewrite get_run in Hmiss |- *. cbv zeta in Hmiss |- *. fold path in Hmiss |- *.
    assert (Hcase : forall w0 : World,
               clock w0 = clock w -> writable w0 = true ->
               git_last_commit w0 = git_last_commit w -> git_log w0 = git_log w ->
               scans w0 = scans w ->
               exists fs,
                 (let* result := scan_git_history detector repo_path days_back true in
                  let* _ := set self repo_path days_back result in ret result) w0
                 = (Ret (scan_events detector repo_path days_back true w),
                    set_files (<[path := {| st_mtime := clock w;
                                            body := JsonOf (scan_events detector repo_path
                                                              days_back true w) |}]> fs)
                              (logged repo_path days_back w))).
    { intros w0 Hc Hw Hg Hl Hs. exists (files w0).
      unfold bind at 1. rewrite scan_git_history_run.
      unfold bind at 1. rewrite set_run. unfold ret. simpl. rewrite Hw.
      assert (He : scan_events detector repo_path days_back true w0
                   = scan_events detector repo_path days_back true w)
        by (unfold scan_events; now rewrite Hl).
      assert (Hp : entry_path self repo_path days_back (logged repo_path days_back w0) = path)
        by (unfold path, entry_path, fingerprint; simpl; now rewrite Hg).
      rewrite He, Hp. unfold set_files, logged. simpl. now rewrite Hc, Hw, Hg, Hl, Hs, Hwrite. }
    unfold discard in Hmiss |- *. rewrite Hwrite in Hmiss |- *.
    destruct (files w !! path) as [f|].
    - destruct (age w f >? ttl self).
      + apply Hcase; auto.
      + destruct (body f); [discriminate|]. apply Hcase; auto.
    - apply Hcase; auto. }
  destruct Hfirst as [fs Hfirst]. rewrite Hfirst in Hfiles |- *. simpl in Hfiles.
  fold path in Hfiles. rewrite lookup_insert_eq in Hfiles.
  exists (scan_events detector repo_path days_back true w).
  assert (Hsecond : scan_with_caching self detector repo_path days_back w2
                    = (Ret (scan_events detector repo_path days_back true w), w2)).
  { unfold scan_with_caching, bind at 1. rewrite get_run. cbv zeta.
    rewrite Hpath2, Hfiles. unfold age. simpl.
    destruct (clock w2 - clock w >? ttl self) eqn:Hgtb; [|reflexivity].
    apply Z.gtb_lt in Hgtb. lia. }
  rewrite Hsecond. auto.
Qed.

End CacheFacts.

(** ** Loading and the invalid rule *)

Section LoadFacts.
Context `{PyLib}.

Lemma any_search_raises (ok rest : list string) (bad text : string) :
  (forall pattern, pattern ∈ ok ->
     is_Some (re_compile pattern) /\ ~ pattern_found pattern text) ->
  re_compile bad = None ->
  any_raising (fun pattern => re_search pattern text) (ok ++ bad :: rest)
  = Raise (re_raises bad).
Proof.
  intros Hok Hbad. induction ok as [|p ok IH]; simpl.
  - unfold re_search. now rewrite Hbad.
  - destruct (Hok p) as [[rx Hrx] Hnot]; [left|].
    unfold re_search at 1. rewrite Hrx. simpl.
    destruct (re_scan rx text) eqn:Hscan.
    + exfalso. apply Hnot. now exists rx.
    + apply IH. intros q Hq. apply Hok. now right.
Qed.

Lemma classify_commits_raises (cfg : Config) (include_file_analysis : bool)
    (repo_path : string) (commits : list Commit) (commit : Commit) (e : exn) :
  commit ∈ commits ->
  _analyze_commit_message cfg (c_message commit) = Raise e ->
  exists e', classify_commits cfg include_file_analysis repo_path commits = Raise e'.
Proof.
  intros Hin Hraise. induction commits as [|c commits IH]; [inversion Hin|].
  simpl. destruct (classify_commit cfg include_file_analysis repo_path c) as [ev|e0] eqn:Hc.
  - apply elem_of_cons in Hin as [<-|Hin].
    + unfold classify_commit, final_type_of in Hc. rewrite Hraise in Hc. discriminate.
    + destruct (IH Hin) as [e' ->]. simpl. eauto.
  - simpl. eauto.
Qed.

(** C8, as amended.  Loading validates nothing: the rule set of a user
    file is taken as it is, whatever its confirm patterns.  A pattern that
    is not a regular expression is met only when the classifier reaches it
    (no earlier rule fires, a keyword of its rule occurs in the message and
    no earlier pattern of the rule is found): [re] raises there,
    [scan_git_history] catches the exception and returns the empty list for
    the repository.  On a message without a keyword of the rule the pattern
    is not compiled and the rule is passed over. *)
Theorem config_not_validated :
  (forall (user_patterns : list (string * Rule))
          (user_severity : option (list (string * list string))),
     exists cfg : Config,
       _load_config (ParsedYaml (YamlMapping (Some user_patterns) user_severity)) = Ret cfg
       /\ patterns cfg = user_patterns)
  /\ (forall (cfg : Config) (message : string) (pre post : list (string * Rule))
             (name : string) (r : Rule) (ok rest : list string) (bad : string),
        patterns cfg = (pre ++ (name, r) :: post)%list ->
        (forall name' r', (name', r') ∈ pre -> rule_fires r' (lower message) = Ret false) ->
        keyword_hit r (lower message) ->
        regex_patterns r = (ok ++ bad :: rest)%list ->
        (forall pattern, pattern ∈ ok ->
           is_Some (re_compile pattern) /\ ~ pattern_found pattern (lower message)) ->
        re_compile bad = None ->
        _analyze_commit_message cfg message = Raise (re_raises bad)
        /\ (forall (w : World) (repo_path : string) (days_back : Z)
                   (include_file_analysis : bool) (commits : list Commit) (commit : Commit),
              git_log w (path_resolve repo_path) days_back = Ret commits ->
              commit ∈ commits ->
              c_message commit = message ->
              scan_git_history cfg repo_path days_back include_file_analysis w
              = (Ret [], logged repo_path days_back w)))
  /\ (forall (r : Rule) (message : string),
        ~ keyword_hit r (lower message) ->
        rule_fires r (lower message) = Ret false).
Proof.
  split; [|split].
  - intros up us. eexists. split; reflexivity.
  - intros cfg message pre post name r ok rest bad Hcfg Hpre Hkw Hre Hok Hbad.
    assert (Hraise : _analyze_commit_message cfg message = Raise (re_raises bad)).
    { unfold _analyze_commit_message. rewrite Hcfg, first_firing_app by exact Hpre.
      simpl. unfold rule_fires. apply any_word_spec in Hkw. rewrite Hkw.
      rewrite Hre. rewrite any_search_raises by assumption.
      destruct ok; reflexivity. }
    split; [exact Hraise|].
    intros w repo_path days_back include commits commit Hlog Hin Hmsg.
    rewrite scan_git_history_run. f_equal. f_equal. unfold scan_events. rewrite Hlog.
    rewrite <- Hmsg in Hraise.
    destruct (classify_commits_raises cfg include (path_resolve repo_path)
                commits commit _ Hin Hraise) as [e' ->].
    reflexivity.
  - intros r message Hno. unfold rule_fires.
    destruct (existsb _ (keywords r)) eqn:Hkw; [|reflexivity].
    exfalso. apply Hno. now apply any_word_spec.
Qed.

(** C10.  Shallow merge.  A user file that defines the key [patterns]
    (or [severity]) replaces that whole section of the defaults by its own:
    the loaded section is the user's, with no default category (or level)
    left in it unless the user's section lists it; a key the file does not
    define keeps the default section in full. *)
Theorem shallow_merge (user_patterns : option (list (string * Rule)))
    (user_severity : option (list (string * list string))) :
  exists cfg : Config,
    _load_config (ParsedYaml (YamlMapping user_patterns user_severity)) = Ret cfg
    /\ (forall rules, user_patterns = Some rules ->
          patterns cfg = rules
          /\ (forall name r, (name, r) ∈ default_patterns ->
                name ∉ (map fst rules) -> name ∉ (map fst (patterns cfg))))
    /\ (user_patterns = None -> patterns cfg = default_patterns)
    /\ (forall lexicon, user_severity = Some lexicon ->
          severity cfg = lexicon
          /\ (forall level words, (level, words) ∈ default_severity ->
                level ∉ (map fst lexicon) -> level ∉ (map fst (severity cfg))))
    /\ (user_severity = None -> severity cfg = default_severity).
Proof.
  eexists. split; [reflexivity|]. simpl.
  refine (conj _ (conj _ (conj _ _))).
  - intros rules ->. split; [reflexivity|]. intros name r _ Hnot. exact Hnot.
  - now intros ->.
  - intros lexicon ->. split; [reflexivity|]. intros level words _ Hnot. exact Hnot.
  - now intros ->.
Qed.

End LoadFacts.

(** ** Scanning several repositories *)

Section MultiRepo.
Context `{PyLib}.

(** Every task yields what the scan of its path yields in the world the
    pool started in: the tasks before it have only left their traces. *)
Lemma run_tasks_run (cfg : Config) (days_back : Z) (finished : list string) (w : World) :
  exists w' : World,
    run_tasks cfg days_back finished w
    = (Ret (map (fun repo => (repo, Ret (scan_events cfg repo days_back true w))) finished),
       w')
    /\ git_log w' = git_log w.
Proof.
  revert w. induction finished as [|repo finished IH]; intros w; simpl.
  - exists w. split; reflexivity.
  - unfold bind at 1, run_task. rewrite scan_git_history_run.
    destruct (IH (logged repo days_back w)) as (w' & Hrun & Hgit).
    exists w'. unfold bind at 1. rewrite Hrun. unfold ret. simpl. split; [|exact Hgit].
    reflexivity.
Qed.

Lemma stored_results_lookup (f : string -> list Event) (l : list string)
    (m : gmap string (list Event)) (k : string) :
  foldl store_result m (map (fun repo => (repo, Ret (f repo))) l) !! k
  = if decide (k ∈ l) then Some (f k) else m !! k.
Proof.
  revert m. induction l as [|repo l IH]; intros m; simpl.
  - destruct (decide (k ∈ [])) as [Hin|_]; [inversion Hin | reflexivity].
  - rewrite IH. destruct (decide (k ∈ l)) as [Hl|Hl].
    + rewrite decide_True by now right. reflexivity.
    + destruct (decide (k = repo)) as [->|Hne].
      * rewrite decide_True by left. apply lookup_insert_eq.
      * rewrite decide_False.
        -- now apply lookup_insert_ne.
        -- intros Hin. apply elem_of_cons in Hin as [?|?]; contradiction.
Qed.

(** C9, as amended.  Multi-repo isolation.  For distinct repository paths,
    in whatever order the scans finish, [scan_multiple_repos] returns a
    mapping with exactly one entry per requested path; the entry of a path
    is the event list that the scan of that path alone produces; when that
    scan fails (git raises, or the classification does) it is the empty
    list, the entry of a repository without toil, so that the failure
    leaves no mark in the mapping; no entry depends on any other path. *)
Theorem multi_repo_isolation (cfg : Config) (days_back : Z)
    (repo_paths finished : list string) (w : World) :
  NoDup repo_paths ->
  finished ≡ₚ repo_paths ->
  exists (results : gmap string (list Event)) (w' : World),
    scan_multiple_repos cfg finished days_back w = (Ret results, w')
    /\ dom results =@{gset string} list_to_set repo_paths
    /\ size results = length repo_paths
    /\ (forall repo : string, repo ∈ repo_paths ->
          exists events : list Event,
            (scan_git_history cfg repo days_back true w).1 = Ret events
            /\ results !! repo = Some events
            /\ (scan_fails cfg repo days_back w -> events = [])).
Proof.
  intros Hnodup Hperm.
  destruct (run_tasks_run cfg days_back finished w) as (w' & Hrun & _).
  eexists _, w'. split.
  { unfold scan_multiple_repos, bind. rewrite Hrun. reflexivity. }
  set (results := foldl store_result ∅ _).
  assert (Hlook : forall k, results !! k
                   = if decide (k ∈ repo_paths)
                     then Some (scan_events cfg k days_back true w) else None).
  { intros k. unfold results.
    rewrite (stored_results_lookup (fun repo => scan_events cfg repo days_back true w)).
    rewrite lookup_empty.
    destruct (decide (k ∈ finished)) as [Hin|Hin];
      destruct (decide (k ∈ repo_paths)) as [Hin'|Hin']; try reflexivity.
    - rewrite Hperm in Hin. contradiction.
    - rewrite <- Hperm in Hin'. contradiction. }
  assert (Hdom : dom results =@{gset string} list_to_set repo_paths).
  { apply set_eq. intros k. rewrite elem_of_dom, elem_of_list_to_set, Hlook.
    destruct (decide (k ∈ repo_paths)) as [Hin|Hin].
    - split; [auto | intros _; eexists; reflexivity].
    - split; [intros [x Hx]; discriminate | contradiction]. }
  split; [exact Hdom|]. split.
  - rewrite <- size_dom, Hdom. now apply size_list_to_set.
  - intros repo Hin. exists (scan_events cfg repo days_back true w).
    rewrite scan_git_history_run, Hlook, decide_True by exact Hin.
    split; [reflexivity|]. split; [reflexivity|].
    unfold scan_fails, scan_events.
    intros [[e ->] | (commits & e & -> & ->)]; reflexivity.
Qed.

End MultiRepo.

(** ** Checking the side conditions by computation *)

Section Checks.
Context `{PyLib}.

Lemma none_checked {A} (P : A -> Prop) (b : A -> bool) (l : list (string * A)) :
  (forall x, b x = true <-> P x) ->
  forallb (fun '(_, x) => negb (b x)) l = true ->
  forall name x, (name, x) ∈ l -> ~ P x.
Proof.
  intros Hb Hall name x Hin HP. rewrite forallb_forall in Hall.
  apply list_elem_of_In in Hin. specialize (Hall _ Hin). simpl in Hall.
  apply Hb in HP. now rewrite HP in Hall.
Qed.

Lemma well_formed_rulesb_spec (rules : list (string * Rule)) :
  well_formed_rulesb rules = true -> well_formed_rules rules.
Proof.
  unfold well_formed_rulesb. rewrite forallb_forall. intros Hall name r Hin pattern Hp.
  apply list_elem_of_In in Hin. specialize (Hall _ Hin). simpl in Hall.
  rewrite forallb_forall in Hall. apply list_elem_of_In in Hp. specialize (Hall _ Hp).
  destruct (re_compile pattern); [eauto | discriminate].
Qed.

Lemma globs_acceptedb_spec (rules : list (string * Rule)) (files : list string) :
  globs_acceptedb rules files = true -> globs_accepted rules files.
Proof.
  unfold globs_acceptedb. rewrite forallb_forall. intros Hall name r pattern file Hin Hp Hf.
  apply list_elem_of_In in Hin. specialize (Hall _ Hin). simpl in Hall.
  rewrite forallb_forall in Hall. apply list_elem_of_In in Hp. specialize (Hall _ Hp).
  rewrite forallb_forall in Hall. apply list_elem_of_In in Hf. specialize (Hall _ Hf).
  destruct (path_match file pattern); [eauto | discriminate].
Qed.

Lemma word_hit_checked (words : list string) (text : string) :
  existsb (fun word => str_in word text) words = true <-> word_hit words text.
Proof. apply any_word_spec. Qed.

End Checks.

(** * Further properties of the code *)

(** ** The classifier on any rule set *)

Section ClassifierMore.
Context `{PyLib}.

Lemma rule_fires_no_keyword (r : Rule) (text : string) :
  ~ keyword_hit r text -> rule_fires r text = Ret false.
Proof.
  intros Hno. unfold rule_fires.
  destruct (existsb _ (keywords r)) eqn:Hkw; [|reflexivity].
  exfalso. apply Hno. now apply any_word_spec.
Qed.

(** X1.  A message in which no keyword of any rule occurs has no category,
    whatever the confirm patterns are (none is compiled), and a commit
    with such a message yields no event. *)
Theorem no_keyword_no_category (cfg : Config) (message : string) :
  (forall name r, (name, r) ∈ patterns cfg -> ~ keyword_hit r (lower message)) ->
  _analyze_commit_message cfg message = Ret None
  /\ (forall (include_file_analysis : bool) (repo_path : string) (commit : Commit),
        c_message commit = message ->
        classify_commit cfg include_file_analysis repo_path commit = Ret None).
Proof.
  intros Hno.
  assert (Hnone : _analyze_commit_message cfg message = Ret None).
  { unfold _analyze_commit_message.
    rewrite <- (app_nil_r (patterns cfg)), first_firing_app; [reflexivity|].
    intros name r Hin. apply rule_fires_no_keyword. now apply (Hno name). }
  split; [exact Hnone|].
  intros include repo_path commit Hmsg.
  unfold classify_commit, final_type_of. rewrite Hmsg, Hnone. reflexivity.
Qed.

Lemma lower_no_upper (text : string) (c : ascii) :
  In c (list_ascii_of_string (lower text)) -> is_ascii_upper c = false.
Proof.
  induction text as [|a text IH]; simpl; [intros []|].
  intros [<-|Hin]; [|now apply IH].
  unfold ascii_lower. destruct (is_ascii_upper a) eqn:Ha; [|exact Ha].
  destruct a as [[] [] [] [] [] [] [] []]; vm_compute in Ha; try discriminate;
    vm_compute; reflexivity.
Qed.

Lemma chars_app (a b : string) :
  list_ascii_of_string (a ++ b) = (list_ascii_of_string a ++ list_ascii_of_string b)%list.
Proof. induction a as [|c a IH]; simpl; [reflexivity | now rewrite IH]. Qed.

Lemma occurs_in_chars (needle hay : string) (c : ascii) :
  occurs_in needle hay ->
  In c (list_ascii_of_string needle) -> In c (list_ascii_of_string hay).
Proof.
  intros (pre & post & ->) Hin. rewrite !chars_app, !in_app_iff. auto.
Qed.

Lemma upper_case_word_absent (word text : string) :
  has_upper word = true -> ~ occurs_in word (lower text).
Proof.
  unfold has_upper. rewrite existsb_exists. intros (c & Hin & Hup) Hocc.
  apply (occurs_in_chars _ _ c Hocc) in Hin. apply lower_no_upper in Hin. congruence.
Qed.

(** X2.  The message is lower-cased but the configured words are not: a
    keyword, exclude term or severity word with an ASCII upper-case letter
    never occurs in a lower-cased message.  So a rule all of whose keywords
    have one never fires, and a severity level all of whose words have one
    is never chosen for its words. *)
Theorem upper_case_words_are_dead :
  (forall word text : string, has_upper word = true -> str_in word (lower text) = false)
  /\ (forall (r : Rule) (message : string),
        (forall keyword, keyword ∈ keywords r -> has_upper keyword = true) ->
        rule_fires r (lower message) = Ret false)
  /\ (forall (level : string) (words : list string) (rest : list (string * list string))
             (message : string),
        (forall word, word ∈ words -> has_upper word = true) ->
        first_level ((level, words) :: rest) (lower message)
        = first_level rest (lower message)).
Proof.
  assert (Hdead : forall word text, has_upper word = true -> str_in word (lower text) = false).
  { intros word text Hup. apply not_true_iff_false. rewrite str_in_spec.
    now apply upper_case_word_absent. }
  assert (Hnone : forall (words : list string) (text : string),
             (forall word, word ∈ words -> has_upper word = true) ->
             existsb (fun word => str_in word (lower text)) words = false).
  { intros words text Hall. apply not_true_iff_false. rewrite existsb_exists.
    intros (word & Hin & Hocc). rewrite Hdead in Hocc; [discriminate|].
    apply Hall. now apply list_elem_of_In. }
  split; [exact Hdead|]. split.
  - intros r message Hall. unfold rule_fires. now rewrite Hnone.
  - intros level words rest message Hall. simpl. now rewrite Hnone.
Qed.

Lemma first_firing_name (rules : list (string * Rule)) (text name : string) :
  first_firing rules text = Ret (Some name) -> name ∈ map fst rules.
Proof.
  induction rules as [|[n r] rules IH]; simpl; [discriminate|].
  destruct (rule_fires r text) as [[|]|e]; simpl.
  - intros [= ->]. left.
  - intros Hrest. right. now apply IH.
  - discriminate.
Qed.

Lemma first_file_rule_name (rules : list (string * Rule)) (files : list string)
    (name : string) :
  first_file_rule rules files = Ret (Some name) -> name ∈ map fst rules.
Proof.
  induction rules as [|[n r] rules IH]; simpl; [discriminate|].
  destruct (rule_has_file r files) as [[|]|e]; simpl.
  - intros [= ->]. left.
  - intros Hrest. right. now apply IH.
  - discriminate.
Qed.

Lemma final_type_name (cfg : Config) (include_file_analysis : bool) (commit : Commit)
    (final : string) :
  final_type_of cfg include_file_analysis commit = Ret (Some final) ->
  final ∈ rule_names cfg.
Proof.
  unfold final_type_of, rule_names.
  destruct (_analyze_commit_message cfg (c_message commit)) as [[detected|]|e] eqn:Hmsg;
    simpl; try discriminate.
  apply first_firing_name in Hmsg.
  destruct (truthy detected); [|discriminate].
  destruct (include_file_analysis && nonempty (c_files commit)).
  - destruct (_analyze_files_changed cfg (c_files commit)) as [[t|]|e] eqn:Hfile;
      simpl; try discriminate.
    + apply first_file_rule_name in Hfile. intros [= <-].
      unfold or_else. destruct (truthy t); assumption.
    + now intros [= <-].
  - simpl. now intros [= <-].
Qed.

Lemma classify_commit_event (cfg : Config) (include_file_analysis : bool)
    (repo_path : string) (commit : Commit) (ev : Event) :
  classify_commit cfg include_file_analysis repo_path commit = Ret (Some ev) ->
  event_of_commit cfg repo_path ev commit.
Proof.
  unfold classify_commit.
  destruct (final_type_of cfg include_file_analysis commit) as [[final|]|e] eqn:Hfinal;
    simpl; try discriminate.
  intros [= <-]. unfold event_of_commit. simpl.
  repeat split. now apply (final_type_name cfg include_file_analysis commit).
Qed.

(** X3.  What a scan emits follows the commits: the events are made, in
    order, from a sub-sequence of the commits (a commit gives one event or
    none); an event has the date, author and unmodified message of its
    commit, the comma-joined changed files, the repository path, a category
    that is the name of a rule of the configuration, and the severity
    assessed for that message and category. *)
Theorem events_follow_commits (cfg : Config) (include_file_analysis : bool)
    (repo_path : string) (commits : list Commit) (events : list Event) :
  classify_commits cfg include_file_analysis repo_path commits = Ret events ->
  (exists kept : list Commit,
     sublist kept commits /\ Forall2 (event_of_commit cfg repo_path) events kept)
  /\ (length events <= length commits)%nat.
Proof.
  intros Hrun.
  assert (Hkept : exists kept : list Commit,
             sublist kept commits /\ Forall2 (event_of_commit cfg repo_path) events kept).
  { revert events Hrun. induction commits as [|c commits IH]; intros events; simpl.
    - intros [= <-]. exists []. split; constructor.
    - destruct (classify_commit cfg include_file_analysis repo_path c) as [ev|e] eqn:Hc;
        simpl; [|discriminate].
      destruct (classify_commits cfg include_file_analysis repo_path commits)
        as [rest|e]; simpl; [|discriminate].
      destruct (IH rest eq_refl) as (kept & Hsub & Hall).
      destruct ev as [ev|]; intros [= <-].
      + exists (c :: kept). split; [now constructor|].
        constructor; [now apply (classify_commit_event cfg include_file_analysis) | exact Hall].
      + exists kept. split; [now constructor | exact Hall]. }
  split; [exact Hkept|].
  destruct Hkept as (kept & Hsub & Hall).
  rewrite (Forall2_length _ _ _ Hall). now apply sublist_length.
Qed.

Lemma any_search_error (ps : list string) (text : string) (e : exn) :
  any_raising (fun pattern => re_search pattern text) ps = Raise e ->
  exists pattern, pattern ∈ ps /\ re_compile pattern = None /\ e = re_raises pattern.
Proof.
  induction ps as [|p ps IH]; simpl; [discriminate|].
  unfold re_search at 1. destruct (re_compile p) as [rx|] eqn:Hp; simpl.
  - destruct (re_scan rx text); [discriminate|].
    intros Hrest. destruct (IH Hrest) as (q & Hq & Hnone & He).
    exists q. split; [now right | auto].
  - intros [= <-]. exists p. split; [left | auto].
Qed.

Lemma first_firing_error (rules : list (string * Rule)) (text : string) (e : exn) :
  first_firing rules text = Raise e ->
  exists name r pattern,
    (name, r) ∈ rules /\ keyword_hit r text /\ pattern ∈ regex_patterns r
    /\ re_compile pattern = None /\ e = re_raises pattern.
Proof.
  induction rules as [|[n r] rules IH]; simpl; [discriminate|].
  destruct (rule_fires r text) as [[|]|e0] eqn:Hr; simpl.
  - discriminate.
  - intros Hrest. destruct (IH Hrest) as (name & r' & p & Hin & Hrest').
    exists name, r', p. split; [now right | exact Hrest'].
  - intros [= <-]. unfold rule_fires in Hr.
    destruct (existsb _ (keywords r)) eqn:Hkw; [|discriminate].
    apply any_word_spec in Hkw.
    destruct (regex_patterns r) as [|p ps] eqn:Hps; [discriminate|].
    destruct (any_raising _ (p :: ps)) as [[|]|e1] eqn:Hany; simpl in Hr; try discriminate.
    injection Hr as ->. apply any_search_error in Hany as (q & Hq & Hnone & He).
    exists n, r, q. rewrite Hps. split; [left | auto].
Qed.

Lemma any_file_error (pattern : string) (files : list string) (e : exn) :
  any_file_matches pattern files = Raise e ->
  exists file, file ∈ files /\ path_match file pattern = None
               /\ e = ValueError "empty pattern".
Proof.
  unfold any_file_matches. induction files as [|f files IH]; simpl; [discriminate|].
  unfold Path_match at 1. destruct (path_match f pattern) as [[|]|] eqn:Hf; simpl.
  - discriminate.
  - intros Hrest. destruct (IH Hrest) as (file & Hin & Hrest').
    exists file. split; [now right | exact Hrest'].
  - intros [= <-]. exists f. split; [left | auto].
Qed.

Lemma first_file_rule_error (rules : list (string * Rule)) (files : list string) (e : exn) :
  first_file_rule rules files = Raise e ->
  exists name r pattern file,
    (name, r) ∈ rules /\ pattern ∈ file_patterns r /\ file ∈ files
    /\ path_match file pattern = None /\ e = ValueError "empty pattern".
Proof.
  induction rules as [|[n r] rules IH]; simpl; [discriminate|].
  destruct (rule_has_file r files) as [[|]|e0] eqn:Hr; simpl.
  - discriminate.
  - intros Hrest. destruct (IH Hrest) as (name & r' & p & f & Hin & Hrest').
    exists name, r', p, f. split; [now right | exact Hrest'].
  - intros [= <-]. unfold rule_has_file in Hr.
    assert (Hpat : exists pattern, pattern ∈ file_patterns r
                                   /\ any_file_matches pattern files = Raise e0).
    { revert Hr. induction (file_patterns r) as [|p ps IHp]; simpl; [discriminate|].
      destruct (any_file_matches p files) as [[|]|e1] eqn:Hp; simpl.
      - discriminate.
      - intros Hrest. destruct (IHp Hrest) as (q & Hq & Hraise).
        exists q. split; [now right | exact Hraise].
      - intros [= <-]. exists p. split; [left | assumption]. }
    destruct Hpat as (p & Hp & Hraise).
    apply any_file_error in Hraise as (f & Hf & Hnone & He).
    exists n, r, p, f. split; [left | auto].
Qed.

(** X4.  The classification of a commit raises only where one of two
    library calls does: [re.search], on a confirm pattern that [re] does
    not accept, in a rule a keyword of which occurs in the message, the
    exception being the one [re] raises for that pattern; or
    [Path.match], on a file pattern that [pathlib] rejects with
    [ValueError], and then only with file analysis enabled and a commit
    that lists changed files. *)
Theorem classification_errors (cfg : Config) (include_file_analysis : bool)
    (repo_path : string) (commit : Commit) (e : exn) :
  classify_commit cfg include_file_analysis repo_path commit = Raise e ->
  (exists name r pattern,
     (name, r) ∈ patterns cfg /\ keyword_hit r (lower (c_message commit))
     /\ pattern ∈ regex_patterns r /\ re_compile pattern = None /\ e = re_raises pattern)
  \/ (include_file_analysis = true /\ c_files commit <> []
      /\ exists name r pattern file,
           (name, r) ∈ patterns cfg /\ pattern ∈ file_patterns r /\ file ∈ c_files commit
           /\ path_match file pattern = None /\ e = ValueError "empty pattern").
Proof.
  unfold classify_commit, final_type_of, _analyze_commit_message.
  destruct (first_firing (patterns cfg) (lower (c_message commit)))
    as [[detected|]|e0] eqn:Hmsg; simpl; try discriminate.
  - destruct (truthy detected); [|discriminate].
    destruct include_file_analysis; simpl; [|discriminate].
    destruct (c_files commit) as [|f files] eqn:Hfiles; simpl; [discriminate|].
    destruct (_analyze_files_changed cfg (f :: files)) as [ft|e1] eqn:Hfile;
      simpl; [discriminate|].
    intros [= <-]. right. split; [reflexivity|]. split; [discriminate|].
    now apply first_file_rule_error.
  - intros [= <-]. left. now apply first_firing_error.
Qed.

End ClassifierMore.

(** X5.  The severity of an event is HIGH, MEDIUM or LOW or the upper-cased
    name of a level of the lexicon; with a lexicon whose levels are named
    high, medium and low it is one of HIGH, MEDIUM, LOW. *)
Theorem severity_range (cfg : Config) (message task_type : string) :
  _assess_severity cfg message task_type
    ∈ (["HIGH"; "MEDIUM"; "LOW"] ++ map (fun entry => upper entry.1) (severity cfg))%list
  /\ ((forall level words, (level, words) ∈ severity cfg ->
         upper level ∈ ["HIGH"; "MEDIUM"; "LOW"]) ->
      _assess_severity cfg message task_type ∈ ["HIGH"; "MEDIUM"; "LOW"]).
Proof.
  assert (Hlevel : forall lexicon text level,
             first_level lexicon text = Some level ->
             exists l ws, (l, ws) ∈ lexicon /\ level = upper l).
  { intros lexicon text level. induction lexicon as [|[l ws] lexicon IH]; simpl;
      [discriminate|].
    destruct (existsb _ ws).
    - intros [= <-]. exists l, ws. split; [left | reflexivity].
    - intros Hrest. destruct (IH Hrest) as (l' & ws' & Hin & ->).
      exists l', ws'. split; [now right | reflexivity]. }
  assert (Hdefault : default_severity_of task_type ∈ ["HIGH"; "MEDIUM"; "LOW"]).
  { unfold default_severity_of.
    destruct (str_mem task_type high_severity_types); [left|].
    destruct (str_mem task_type medium_severity_types); [right; left | right; right; left]. }
  unfold _assess_severity.
  destruct (first_level (severity cfg) (lower message)) as [level|] eqn:Hfirst.
  - destruct (Hlevel _ _ _ Hfirst) as (l & ws & Hin & ->). split.
    + apply elem_of_app. right. apply list_elem_of_fmap. now exists (l, ws).
    + intros Hnames. now apply (Hnames l ws).
  - split; [|intros _; exact Hdefault].
    apply elem_of_app. now left.
Qed.

(** ** The cache and the cached scan *)

Section CacheMore.
Context `{PyLib}.

Lemma stuck_entry_lookup (self : ToilCache) (repo_path : string) (days_back : Z)
    (w : World) :
  stuck_entry self repo_path days_back w = true ->
  writable w = false
  /\ valid_entry self repo_path days_back w = None
  /\ is_Some (files w !! entry_path self repo_path days_back w).
Proof.
  unfold stuck_entry.
  destruct (files w !! entry_path self repo_path days_back w) as [f|]; [|discriminate].
  destruct (valid_entry self repo_path days_back w); [discriminate|].
  destruct (writable w); [discriminate|]. eauto.
Qed.

Lemma not_stuck_writable (self : ToilCache) (repo_path : string) (days_back : Z)
    (w : World) :
  writable w = true -> stuck_entry self repo_path days_back w = false.
Proof.
  intros Hwr. unfold stuck_entry. rewrite Hwr.
  destruct (files w !! entry_path self repo_path days_back w); [|reflexivity].
  destruct (valid_entry self repo_path days_back w); reflexivity.
Qed.

Lemma not_stuck_absent (self : ToilCache) (repo_path : string) (days_back : Z)
    (w : World) :
  files w !! entry_path self repo_path days_back w = None ->
  stuck_entry self repo_path days_back w = false
  /\ valid_entry self repo_path days_back w = None.
Proof. intros Hnone. unfold stuck_entry, valid_entry. now rewrite Hnone. Qed.

Lemma get_result (self : ToilCache) (repo_path : string) (days_back : Z) (w : World) :
  (get self repo_path days_back w).1
  = if stuck_entry self repo_path days_back w then Raise (OSError "PermissionError")
    else Ret (valid_entry self repo_path days_back w).
Proof.
  rewrite get_run. cbv zeta. unfold stuck_entry, valid_entry, discard.
  destruct (files w !! entry_path self repo_path days_back w) as [f|]; [|reflexivity].
  destruct (age w f >? ttl self); [destruct (writable w); reflexivity|].
  destruct (body f); [reflexivity|]. destruct (writable w); reflexivity.
Qed.

(** What [get] leaves behind: the world as it was, or without the entry's
    file. *)
Lemma get_world (self : ToilCache) (repo_path : string) (days_back : Z) (w : World) :
  let w' := (get self repo_path days_back w).2 in
  clock w' = clock w /\ writable w' = writable w
  /\ git_last_commit w' = git_last_commit w /\ git_log w' = git_log w
  /\ scans w' = scans w
  /\ (forall p, p <> entry_path self repo_path days_back w -> files w' !! p = files w !! p)
  /\ (valid_entry self repo_path days_back w = None ->
      stuck_entry self repo_path days_back w = false ->
      files w' !! entry_path self repo_path days_back w = None)
  /\ (forall data, valid_entry self repo_path days_back w = Some data -> w' = w)
  /\ (stuck_entry self repo_path days_back w = true -> w' = w).
Proof.
  cbv zeta. rewrite get_run. cbv zeta. unfold stuck_entry, valid_entry, discard.
  destruct (files w !! entry_path self repo_path days_back w) as [f|] eqn:Hf;
    [destruct (age w f >? ttl self); [|destruct (body f)]|];
    try destruct (writable w) eqn:Hwr;
    simpl;
    refine (conj _ (conj _ (conj _ (conj _ (conj _ (conj _ (conj _ (conj _ _))))))));
    first [ reflexivity
          | discriminate
          | exact Hwr
          | intros p Hp; now apply lookup_delete_ne
          | intros _ _; apply lookup_delete_eq
          | intros _ _; exact Hf
          | intros _; discriminate
          | intros; reflexivity ].
Qed.

Lemma scan_with_caching_run (self : ToilCache) (detector : Config) (repo_path : string)
    (days_back : Z) (w : World) :
  scan_with_caching self detector repo_path days_back w
  = if stuck_entry self repo_path days_back w
    then (Raise (OSError "PermissionError"), w)
    else match valid_entry self repo_path days_back w with
         | Some data => (Ret data, w)
         | None =>
             (Ret (scan_events detector repo_path days_back true w),
              (set self repo_path days_back (scan_events detector repo_path days_back true w)
                   (logged repo_path days_back (get self repo_path days_back w).2)).2)
         end.
Proof.
  unfold scan_with_caching, bind at 1.
  pose proof (get_result self repo_path days_back w) as Hres.
  pose proof (get_world self repo_path days_back w) as Hw. cbv zeta in Hw.
  destruct (get self repo_path days_back w) as [r wg]. simpl in Hres, Hw. subst r.
  destruct Hw as (_ & _ & _ & Hlog & _ & _ & _ & Hsame & Hstuck).
  destruct (stuck_entry self repo_path days_back w).
  - now rewrite (Hstuck eq_refl).
  - destruct (valid_entry self repo_path days_back w) as [data|].
    + unfold ret. now rewrite (Hsame data eq_refl).
    + unfold bind at 1. rewrite scan_git_history_run. unfold bind at 1.
      assert (He : scan_events detector repo_path days_back true wg
                   = scan_events detector repo_path days_back true w)
        by (unfold scan_events; now rewrite Hlog).
      rewrite He. cbn [snd]. rewrite !set_run. reflexivity.
Qed.

(** The cached scan where the lookup does not raise. *)
Lemma scan_with_caching_world (self : ToilCache) (detector : Config) (repo_path : string)
    (days_back : Z) (w : World) :
  stuck_entry self repo_path days_back w = false ->
  exists w' : World,
    scan_with_caching self detector repo_path days_back w
    = (Ret (cached_or_scanned self detector days_back w repo_path), w')
    /\ scans w' = match valid_entry self repo_path days_back w with
                  | Some _ => scans w
                  | None => (repo_path, days_back) :: scans w
                  end
    /\ clock w' = clock w
    /\ writable w' = writable w
    /\ git_last_commit w' = git_last_commit w
    /\ git_log w' = git_log w
    /\ (forall p, p <> entry_path self repo_path days_back w ->
          files w' !! p = files w !! p).
Proof.
  intros Hfree. rewrite scan_with_caching_run, Hfree. unfold cached_or_scanned.
  pose proof (get_world self repo_path days_back w) as Hw. cbv zeta in Hw.
  destruct Hw as (Hclock & Hwr & Hgit & Hlog & Hscans & Hframe & _ & _ & _).
  destruct (valid_entry self repo_path days_back w) as [data|].
  - exists w. repeat split; auto.
  - eexists. split; [reflexivity|]. rewrite set_run. simpl.
    destruct (writable (get self repo_path days_back w).2) eqn:Hwg; simpl;
      rewrite ?Hscans, ?Hclock, ?Hgit, ?Hlog; repeat split; auto; try congruence.
    intros p Hp. rewrite lookup_insert_ne; [now apply Hframe|].
    unfold entry_path, fingerprint. simpl. rewrite Hgit. exact (not_eq_sym Hp).
Qed.


(** X7.  A cache that cannot be written does not fail the scan of a
    repository that has no file under its key: the events just computed
    are returned, nothing is stored under the key, and the next call finds
    no entry either. *)
Theorem write_failure_tolerated (self : ToilCache) (detector : Config)
    (repo_path : string) (days_back : Z) (w : World) :
  writable w = false ->
  files w !! entry_path self repo_path days_back w = None ->
  exists w' : World,
    scan_with_caching self detector repo_path days_back w
    = (Ret (scan_events detector repo_path days_back true w), w')
    /\ files w' !! entry_path self repo_path days_back w = None
    /\ files w' !! entry_path self repo_path days_back w' = None
    /\ valid_entry self repo_path days_back w' = None.
Proof.
  intros Hwr Habsent. destruct (not_stuck_absent _ _ _ _ Habsent) as [Hfree Hnone].
  rewrite scan_with_caching_run, Hfree, Hnone.
  pose proof (get_world self repo_path days_back w) as Hw. cbv zeta in Hw.
  destruct Hw as (_ & Hwr' & Hgit & _ & _ & _ & Hgone & _ & _).
  eexists. split; [reflexivity|]. rewrite set_run. simpl. rewrite Hwr', Hwr. simpl.
  assert (Hpath : forall fs sc,
             entry_path self repo_path days_back
               {| clock := clock (get self repo_path days_back w).2; files := fs;
                  writable := writable (get self repo_path days_back w).2;
                  git_last_commit := git_last_commit (get self repo_path days_back w).2;
                  git_log := git_log (get self repo_path days_back w).2; scans := sc |}
             = entry_path self repo_path days_back w).
  { intros fs sc. unfold entry_path, fingerprint. simpl. now rewrite Hgit. }
  split; [now apply Hgone|]. unfold valid_entry, logged. rewrite Hpath. simpl.
  rewrite (Hgone Hnone Hfree). split; reflexivity.
Qed.


(** X9.  Invalidation by fingerprint.  After a scan has been stored, a
    commit that moves the fingerprint to a key with another digest, under
    which nothing is stored, makes the next [scan_with_caching] scan again
    and return the fresh result; the entry written under the old
    fingerprint is not removed and stays in the store as it was. *)
Theorem fingerprint_change_rescans (self : ToilCache) (detector : Config)
    (repo_path : string) (days_back : Z) (w : World) (fp' : string) :
  let w1 := (scan_with_caching self detector repo_path days_back w).2 in
  let w2 := with_fingerprint repo_path fp' w1 in
  let old_path := entry_path self repo_path days_back w in
  valid_entry self repo_path days_back w = None ->
  writable w = true ->
  entry_path self repo_path days_back w2 <> old_path ->
  files w !! entry_path self repo_path days_back w2 = None ->
  exists w3 : World,
    scan_with_caching self detector repo_path days_back w2
    = (Ret (scan_events detector repo_path days_back true w2), w3)
    /\ scans w3 = (repo_path, days_back) :: (repo_path, days_back) :: scans w
    /\ files w3 !! old_path
       = Some {| st_mtime := clock w;
                 body := JsonOf (scan_events detector repo_path days_back true w) |}.
Proof.
  intros w1 w2 old_path Hnone Hwr Hne Hfree.
  pose proof (get_world self repo_path days_back w) as Hw. cbv zeta in Hw.
  destruct Hw as (Hclock & Hwr' & Hgit & Hlog & Hscans & Hframe & _ & _ & _).
  set (new_path := entry_path self repo_path days_back w2) in *.
  assert (Hw1 : w1 = (set self repo_path days_back
                        (scan_events detector repo_path days_back true w)
                        (logged repo_path days_back (get self repo_path days_back w).2)).2).
  { unfold w1. now rewrite scan_with_caching_run, (not_stuck_writable _ _ _ _ Hwr), Hnone. }
  rewrite set_run in Hw1. simpl in Hw1. rewrite Hwr', Hwr in Hw1.
  assert (Hold : entry_path self repo_path days_back
                   (logged repo_path days_back (get self repo_path days_back w).2)
                 = old_path).
  { unfold old_path, entry_path, fingerprint. simpl. now rewrite Hgit. }
  rewrite Hold, Hclock in Hw1.
  assert (Hfiles1 : files w1 !! old_path
                    = Some {| st_mtime := clock w;
                              body := JsonOf (scan_events detector repo_path days_back
                                                true w) |}).
  { rewrite Hw1. simpl. apply lookup_insert_eq. }
  assert (Hnew1 : files w1 !! new_path = None).
  { rewrite Hw1. simpl. rewrite lookup_insert_ne by exact (not_eq_sym Hne).
    rewrite Hframe by exact Hne. exact Hfree. }
  assert (Habsent2 : files w2 !! entry_path self repo_path days_back w2 = None).
  { fold new_path. change (files w2) with (files w1). exact Hnew1. }
  destruct (not_stuck_absent _ _ _ _ Habsent2) as [Hfree2 Hvalid2].
  destruct (scan_with_caching_world self detector repo_path days_back w2 Hfree2)
    as (w3 & Hrun & Hsc & _ & _ & _ & _ & Hfr).
  exists w3. unfold cached_or_scanned in Hrun. rewrite Hvalid2 in Hrun, Hsc.
  split; [exact Hrun|]. split.
  - rewrite Hsc. change (scans w2) with (scans w1). rewrite Hw1. simpl. now rewrite Hscans.
  - rewrite Hfr by (fold new_path; exact (not_eq_sym Hne)). exact Hfiles1.
Qed.

End CacheMore.

Section CacheKeys.
Context `{PyLib}.

(** X10.  A miss refreshes the entry: when no valid entry is stored (none
    at all, one older than the TTL, or one that does not parse) and the
    storage is writable, [scan_with_caching] leaves under the key a file
    written now that holds the events it returns; with a TTL that is not
    negative this entry is valid at once. *)
Theorem miss_refreshes_entry (self : ToilCache) (detector : Config)
    (repo_path : string) (days_back : Z) (w : World) :
  valid_entry self repo_path days_back w = None ->
  writable w = true ->
  let w' := (scan_with_caching self detector repo_path days_back w).2 in
  files w' !! entry_path self repo_path days_back w
  = Some {| st_mtime := clock w;
            body := JsonOf (scan_events detector repo_path days_back true w) |}
  /\ (0 <= ttl self ->
      valid_entry self repo_path days_back w'
      = Some (scan_events detector repo_path days_back true w)).
Proof.
  intros Hnone Hwr. cbv zeta.
  rewrite scan_with_caching_run, (not_stuck_writable _ _ _ _ Hwr), Hnone.
  pose proof (get_world self repo_path days_back w) as Hw. cbv zeta in Hw.
  destruct Hw as (Hclock & Hwr' & Hgit & _ & _ & _ & _ & _ & _).
  rewrite set_run. cbn [snd].
  assert (Hpath : entry_path self repo_path days_back
                    (logged repo_path days_back (get self repo_path days_back w).2)
                  = entry_path self repo_path days_back w)
    by (unfold entry_path, fingerprint; simpl; now rewrite Hgit).
  replace (writable (logged repo_path days_back (get self repo_path days_back w).2))
    with true by (simpl; now rewrite Hwr', Hwr).
  rewrite Hpath. simpl. rewrite Hclock. split; [apply lookup_insert_eq|].
  intros Httl. unfold valid_entry, entry_path at 1, fingerprint. simpl. rewrite Hgit.
  fold (fingerprint w repo_path). fold (entry_path self repo_path days_back w).
  rewrite lookup_insert_eq. unfold age. simpl. rewrite Hclock, Z.sub_diag.
  destruct (0 >? ttl self) eqn:Hgt; [|reflexivity].
  apply Z.gtb_lt in Hgt. lia.
Qed.

End CacheKeys.

(** ** Cache keys *)

Lemma pretty_N_go_colon_free (x : N) (s : string) :
  colon_free s -> colon_free (pretty_N_go x s).
Proof.
  revert s. induction (N.lt_wf_0 x) as [x _ IH]; intros s Hs.
  destruct (decide (x = 0)%N) as [->|Hx].
  - now rewrite pretty_N_go_0.
  - rewrite pretty_N_go_step by lia. apply IH.
    + apply N.div_lt; lia.
    + unfold colon_free. simpl. intros [Hc|Hin]; [|now apply Hs].
      unfold pretty_N_char in Hc. repeat case_match; discriminate.
Qed.

Lemma pretty_Z_colon_free (z : Z) : colon_free (pretty z).
Proof.
  assert (Hnil : colon_free "") by (intros []).
  assert (HN : forall n : N, colon_free (pretty n)).
  { intros n. unfold pretty, pretty_N. case_decide.
    - intros [Hc|[]]. discriminate.
    - now apply pretty_N_go_colon_free. }
  destruct z as [|p|p]; unfold pretty, pretty_Z.
  - intros [Hc|[]]. discriminate.
  - apply (HN (N.pos p)).
  - unfold colon_free. simpl. intros [Hc|Hin]; [discriminate|]. now apply (HN (N.pos p)).
Qed.

Lemma split_at_colon (a b x y : string) :
  colon_free a -> colon_free b ->
  a ++ ":" ++ x = b ++ ":" ++ y -> a = b /\ x = y.
Proof.
  revert b. induction a as [|c a IH]; intros [|d b] Ha Hb Heq.
  - change (String ":" x = String ":" y) in Heq. injection Heq as ->. auto.
  - change (String ":" x = String d (b ++ ":" ++ y)) in Heq.
    injection Heq as <- _. exfalso. apply Hb. now left.
  - change (String c (a ++ ":" ++ x) = String ":" y) in Heq.
    injection Heq as -> _. exfalso. apply Ha. now left.
  - change (String c (a ++ ":" ++ x) = String d (b ++ ":" ++ y)) in Heq.
    injection Heq as -> Heq. destruct (IH b) as [-> ->]; auto.
    + intros Hin. apply Ha. now right.
    + intros Hin. apply Hb. now right.
Qed.

Lemma append_inv_head (p a b : string) : p ++ a = p ++ b -> a = b.
Proof.
  induction p as [|c p IH]; [auto|].
  change (String c (p ++ a) = String c (p ++ b) -> a = b). intros [= Heq]. auto.
Qed.

Lemma append_length (a b : string) :
  String.length (a ++ b) = (String.length a + String.length b)%nat.
Proof.
  induction a as [|c a IH]; [reflexivity|].
  change (S (String.length (a ++ b)) = S (String.length a + String.length b)).
  now rewrite IH.
Qed.

Lemma append_inv_tail (a b s : string) : a ++ s = b ++ s -> a = b.
Proof.
  revert b. induction a as [|c a IH]; intros [|d b] Heq.
  - reflexivity.
  - apply (f_equal String.length) in Heq. rewrite (append_length (String d b)) in Heq.
    change ("" ++ s) with s in Heq. simpl in Heq. lia.
  - apply (f_equal String.length) in Heq. rewrite (append_length (String c a)) in Heq.
    change ("" ++ s) with s in Heq. simpl in Heq. lia.
  - change (String c (a ++ s) = String d (b ++ s)) in Heq.
    injection Heq as -> Heq. f_equal. now apply IH.
Qed.

(** X11.  For one repository path the key text determines the window and
    the fingerprint: two windows, or two fingerprints, never give the same
    text.  And the name of the cache file determines the digest of the
    key: entries share a file only if their digests are equal. *)
Theorem cache_key_separates :
  (forall (resolved_path : string) (d d' : Z) (fp fp' : string),
     key_data resolved_path d fp = key_data resolved_path d' fp' -> d = d' /\ fp = fp')
  /\ (forall (self : ToilCache) (key key' : string),
        cache_file_of self key = cache_file_of self key' -> key = key').
Proof.
  split.
  - intros p d d' fp fp' Heq. unfold key_data in Heq.
    apply append_inv_head in Heq. apply append_inv_head in Heq.
    apply split_at_colon in Heq as [Hd ->]; try apply pretty_Z_colon_free.
    split; [|reflexivity]. now apply (inj pretty).
  - intros self key key' Heq. unfold cache_file_of in Heq.
    apply append_inv_head in Heq. apply append_inv_head in Heq.
    now apply append_inv_tail in Heq.
Qed.

(** ** Clearing the cache *)

Lemma strip_prefix_app (p s : string) : strip_prefix p (p ++ s) = Some s.
Proof.
  induction p as [|c p IH]; simpl; [reflexivity|]. now rewrite Ascii.eqb_refl.
Qed.

Lemma ends_with_app (a suffix : string) : ends_with suffix (a ++ suffix) = true.
Proof.
  induction a as [|c a IH].
  - change ("" ++ suffix) with suffix.
    destruct suffix; unfold ends_with; fold ends_with; now rewrite String.eqb_refl.
  - change (String c a ++ suffix) with (String c (a ++ suffix)).
    unfold ends_with; fold ends_with. rewrite IH. apply orb_true_r.
Qed.

Lemma append_assoc (a b c : string) : (a ++ b) ++ c = a ++ b ++ c.
Proof.
  induction a as [|d a IH]; [reflexivity|].
  change (String d ((a ++ b) ++ c) = String d (a ++ b ++ c)). now rewrite IH.
Qed.

Lemma has_char_app (c : ascii) (a b : string) :
  has_char c (a ++ b) = has_char c a || has_char c b.
Proof.
  unfold has_char. induction a as [|d a IH]; simpl; [reflexivity|].
  now rewrite IH, orb_assoc.
Qed.

Lemma set_files_same (w : World) : set_files (files w) w = w.
Proof. destruct w; reflexivity. Qed.

(** The loop of [clear]: on storage that lets files be removed every file
    listed goes, otherwise every removal fails and nothing changes. *)
Lemma unlink_each_run (cache_files : list string) (w : World) :
  unlink_each cache_files w
  = (Ret tt,
     if writable w
     then set_files (foldl (fun fs cache_file => delete cache_file fs) (files w) cache_files) w
     else w).
Proof.
  revert w. induction cache_files as [|p ps IH]; intros w.
  - simpl. unfold ret. rewrite set_files_same. now destruct (writable w).
  - cbn [unlink_each foldl]. unfold bind at 1, try_except, unlink.
    destruct (files w !! p) as [f|] eqn:Hf.
    + destruct (writable w) eqn:Hwr.
      * rewrite IH. cbn [writable set_files files]. now rewrite Hwr.
      * unfold ret. rewrite IH. now rewrite Hwr.
    + unfold ret. rewrite IH. now rewrite (delete_id _ _ Hf).
Qed.

Lemma foldl_delete_lookup (l : list string) (m : gmap string CacheFile) (k : string) :
  foldl (fun fs cache_file => delete cache_file fs) m l !! k
  = if decide (k ∈ l) then None else m !! k.
Proof.
  revert m. induction l as [|p l IH]; intros m; cbn [foldl].
  - rewrite decide_False; [reflexivity | intros Hin; inversion Hin].
  - rewrite IH. destruct (decide (k ∈ l)) as [Hl|Hl].
    + rewrite decide_True by now right. reflexivity.
    + destruct (decide (k = p)) as [->|Hne].
      * rewrite decide_True by left. apply lookup_delete_eq.
      * rewrite decide_False.
        -- now apply lookup_delete_ne.
        -- intros Hin. apply elem_of_cons in Hin as [?|?]; contradiction.
Qed.

Lemma glob_json_elem (dir path : string) (w : World) :
  path ∈ List.filter (globbed_json dir) (map fst (map_to_list (files w)))
  <-> globbed_json dir path = true /\ is_Some (files w !! path).
Proof.
  rewrite list_elem_of_In, filter_In, <- list_elem_of_In, list_elem_of_fmap. split.
  - intros [([k f] & -> & Hin) Hglob]. split; [exact Hglob|].
    apply elem_of_map_to_list in Hin. simpl. eauto.
  - intros [Hglob [f Hf]]. split; [|exact Hglob].
    exists (path, f). split; [reflexivity|]. now apply elem_of_map_to_list.
Qed.

Lemma clear_run (self : ToilCache) (w : World) :
  exists fs : gmap string CacheFile,
    clear self w = (Ret tt, if writable w then set_files fs w else w)
    /\ (forall path : string,
          fs !! path = if globbed_json (cache_dir self) path then None else files w !! path).
Proof.
  eexists. split.
  - unfold clear, bind, glob_json. apply unlink_each_run.
  - intros path. rewrite foldl_delete_lookup.
    destruct (decide (path ∈ _)) as [Hin|Hnot].
    + apply glob_json_elem in Hin as [-> _]. reflexivity.
    + destruct (globbed_json (cache_dir self) path) eqn:Hglob; [|reflexivity].
      destruct (files w !! path) as [f|] eqn:Hf; [|reflexivity].
      exfalso. apply Hnot. apply glob_json_elem. eauto.
Qed.

Section ClearFacts.
Context `{PyLib}.

(** X12.  [clear] never raises.  On storage that lets files be removed it
    removes exactly the files that lie directly in the cache directory and
    whose names end in [.json], so that, the digest of a key having no [/]
    in it, every lookup after it is a miss.  On storage that does not,
    every removal fails, the failures are passed over and the store is
    left as it was.  Either way no other file is touched. *)
Theorem clear_empties_cache (self : ToilCache) (w : World) :
  (exists w' : World, clear self w = (Ret tt, w'))
  /\ (writable w = false -> clear self w = (Ret tt, w))
  /\ (writable w = true ->
      (forall path : string,
         globbed_json (cache_dir self) path = true ->
         files (clear self w).2 !! path = None)
      /\ (forall (repo_path : string) (days_back : Z),
            has_char "/" (md5_hexdigest (key_data (path_resolve repo_path) days_back
                                                  (fingerprint w repo_path))) = false ->
            get self repo_path days_back (clear self w).2
            = (Ret None, (clear self w).2)))
  /\ (forall path : string,
        globbed_json (cache_dir self) path = false ->
        files (clear self w).2 !! path = files w !! path).
Proof.
  destruct (clear_run self w) as (fs & Hrun & Hfs). rewrite Hrun.
  split; [eauto|]. split; [intros ->; reflexivity|]. split.
  - intros Hwr. rewrite Hwr. cbn [snd].
    assert (Hgone : forall path, globbed_json (cache_dir self) path = true ->
                      files (set_files fs w) !! path = None).
    { intros path Hglob. cbn [files set_files]. now rewrite Hfs, Hglob. }
    split; [exact Hgone|].
    intros repo_path days_back Hfree. rewrite get_run. cbv zeta.
    replace (entry_path self repo_path days_back (set_files fs w))
      with (entry_path self repo_path days_back w) by reflexivity.
    rewrite Hgone; [reflexivity|].
    unfold globbed_json, entry_path, cache_file_of.
    replace (cache_dir self ++ "/" ++
             md5_hexdigest (key_data (path_resolve repo_path) days_back
                                     (fingerprint w repo_path)) ++ ".json")
      with ((cache_dir self ++ "/") ++
            md5_hexdigest (key_data (path_resolve repo_path) days_back
                                    (fingerprint w repo_path)) ++ ".json").
    + rewrite strip_prefix_app, has_char_app, Hfree, ends_with_app. reflexivity.
    + apply append_assoc.
  - intros path Hglob. destruct (writable w); cbn [snd]; [|reflexivity].
    cbn [files set_files]. now rewrite Hfs, Hglob.
Qed.

End ClearFacts.

(** ** Batches *)

Section Batches.
Context {A : Type}.

Lemma slice_chunk (l : list A) (i b : nat) :
  (0 < b)%nat -> (i * b <= length l)%nat ->
  slice l (Z.of_nat (i * b)) (Z.of_nat (i * b) + Z.of_nat b) = take b (drop (i * b) l).
Proof.
  intros Hb Hi. unfold slice, slice_bound.
  destruct (Z.of_nat (i * b) <? 0) eqn:Hlo; [apply Z.ltb_lt in Hlo; lia|].
  destruct (Z.of_nat (i * b) + Z.of_nat b <? 0) eqn:Hhi; [apply Z.ltb_lt in Hhi; lia|].
  rewrite (Z.min_l (Z.of_nat (i * b))) by lia. rewrite Nat2Z.id.
  destruct (decide (i * b + b <= length l)%nat) as [Hfull|Hshort].
  - rewrite Z.min_l by lia. f_equal. lia.
  - rewrite Z.min_r by lia.
    rewrite !take_ge; [reflexivity | rewrite length_drop; lia | rewrite length_drop; lia].
Qed.

Lemma chunks_concat (b m : nat) (l : list A) :
  (length l <= m * b)%nat ->
  concat (map (fun i => take b (drop (i * b) l)) (seq 0 m)) = l.
Proof.
  revert l. induction m as [|m IH]; intros l Hlen.
  - simpl in *. destruct l; [reflexivity | simpl in Hlen; lia].
  - simpl seq. rewrite <- seq_shift, map_cons, map_map. simpl concat.
    rewrite (map_ext _ (fun i => take b (drop (i * b) (drop b l)))).
    + rewrite IH by (rewrite length_drop; lia). simpl. apply take_drop.
    + intros i. rewrite drop_drop. do 2 f_equal; lia.
Qed.

(** The batches for a positive size, as a list of chunks. *)
Lemma batches_run (l : list A) (b : Z) :
  0 < b ->
  exists m : nat,
    batch_process_commits l b
    = Ret (map (fun i => take (Z.to_nat b) (drop (i * Z.to_nat b) l)) (seq 0 m))
    /\ (length l <= m * Z.to_nat b)%nat
    /\ (m = 0%nat \/ ((m - 1) * Z.to_nat b < length l)%nat)
    /\ Z.of_nat m = (Z.of_nat (length l) + b - 1) / b.
Proof.
  intros Hb. unfold batch_process_commits, py_range.
  destruct (b =? 0) eqn:Hz; [apply Z.eqb_eq in Hz; lia|].
  destruct (0 <? b) eqn:Hpos; [|apply Z.ltb_ge in Hpos; lia].
  set (n := Z.of_nat (length l)).
  set (B := Z.to_nat b). assert (HB : Z.of_nat B = b) by (unfold B; lia).
  destruct (0 <? n) eqn:Hn.
  - apply Z.ltb_lt in Hn.
    replace (n - 0 - 1) with (n - 1) by lia.
    set (q := (n - 1) / b).
    assert (Hq : 0 <= q) by (apply Z.div_pos; lia).
    assert (Hlow : q * b <= n - 1) by (unfold q; rewrite Z.mul_comm; apply Z.mul_div_le; lia).
    assert (Hhigh : n - 1 < (q + 1) * b).
    { unfold q. rewrite Z.mul_comm. apply Z.mul_succ_div_gt. lia. }
    exists (Z.to_nat (q + 1)). simpl. split; [|split; [|split]].
    + f_equal. rewrite map_map. apply map_ext_in. intros i Hi.
      apply in_seq in Hi.
      replace (0 + Z.of_nat i * b) with (Z.of_nat (i * B)) by lia.
      replace (Z.of_nat (i * B) + b) with (Z.of_nat (i * B) + Z.of_nat B) by lia.
      apply slice_chunk; [lia|]. nia.
    + nia.
    + right. nia.
    + rewrite Z2Nat.id by lia. unfold q.
      replace (n + b - 1) with (n - 1 + 1 * b) by lia.
      rewrite Z.div_add by lia. reflexivity.
  - apply Z.ltb_ge in Hn. exists 0%nat. simpl.
    assert (Hzero : n = 0) by lia. split; [reflexivity|]. split; [lia|]. split; [now left|].
    rewrite Hzero. simpl. symmetry. apply Z.div_small. lia.
Qed.

(** X13.  For a positive batch size the batches partition the commits, in
    order: their concatenation is the list given; no batch is empty; every
    batch but the last has exactly [batch_size] elements and the last has
    at most that many; and there are [ceil(len / batch_size)] of them. *)
Theorem batches_partition (commits : list A) (batch_size : Z) :
  0 < batch_size ->
  exists batches : list (list A),
    batch_process_commits commits batch_size = Ret batches
    /\ concat batches = commits
    /\ (forall (i : nat) (batch : list A), batches !! i = Some batch ->
          (0 < length batch)%nat /\ Z.of_nat (length batch) <= batch_size
          /\ ((S i < length batches)%nat -> Z.of_nat (length batch) = batch_size))
    /\ Z.of_nat (length batches)
       = (Z.of_nat (length commits) + batch_size - 1) / batch_size.
Proof.
  intros Hb. destruct (batches_run commits batch_size Hb) as (m & Hrun & Hcover & Hlast & Hm).
  eexists. split; [exact Hrun|]. split; [now apply chunks_concat|]. split.
  - intros i batch Hlook. rewrite list_lookup_fmap in Hlook.
    destruct (seq 0 m !! i) as [j|] eqn:Hj; [|discriminate].
    apply lookup_seq in Hj as [-> Hi]. simpl in Hlook. injection Hlook as <-.
    rewrite length_map, length_seq, length_take, length_drop.
    destruct Hlast as [->|Hlast]; [lia|]. split; [|split].
    + assert (i * Z.to_nat batch_size <= (m - 1) * Z.to_nat batch_size)%nat by nia. lia.
    + lia.
    + intros Hnext.
      assert ((i + 1) * Z.to_nat batch_size <= (m - 1) * Z.to_nat batch_size)%nat by nia.
      lia.
  - now rewrite length_map, length_seq.
Qed.

(** X14.  A batch size that is not positive gives no batches: zero makes
    [range] raise [ValueError], and a negative size returns the empty list
    of batches, whatever the commits. *)
Theorem batches_nonpositive (commits : list A) (batch_size : Z) :
  (batch_size = 0 ->
   batch_process_commits commits batch_size
   = Raise (ValueError "range() arg 3 must not be zero"))
  /\ (batch_size < 0 -> batch_process_commits commits batch_size = Ret []).
Proof.
  unfold batch_process_commits, py_range. split.
  - intros ->. reflexivity.
  - intros Hneg. destruct (batch_size =? 0) eqn:Hz; [apply Z.eqb_eq in Hz; lia|].
    destruct (0 <? batch_size) eqn:Hpos; [apply Z.ltb_lt in Hpos; lia|].
    destruct (Z.of_nat (length commits) <? 0) eqn:Hlen; [apply Z.ltb_lt in Hlen; lia|].
    reflexivity.
Qed.

End Batches.

(** ** Parsing the output of git *)

Lemma has_char_cons (c d : ascii) (s : string) :
  has_char c (String d s) = Ascii.eqb c d || has_char c s.
Proof. reflexivity. Qed.

Lemma split_max_cons (sep : ascii) (k : nat) (c : ascii) (s : string) :
  split_max sep (S k) (String c s)
  = if Ascii.eqb c sep then EmptyString :: split_max sep k s
    else match split_max sep (S k) s with
         | part :: parts => String c part :: parts
         | [] => [String c EmptyString]
         end.
Proof. reflexivity. Qed.

Lemma split_max_sep_free (sep : ascii) (k : nat) (x rest : string) :
  has_char sep x = false ->
  split_max sep (S k) (x ++ String sep rest) = x :: split_max sep k rest.
Proof.
  induction x as [|c x IH]; intros Hfree.
  - change ("" ++ String sep rest) with (String sep rest).
    now rewrite split_max_cons, Ascii.eqb_refl.
  - change (String c x ++ String sep rest) with (String c (x ++ String sep rest)).
    rewrite has_char_cons in Hfree. apply orb_false_iff in Hfree as [Hc Hx].
    rewrite split_max_cons, Ascii.eqb_sym, Hc. now rewrite (IH Hx).
Qed.

Lemma split_max_first (sep : ascii) (k : nat) (s p : string) (ps : list string) :
  split_max sep (S k) s = p :: ps ->
  has_char sep p = false /\ (ps = [] \/ exists rest, ps = split_max sep k rest).
Proof.
  revert p ps. induction s as [|c s IH]; intros p ps.
  - intros [= <- <-]. split; [reflexivity | now left].
  - rewrite split_max_cons. destruct (Ascii.eqb c sep) eqn:Hc.
    + intros [= <- <-]. split; [reflexivity | right; eauto].
    + destruct (split_max sep (S k) s) as [|part parts] eqn:Hgo.
      * intros [= <- <-]. split; [|now left].
        rewrite has_char_cons, Ascii.eqb_sym, Hc. reflexivity.
      * intros [= <- <-]. destruct (IH part parts eq_refl) as [Hpart Hrest].
        split; [|exact Hrest]. rewrite has_char_cons, Ascii.eqb_sym, Hc. exact Hpart.
Qed.

Lemma header_line_split (c : Commit) :
  bar_free (c_hash c) -> bar_free (c_message c) -> bar_free (c_date c) ->
  split_max "|" 3 (header_line c) = [c_hash c; c_message c; c_date c; c_author c].
Proof.
  intros Hh Hm Hd. unfold header_line.
  change ("|" ++ c_message c ++ "|" ++ c_date c ++ "|" ++ c_author c)
    with (String "|" (c_message c ++ String "|" (c_date c ++ String "|" (c_author c)))).
  now rewrite !split_max_sep_free.
Qed.

Lemma header_line_bar (c : Commit) : has_char "|" (header_line c) = true.
Proof.
  unfold header_line. rewrite has_char_app.
  change ("|" ++ c_message c ++ "|" ++ c_date c ++ "|" ++ c_author c)
    with (String "|" (c_message c ++ "|" ++ c_date c ++ "|" ++ c_author c)).
  rewrite has_char_cons. simpl. apply orb_true_r.
Qed.

Lemma has_char_In (c : ascii) (s : string) :
  has_char c s = true <-> In c (list_ascii_of_string s).
Proof.
  unfold has_char. rewrite existsb_exists. split.
  - intros (d & Hin & Heq). apply Ascii.eqb_eq in Heq. now subst.
  - intros Hin. exists c. split; [exact Hin | apply Ascii.eqb_refl].
Qed.

Lemma lstrip_keeps (c : ascii) (s : string) :
  py_isspace c = false -> has_char c s = true -> has_char c (lstrip s) = true.
Proof.
  intros Hc. induction s as [|d s IH]; simpl; [auto|].
  destruct (py_isspace d) eqn:Hd; [|auto].
  rewrite has_char_cons. destruct (Ascii.eqb_spec c d) as [->|_]; [congruence|]. exact IH.
Qed.

Lemma rstrip_keeps (c : ascii) (s : string) :
  py_isspace c = false -> has_char c s = true -> has_char c (rstrip s) = true.
Proof.
  intros Hc. induction s as [|d s IH]; [auto|].
  rewrite has_char_cons. simpl. intros Hin.
  destruct (Ascii.eqb_spec c d) as [<-|Hne].
  - destruct (rstrip s); [rewrite Hc|]; rewrite has_char_cons, Ascii.eqb_refl; reflexivity.
  - simpl in Hin. specialize (IH Hin). destruct (rstrip s) as [|e r]; [discriminate|].
    rewrite has_char_cons. rewrite IH. apply orb_true_r.
Qed.

Lemma lstrip_sub (c : ascii) (s : string) :
  has_char c (lstrip s) = true -> has_char c s = true.
Proof.
  induction s as [|d s IH]; simpl; [auto|].
  destruct (py_isspace d); [|auto].
  intros Hin. rewrite has_char_cons, (IH Hin). apply orb_true_r.
Qed.

Lemma rstrip_sub (c : ascii) (s : string) :
  has_char c (rstrip s) = true -> has_char c s = true.
Proof.
  induction s as [|d s IH]; simpl; [auto|].
  destruct (rstrip s) as [|e r].
  - destruct (py_isspace d); [discriminate|].
    rewrite !has_char_cons. intros Hin. apply orb_true_iff in Hin as [->|Hin];
      [reflexivity | discriminate].
  - rewrite !(has_char_cons c d). intros Hin. apply orb_true_iff in Hin as [->|Hin];
      [reflexivity|]. rewrite (IH Hin). apply orb_true_r.
Qed.

Lemma strip_bar_free (line : string) : bar_free line -> bar_free (strip line).
Proof.
  unfold bar_free, strip. intros Hfree. apply not_true_iff_false. intros Hin.
  apply lstrip_sub, rstrip_sub in Hin. congruence.
Qed.

Lemma strip_nonblank (c : ascii) (s : string) :
  py_isspace c = false -> has_char c s = true -> strip s <> "".
Proof.
  intros Hc Hin Hempty. unfold strip in Hempty.
  pose proof (lstrip_keeps c _ Hc (rstrip_keeps c s Hc Hin)) as Hkept.
  rewrite Hempty in Hkept. discriminate.
Qed.

Lemma header_line_nonblank (c : Commit) : String.eqb (strip (header_line c)) "" = false.
Proof.
  apply String.eqb_neq. apply (strip_nonblank "|"); [reflexivity | apply header_line_bar].
Qed.

(** A header line opens its commit, whatever was open before. *)
Lemma parse_header (commits : list Commit) (current : option Commit) (c : Commit) :
  bar_free (c_hash c) -> bar_free (c_message c) -> bar_free (c_date c) ->
  parse_line (commits, current) (header_line c)
  = (commits, Some {| c_hash := c_hash c; c_message := c_message c; c_date := c_date c;
                      c_author := c_author c; c_files := [] |}).
Proof.
  intros Hh Hm Hd. unfold parse_line.
  now rewrite header_line_nonblank, header_line_bar, header_line_split.
Qed.

Lemma parse_files (commits : list Commit) (c : Commit) (fs rest : list string) :
  Forall file_line fs ->
  foldl parse_line (commits, Some c) (fs ++ rest)%list
  = foldl parse_line
      (commits, Some {| c_hash := c_hash c; c_message := c_message c; c_date := c_date c;
                        c_author := c_author c;
                        c_files := (c_files c ++ map strip fs)%list |}) rest.
Proof.
  revert c. induction fs as [|f fs IH]; intros c Hfs.
  - simpl. rewrite app_nil_r. now destruct c.
  - inversion Hfs as [|? ? [Hblank Hbar] Hfs']; subst. simpl.
    apply String.eqb_neq in Hblank. unfold bar_free in Hbar. rewrite Hblank, Hbar.
    rewrite IH by exact Hfs'. simpl. now rewrite <- app_assoc.
Qed.

Lemma parse_blank (commits : list Commit) (current : option Commit) :
  parse_line (commits, current) ""
  = (match current with Some c => (commits ++ [c])%list | None => commits end, None).
Proof. destruct current; reflexivity. Qed.

Lemma printable_files (c : Commit) :
  printable c -> Forall file_line (c_files c) /\ map strip (c_files c) = c_files c.
Proof.
  intros (_ & _ & _ & _ & _ & _ & _ & Hfiles).
  induction Hfiles as [|f fs (Hline & Hstrip & _) _ [IH1 IH2]]; simpl.
  - split; [constructor | reflexivity].
  - split; [now constructor | now rewrite Hstrip, IH2].
Qed.

Lemma foldl_step {S L : Type} (f : S -> L -> S) (a : S) (x : L) (l : list L) :
  foldl f a (x :: l) = foldl f (f a x) l.
Proof. reflexivity. Qed.

Lemma log_lines_cons (c : Commit) (commits : list Commit) :
  log_lines (c :: commits)
  = header_line c :: (c_files c ++ "" :: log_lines commits)%list.
Proof. unfold log_lines. simpl. now rewrite <- app_assoc. Qed.

Lemma parse_log_lines (commits acc : list Commit) (current : option Commit)
    (rest : list string) :
  Forall printable commits -> commits <> [] ->
  foldl parse_line (acc, current) (log_lines commits ++ rest)%list
  = foldl parse_line ((acc ++ commits)%list, None) rest.
Proof.
  revert acc current.
  induction commits as [|c commits IH]; intros acc current Hall Hne; [congruence|].
  inversion Hall as [|? ? Hc Hall']; subst.
  pose proof Hc as (Hh & Hm & Hd & _).
  destruct (printable_files c Hc) as [Hlines Hstrip].
  rewrite log_lines_cons, <- app_comm_cons, foldl_step, parse_header by assumption.
  rewrite <- app_assoc, parse_files by exact Hlines.
  rewrite <- app_comm_cons, foldl_step, parse_blank.
  cbn [c_hash c_message c_date c_author c_files app]. rewrite Hstrip.
  replace {| c_hash := c_hash c; c_message := c_message c; c_date := c_date c;
             c_author := c_author c; c_files := c_files c |} with c by now destruct c.
  destruct commits as [|c' commits].
  - unfold log_lines. simpl. reflexivity.
  - rewrite (IH (acc ++ [c])%list None) by (auto; discriminate). now rewrite <- app_assoc.
Qed.

Lemma split_on_cons (sep c : ascii) (s : string) :
  Concrete.split_on sep (String c s)
  = if Ascii.eqb c sep then EmptyString :: Concrete.split_on sep s
    else match Concrete.split_on sep s with
         | part :: parts => String c part :: parts
         | [] => [String c EmptyString]
         end.
Proof. reflexivity. Qed.

Lemma split_on_append (line text : string) :
  newline_free line ->
  Concrete.split_on "010" (line ++ String "010" text)
  = line :: Concrete.split_on "010" text.
Proof.
  unfold newline_free. induction line as [|c line IH]; intros Hfree.
  - change ("" ++ String "010" text) with (String "010" text).
    now rewrite split_on_cons.
  - rewrite has_char_cons in Hfree. apply orb_false_iff in Hfree as [Hc Hline].
    change (String c line ++ String "010" text)
      with (String c (line ++ String "010" text)).
    rewrite split_on_cons, Ascii.eqb_sym, Hc. now rewrite (IH Hline).
Qed.

Lemma split_on_newline_free (line : string) :
  newline_free line -> Concrete.split_on "010" line = [line].
Proof.
  unfold newline_free. induction line as [|c line IH]; [reflexivity|].
  rewrite has_char_cons. intros Hfree. apply orb_false_iff in Hfree as [Hc Hline].
  rewrite split_on_cons, Ascii.eqb_sym, Hc. now rewrite IH.
Qed.

Lemma split_on_join (lines : list string) :
  Forall newline_free lines -> lines <> [] ->
  Concrete.split_on "010" (join_lines lines) = lines.
Proof.
  induction lines as [|line lines IH]; intros Hall Hne; [congruence|].
  inversion Hall as [|? ? Hline Hall']; subst.
  destruct lines as [|line' lines].
  - now apply split_on_newline_free.
  - change (join_lines (line :: line' :: lines))
      with (line ++ String "010" (join_lines (line' :: lines))).
    rewrite split_on_append by exact Hline.
    now rewrite IH by (auto; discriminate).
Qed.

Lemma header_line_newline_free (c : Commit) :
  newline_free (c_hash c) -> newline_free (c_message c) ->
  newline_free (c_date c) -> newline_free (c_author c) ->
  newline_free (header_line c).
Proof.
  unfold newline_free, header_line. intros Hh Hm Hd Ha.
  rewrite !has_char_app, Hh, Hm, Hd, Ha. reflexivity.
Qed.

Lemma log_lines_newline_free (commits : list Commit) :
  Forall printable commits -> Forall newline_free (log_lines commits).
Proof.
  unfold log_lines. induction 1 as [|c commits Hc _ IH]; simpl; [constructor|].
  destruct Hc as (_ & _ & _ & Hh & Hm & Hd & Ha & Hfiles).
  constructor; [now apply header_line_newline_free|].
  rewrite <- app_assoc. apply Forall_app. split.
  - eapply Forall_impl; [exact Hfiles|]. now intros f (_ & _ & Hf).
  - constructor; [reflexivity | exact IH].
Qed.

(** X15.  Round trip.  A log written in the format the parser is made for
    (for each commit the line [hash|subject|date|author], its changed
    files one per line and an empty line) parses back to the commits it
    was written from, in order, whenever the fields can be carried by the
    format: no line break in them, no [|] in hash, subject and date, and
    file paths that are not blank and have no [|] or outer white space. *)
Theorem parse_round_trip (commits : list Commit) :
  Forall printable commits ->
  _parse_git_output (join_lines (log_lines commits)) = commits.
Proof.
  intros Hall. unfold _parse_git_output.
  destruct commits as [|c commits]; [reflexivity|].
  rewrite split_on_join.
  - unfold parse_lines.
    rewrite <- (app_nil_r (log_lines (c :: commits))).
    rewrite parse_log_lines by (auto; discriminate). reflexivity.
  - now apply log_lines_newline_free.
  - unfold log_lines. simpl. discriminate.
Qed.

(** X16.  A commit is recorded only when an empty line or the end of the
    output follows its lines.  When the header line of another commit
    follows them directly, as for a commit that lists no files, the earlier
    commit is dropped: the output parses as if its lines were not there. *)
Theorem unterminated_commit_dropped (pre rest fs : list string) (c1 c2 : Commit) :
  bar_free (c_hash c1) -> bar_free (c_message c1) -> bar_free (c_date c1) ->
  bar_free (c_hash c2) -> bar_free (c_message c2) -> bar_free (c_date c2) ->
  Forall file_line fs ->
  Forall newline_free (pre ++ header_line c1 :: fs ++ header_line c2 :: rest)%list ->
  _parse_git_output
    (join_lines (pre ++ header_line c1 :: fs ++ header_line c2 :: rest)%list)
  = _parse_git_output (join_lines (pre ++ header_line c2 :: rest)%list).
Proof.
  intros Hh1 Hm1 Hd1 Hh2 Hm2 Hd2 Hfs Hnl. unfold _parse_git_output.
  rewrite !split_on_join.
  - unfold parse_lines. rewrite !foldl_app.
    destruct (foldl parse_line ([], None) pre) as [commits current].
    rewrite !foldl_step, !parse_header by assumption.
    rewrite parse_files by exact Hfs.
    now rewrite foldl_step, parse_header by assumption.
  - apply Forall_app in Hnl as [Hpre Hrest]. apply Forall_app. split; [exact Hpre|].
    inversion Hrest as [|? ? _ Hrest']; subst.
    apply Forall_app in Hrest' as [_ Hrest']. exact Hrest'.
  - destruct pre; discriminate.
  - exact Hnl.
  - destruct pre; discriminate.
Qed.

Lemma parse_line_shape (st : ParseState) (line : string) :
  Forall parsed_shape st.1 ->
  (forall c, st.2 = Some c -> parsed_shape c) ->
  Forall parsed_shape (parse_line st line).1
  /\ (forall c, (parse_line st line).2 = Some c -> parsed_shape c).
Proof.
  destruct st as [commits current]. cbn [fst snd]. intros Hcommits Hcurrent.
  unfold parse_line. destruct (String.eqb (strip line) "") eqn:Hblank.
  - destruct current as [c|]; cbn [fst snd]; split; try discriminate; auto.
    apply Forall_app. split; [exact Hcommits|]. constructor; [|constructor]. now apply Hcurrent.
  - destruct (has_char "|" line) eqn:Hbar.
    + destruct (split_max "|" 3 line) as [|p0 [|p1 [|p2 [|p3 [|p4 ps]]]]] eqn:Hsplit;
        cbn [fst snd]; try (split; [exact Hcommits | exact Hcurrent]).
      split; [exact Hcommits|]. intros c [= <-].
      apply split_max_first in Hsplit as [H0 [Hnil | [r1 Hr1]]]; [discriminate|].
      symmetry in Hr1. apply split_max_first in Hr1 as [H1 [Hnil | [r2 Hr2]]];
        [discriminate|].
      symmetry in Hr2. apply split_max_first in Hr2 as [H2 _].
      unfold parsed_shape, bar_free. cbn [c_hash c_message c_date c_files].
      refine (conj H0 (conj H1 (conj H2 _))). constructor.
    + destruct current as [c|]; cbn [fst snd]; split; try discriminate; auto.
      intros c' [= <-]. destruct (Hcurrent c eq_refl) as (Hh & Hm & Hd & Hfiles).
      unfold parsed_shape. cbn [c_hash c_message c_date c_files].
      refine (conj Hh (conj Hm (conj Hd _))).
      apply Forall_app. split; [exact Hfiles|]. constructor; [|constructor].
      split; [now apply String.eqb_neq | now apply strip_bar_free].
Qed.

(** X17.  Whatever the output, a parsed commit has no [|] in its hash,
    its message and its date, and its files are non-empty strings without
    [|]: the first three [|] of a header line always end the hash, the
    message and the date (a subject with a [|] in it is cut there), and a
    line with a [|] is never taken for a file. *)
Theorem parsed_commit_shape (output : string) :
  Forall parsed_shape (_parse_git_output output).
Proof.
  unfold _parse_git_output, parse_lines.
  assert (Hinv : forall lines st,
             Forall parsed_shape st.1 -> (forall c, st.2 = Some c -> parsed_shape c) ->
             Forall parsed_shape (foldl parse_line st lines).1
             /\ (forall c, (foldl parse_line st lines).2 = Some c -> parsed_shape c)).
  { induction lines as [|line lines IH]; intros st H1 H2; simpl; [auto|].
    destruct (parse_line_shape st line H1 H2) as [H1' H2']. now apply IH. }
  destruct (Hinv (Concrete.split_on "010" output) ([], None)) as [H1 H2];
    [constructor | discriminate |].
  destruct (foldl parse_line ([], None) (Concrete.split_on "010" output))
    as [commits [c|]]; simpl in *; [|exact H1].
  apply Forall_app. split; [exact H1|]. constructor; [|constructor]. now apply H2.
Qed.

(** X18.  Output without a header line gives no commit: blank lines are
    skipped, and a line that is not a header (fewer than three [|], or
    none at all) is ignored while no commit is open. *)
Theorem no_header_no_commit (lines : list string) :
  Forall newline_free lines -> lines <> [] ->
  Forall (fun line => length (split_max "|" 3 line) <> 4%nat) lines ->
  _parse_git_output (join_lines lines) = [].
Proof.
  intros Hnl Hne Hall. unfold _parse_git_output. rewrite split_on_join by assumption.
  unfold parse_lines.
  assert (Hfold : foldl parse_line ([], None) lines = ([], None)).
  { clear Hnl Hne. induction Hall as [|line lines Hline _ IH]; [reflexivity|].
    rewrite foldl_step.
    replace (parse_line ([], None) line) with (([], None) : ParseState); [exact IH|].
    unfold parse_line. destruct (String.eqb (strip line) ""); [reflexivity|].
    destruct (has_char "|" line); [|reflexivity].
    destruct (split_max "|" 3 line) as [|p0 [|p1 [|p2 [|p3 [|p4 ps]]]]];
      try reflexivity. now contradiction Hline. }
  now rewrite Hfold.
Qed.

(** ** Scans of a repository and of several *)

Section ScanMore.
Context `{PyLib}.

Lemma classify_commits_raise (cfg : Config) (include_file_analysis : bool)
    (repo_path : string) (commits : list Commit) (commit : Commit) (e : exn) :
  commit ∈ commits ->
  classify_commit cfg include_file_analysis repo_path commit = Raise e ->
  exists e', classify_commits cfg include_file_analysis repo_path commits = Raise e'.
Proof.
  intros Hin Hraise. induction commits as [|c commits IH]; [inversion Hin|].
  simpl. destruct (classify_commit cfg include_file_analysis repo_path c) as [ev|e0] eqn:Hc.
  - apply elem_of_cons in Hin as [<-|Hin]; [congruence|].
    destruct (IH Hin) as [e' ->]. simpl. eauto.
  - simpl. eauto.
Qed.

Lemma classify_commits_repo (cfg : Config) (include_file_analysis : bool)
    (repo_path : string) (commits : list Commit) (events : list Event) :
  classify_commits cfg include_file_analysis repo_path commits = Ret events ->
  Forall (fun ev => e_repo_path ev = repo_path) events
  /\ (length events <= length commits)%nat.
Proof.
  revert events. induction commits as [|c commits IH]; intros events; simpl.
  - intros [= <-]. split; [constructor | reflexivity].
  - unfold classify_commit at 1.
    destruct (final_type_of cfg include_file_analysis c) as [final|e]; simpl; [|discriminate].
    destruct (classify_commits cfg include_file_analysis repo_path commits) as [rest|e];
      [|destruct final; discriminate].
    destruct (IH rest eq_refl) as [Hall Hlen].
    destruct final as [final|]; simpl; intros [= <-].
    + split; [constructor; [reflexivity | exact Hall] | simpl; lia].
    + split; [exact Hall | lia].
Qed.

(** X19.  [scan_git_history] never raises and its only trace in the world
    is the record of the call.  When git fails it returns the empty list;
    when the classification of any one commit raises it returns the empty
    list too, the events of the other commits being lost with it.
    Otherwise it returns at most one event per commit, each carrying the
    resolved path of the repository. *)
Theorem scan_never_raises (cfg : Config) (repo_path : string) (days_back : Z)
    (include_file_analysis : bool) (w : World) :
  exists events : list Event,
    scan_git_history cfg repo_path days_back include_file_analysis w
    = (Ret events, logged repo_path days_back w)
    /\ ((exists e, git_log w (path_resolve repo_path) days_back = Raise e) -> events = [])
    /\ (forall (commits : list Commit) (commit : Commit) (e : exn),
          git_log w (path_resolve repo_path) days_back = Ret commits ->
          commit ∈ commits ->
          classify_commit cfg include_file_analysis (path_resolve repo_path) commit
          = Raise e ->
          events = [])
    /\ Forall (fun ev => e_repo_path ev = path_resolve repo_path) events
    /\ (forall commits : list Commit,
          git_log w (path_resolve repo_path) days_back = Ret commits ->
          (length events <= length commits)%nat).
Proof.
  exists (scan_events cfg repo_path days_back include_file_analysis w).
  split; [apply scan_git_history_run|]. unfold scan_events.
  destruct (git_log w (path_resolve repo_path) days_back) as [commits|e0].
  - destruct (classify_commits cfg include_file_analysis (path_resolve repo_path) commits)
      as [events|e1] eqn:Hrun.
    + destruct (classify_commits_repo _ _ _ _ _ Hrun) as [Hall Hlen].
      refine (conj _ (conj _ (conj Hall _))).
      * intros [e He]. discriminate.
      * intros commits' commit e [= <-] Hin Hraise.
        destruct (classify_commits_raise cfg include_file_analysis _ _ _ _ Hin Hraise)
          as [e' He']. congruence.
      * now intros commits' [= <-].
    + refine (conj _ (conj _ (conj _ _)));
        [intros; reflexivity | intros; reflexivity | constructor | intros; simpl; lia].
  - refine (conj _ (conj _ (conj _ _)));
      [intros; reflexivity | intros; reflexivity | constructor | intros; simpl; lia].
Qed.

Lemma scan_repo_run (cache : ToilCache) (detector : Config) (days_back : Z)
    (done : list string) (w wk : World) (repo : string) :
  agrees_off cache days_back done w wk ->
  (forall r, r ∈ done -> entry_path cache repo days_back w <> entry_path cache r days_back w) ->
  exists wk' : World,
    scan_repo cache detector days_back repo wk
    = (Ret (repo, task_events cache detector days_back w repo), wk')
    /\ agrees_off cache days_back (repo :: done) w wk'.
Proof.
  intros (Hclock & Hwr & Hgit & Hlog & Hfiles) Hfresh.
  assert (Hpath : entry_path cache repo days_back wk = entry_path cache repo days_back w)
    by (unfold entry_path, fingerprint; now rewrite Hgit).
  assert (Hvalid : valid_entry cache repo days_back wk = valid_entry cache repo days_back w).
  { unfold valid_entry, age. rewrite Hpath, Hclock. now rewrite (Hfiles _ Hfresh). }
  assert (Hstuck : stuck_entry cache repo days_back wk = stuck_entry cache repo days_back w).
  { unfold stuck_entry. rewrite Hvalid, Hpath, Hwr. now rewrite (Hfiles _ Hfresh). }
  assert (Hevents : scan_events detector repo days_back true wk
                    = scan_events detector repo days_back true w)
    by (unfold scan_events; now rewrite Hlog).
  unfold task_events.
  destruct (stuck_entry cache repo days_back w) eqn:Hw.
  - exists wk. split.
    + unfold scan_repo, try_except, bind. rewrite scan_with_caching_run, Hstuck. reflexivity.
    + refine (conj Hclock (conj Hwr (conj Hgit (conj Hlog _)))).
      intros p Hp. apply Hfiles. intros r Hr. apply Hp. now right.
  - destruct (scan_with_caching_world cache detector repo days_back wk Hstuck)
      as (wk' & Hrun & _ & Hclock' & Hwr' & Hgit' & Hlog' & Hframe).
    exists wk'. split.
    + unfold scan_repo, try_except, bind. rewrite Hrun. unfold ret, cached_or_scanned.
      now rewrite Hvalid, Hevents.
    + refine (conj _ (conj _ (conj _ (conj _ _)))); try congruence.
      intros p Hp. rewrite Hframe.
      * apply Hfiles. intros r Hr. apply Hp. now right.
      * rewrite Hpath. apply Hp. left.
Qed.

Lemma run_scan_repos_run (cache : ToilCache) (detector : Config) (days_back : Z)
    (finished done : list string) (w wk : World) :
  agrees_off cache days_back done w wk ->
  NoDup (finished ++ done) ->
  (forall r r', r ∈ (finished ++ done)%list -> r' ∈ (finished ++ done)%list -> r <> r' ->
     entry_path cache r days_back w <> entry_path cache r' days_back w) ->
  exists wk' : World,
    run_scan_repos cache detector days_back finished wk
    = (Ret (map (fun repo => (repo, task_events cache detector days_back w repo))
                finished), wk').
Proof.
  revert done wk. induction finished as [|repo finished IH]; intros done wk Hag Hnd Hdist.
  - exists wk. reflexivity.
  - simpl in Hnd. apply NoDup_cons in Hnd as [Hnotin Hnd].
    destruct (scan_repo_run cache detector days_back done w wk repo Hag)
      as (wk1 & Hrun1 & Hag1).
    { intros r Hr. apply Hdist.
      - left.
      - right. apply elem_of_app. now right.
      - intros ->. apply Hnotin. apply elem_of_app. now right. }
    destruct (IH (repo :: done) wk1 Hag1) as (wk' & Hrun).
    { apply NoDup_app. apply NoDup_app in Hnd as (Hf & Hfd & Hd).
      split; [exact Hf|]. split.
      - intros r Hr Hin. apply elem_of_cons in Hin as [->|Hin].
        + apply Hnotin. apply elem_of_app. now left.
        + now apply (Hfd r).
      - apply NoDup_cons. split; [|exact Hd].
        intros Hin. apply Hnotin. apply elem_of_app. now right. }
    { intros r r' Hr Hr'. apply Hdist.
      - apply elem_of_app in Hr as [Hr|Hr]; [right; apply elem_of_app; now left|].
        apply elem_of_cons in Hr as [->|Hr]; [left | right; apply elem_of_app; now right].
      - apply elem_of_app in Hr' as [Hr'|Hr']; [right; apply elem_of_app; now left|].
        apply elem_of_cons in Hr' as [->|Hr']; [left | right; apply elem_of_app; now right]. }
    exists wk'. simpl. unfold bind at 1. rewrite Hrun1. unfold bind at 1. rewrite Hrun.
    reflexivity.
Qed.

Lemma stored_events_lookup (f : string -> list Event) (l : list string)
    (m : gmap string (list Event)) (k : string) :
  foldl store_events m (map (fun repo => (repo, f repo)) l) !! k
  = if decide (k ∈ l) then Some (f k) else m !! k.
Proof.
  revert m. induction l as [|repo l IH]; intros m; simpl.
  - destruct (decide (k ∈ [])) as [Hin|_]; [inversion Hin | reflexivity].
  - rewrite IH. destruct (decide (k ∈ l)) as [Hl|Hl].
    + rewrite decide_True by now right. reflexivity.
    + destruct (decide (k = repo)) as [->|Hne].
      * rewrite decide_True by left. apply lookup_insert_eq.
      * rewrite decide_False.
        -- now apply lookup_insert_ne.
        -- intros Hin. apply elem_of_cons in Hin as [?|?]; contradiction.
Qed.

(** X20.  The parallel scan with caching.  With a pool of no worker
    ([max_workers] zero or negative) the call raises [ValueError] before
    any scan.  Otherwise, for distinct repository paths whose cache files
    are distinct, in whatever order the tasks finish,
    [parallel_scan_multiple_repos] returns a mapping with exactly one entry
    per path.  The entry of a path is what [scan_with_caching] returns for
    that path in the world the scan started in (the payload of its valid
    cache entry, or the result of a fresh scan), and the empty list when
    that call raises, which it does when an entry that cannot be used
    cannot be removed.  No path's entry depends on another path. *)
Theorem parallel_scan_entries (cache : ToilCache) (detector : Config)
    (max_workers days_back : Z) (repo_paths finished : list string) (w : World) :
  NoDup repo_paths ->
  finished ≡ₚ repo_paths ->
  (forall r r', r ∈ repo_paths -> r' ∈ repo_paths -> r <> r' ->
     entry_path cache r days_back w <> entry_path cache r' days_back w) ->
  (max_workers <= 0 ->
   parallel_scan_multiple_repos cache detector max_workers finished days_back w
   = (Raise (ValueError "max_workers must be greater than 0"), w))
  /\ (0 < max_workers ->
      exists (results : gmap string (list Event)) (w' : World),
        parallel_scan_multiple_repos cache detector max_workers finished days_back w
        = (Ret results, w')
        /\ dom results =@{gset string} list_to_set repo_paths
        /\ (forall repo : string, repo ∈ repo_paths ->
              results !! repo
              = Some match (scan_with_caching cache detector repo days_back w).1 with
                     | Ret events => events
                     | Raise _ => []
                     end
              /\ (stuck_entry cache repo days_back w = false ->
                  results !! repo
                  = Some match valid_entry cache repo days_back w with
                         | Some data => data
                         | None => scan_events detector repo days_back true w
                         end)
              /\ (stuck_entry cache repo days_back w = true ->
                  (scan_with_caching cache detector repo days_back w).1
                  = Raise (OSError "PermissionError")
                  /\ results !! repo = Some []))).
Proof.
  intros Hnodup Hperm Hdist. split.
  { intros Hnone. unfold parallel_scan_multiple_repos, bind at 1, ThreadPoolExecutor.
    destruct (max_workers <=? 0) eqn:Hle; [reflexivity|]. apply Z.leb_gt in Hle. lia. }
  intros Hsome.
  destruct (run_scan_repos_run cache detector days_back finished [] w w) as (w' & Hrun).
  { refine (conj _ (conj _ (conj _ (conj _ _)))); reflexivity. }
  { rewrite app_nil_r. now rewrite Hperm. }
  { intros r r'. rewrite app_nil_r, !Hperm. apply Hdist. }
  eexists _, w'. split.
  { unfold parallel_scan_multiple_repos, bind at 1, ThreadPoolExecutor.
    destruct (max_workers <=? 0) eqn:Hle; [apply Z.leb_le in Hle; lia|].
    unfold ret at 1, bind. rewrite Hrun. reflexivity. }
  set (results := foldl store_events ∅ _).
  assert (Hlook : forall k, results !! k
                   = if decide (k ∈ repo_paths)
                     then Some (task_events cache detector days_back w k) else None).
  { intros k. unfold results.
    rewrite (stored_events_lookup (task_events cache detector days_back w)).
    rewrite lookup_empty.
    destruct (decide (k ∈ finished)) as [Hin|Hin];
      destruct (decide (k ∈ repo_paths)) as [Hin'|Hin']; try reflexivity.
    - rewrite Hperm in Hin. contradiction.
    - rewrite <- Hperm in Hin'. contradiction. }
  split.
  - apply set_eq. intros k. rewrite elem_of_dom, elem_of_list_to_set, Hlook.
    destruct (decide (k ∈ repo_paths)) as [Hin|Hin].
    + split; [auto | intros _; eexists; reflexivity].
    + split; [intros [x Hx]; discriminate | contradiction].
  - intros repo Hin. rewrite Hlook, decide_True by exact Hin.
    rewrite scan_with_caching_run. unfold task_events, cached_or_scanned.
    destruct (stuck_entry cache repo days_back w).
    + split; [reflexivity|]. split; [discriminate | auto].
    + destruct (valid_entry cache repo days_back w);
        (split; [reflexivity|]); (split; [reflexivity | discriminate]).
Qed.

End ScanMore.

(** ** Report and benchmark aggregation *)

Lemma zero_counts_lookup (s : string) :
  zero_counts !! s = if decide (s ∈ report_severities) then Some 0 else None.
Proof.
  unfold zero_counts, report_severities. rewrite !lookup_insert, lookup_empty.
  destruct (decide ("HIGH" = s)) as [<-|H1];
    [rewrite decide_True by repeat constructor; reflexivity|].
  destruct (decide ("MEDIUM" = s)) as [<-|H2];
    [rewrite decide_True by repeat constructor; reflexivity|].
  destruct (decide ("LOW" = s)) as [<-|H3];
    [rewrite decide_True by repeat constructor; reflexivity|].
  rewrite decide_False; [reflexivity|]. intros Hin.
  repeat (apply elem_of_cons in Hin as [Hin|Hin]; [congruence|]). inversion Hin.
Qed.

Lemma total_of_snoc (rows : list SummaryRow) (row : SummaryRow) (t s : string) :
  total_of (rows ++ [row]) t s
  = total_of rows t s
    + (if decide (r_task_type row = t /\ r_severity row = s) then r_count row else 0).
Proof.
  unfold total_of. induction rows as [|r rows IH]; simpl; [lia|]. rewrite IH. lia.
Qed.

Lemma total_of_absent (rows : list SummaryRow) (t s : string) :
  t ∉ map r_task_type rows -> total_of rows t s = 0.
Proof.
  unfold total_of. induction rows as [|r rows IH]; simpl; [reflexivity|].
  intros Hnot. rewrite IH by (intros Hin; apply Hnot; now right).
  rewrite decide_False; [reflexivity|]. intros [Ht _]. apply Hnot. rewrite <- Ht. left.
Qed.

Lemma task_total_snoc (rows : list SummaryRow) (row : SummaryRow) (t : string) :
  task_total (rows ++ [row]) t
  = task_total rows t + (if decide (r_task_type row = t) then r_count row else 0).
Proof.
  unfold task_total. induction rows as [|r rows IH]; simpl; [lia|]. rewrite IH. lia.
Qed.

Lemma task_total_absent (rows : list SummaryRow) (t : string) :
  t ∉ map r_task_type rows -> task_total rows t = 0.
Proof.
  unfold task_total. induction rows as [|r rows IH]; simpl; [reflexivity|].
  intros Hnot. rewrite IH by (intros Hin; apply Hnot; now right).
  rewrite decide_False; [reflexivity|]. intros Ht. apply Hnot. rewrite <- Ht. left.
Qed.

Lemma first_unknown_snoc (rows : list SummaryRow) (row : SummaryRow) :
  first_unknown (rows ++ [row])
  = match first_unknown rows with
    | Some s => Some s
    | None => if str_mem (r_severity row) report_severities then None
              else Some (r_severity row)
    end.
Proof.
  unfold first_unknown. induction rows as [|r rows IH]; cbn [app List.find].
  - destruct (str_mem (r_severity row) report_severities); reflexivity.
  - destruct (str_mem (r_severity r) report_severities); cbn [negb];
      [exact IH | reflexivity].
Qed.

Lemma task_summary_run (rows : list SummaryRow) :
  match task_summary rows with
  | Found m => first_unknown rows = None /\ summarises m rows
  | KeyError key => first_unknown rows = Some key
  end.
Proof.
  induction rows as [|row rows IH] using rev_ind.
  - simpl. split; [reflexivity|]. intros t. split; [intros _; apply lookup_empty|].
    intros Hin. inversion Hin.
  - unfold task_summary in *. rewrite foldl_app. simpl.
    destruct (foldl _ (Found ∅) rows) as [m|key].
    + destruct IH as [Hnone Hsum]. rewrite first_unknown_snoc, Hnone.
      unfold add_to_task_summary.
      set (t0 := r_task_type row). set (s0 := r_severity row).
      set (m1 := match m !! t0 with Some _ => m | None => <[t0 := zero_counts]> m end).
      assert (Hm1 : exists c0, m1 !! t0 = Some c0
                /\ (forall s, c0 !! s = if decide (s ∈ report_severities)
                                         then Some (total_of rows t0 s) else None)
                /\ (forall t, t <> t0 -> m1 !! t = m !! t)).
      { unfold m1. destruct (Hsum t0) as [Habsent Hpresent].
        destruct (decide (t0 ∈ map r_task_type rows)) as [Hin|Hnot].
        - destruct (Hpresent Hin) as (c0 & Hc0 & Hcells). rewrite Hc0.
          exists c0. auto.
        - rewrite (Habsent Hnot). exists zero_counts. split; [apply lookup_insert_eq|].
          split.
          + intros s. rewrite zero_counts_lookup, total_of_absent by exact Hnot. reflexivity.
          + intros t Ht. now apply lookup_insert_ne. }
      destruct Hm1 as (c0 & Hc0 & Hcells & Hother). rewrite Hc0, Hcells.
      destruct (decide (s0 ∈ report_severities)) as [Hstd|Hbad].
      * assert (Hmem : str_mem s0 report_severities = true) by now apply str_mem_spec.
        rewrite Hmem. split; [reflexivity|].
        intros t. rewrite map_app. simpl. destruct (decide (t = t0)) as [->|Hne].
        -- split; [intros Hnot; exfalso; apply Hnot; apply elem_of_app; right; left|].
           intros _. eexists. split; [apply lookup_insert_eq|].
           intros s. rewrite total_of_snoc. fold t0 s0.
           destruct (decide (s = s0)) as [->|Hs].
           ++ rewrite lookup_insert_eq, decide_True by exact Hstd.
              rewrite (decide_True (P := t0 = t0 /\ s0 = s0)) by auto. reflexivity.
           ++ rewrite lookup_insert_ne by auto. rewrite Hcells.
              rewrite (decide_False (P := t0 = t0 /\ s0 = s)) by (intros [_ ?]; auto).
              now rewrite Z.add_0_r.
        -- rewrite lookup_insert_ne by auto. rewrite Hother by exact Hne.
           destruct (Hsum t) as [Habsent Hpresent]. split.
           ++ intros Hnot. apply Habsent. intros Hin. apply Hnot. apply elem_of_app. now left.
           ++ intros Hin. apply elem_of_app in Hin as [Hin|Hin].
              ** destruct (Hpresent Hin) as (c & Hc & Hcs). exists c. split; [exact Hc|].
                 intros s. rewrite Hcs, total_of_snoc. fold t0 s0.
                 rewrite (decide_False (P := t0 = t /\ s0 = s)) by (intros [? _]; auto).
                 now rewrite Z.add_0_r.
              ** apply list_elem_of_singleton in Hin. fold t0 in Hin. congruence.
      * assert (Hmem : str_mem s0 report_severities = false).
        { apply not_true_iff_false. now rewrite str_mem_spec. }
        now rewrite Hmem.
    + now rewrite first_unknown_snoc, IH.
Qed.

(** X21.  The report's aggregation.  When every row has severity HIGH,
    MEDIUM or LOW, the summary has an entry for exactly the task types of
    the rows and, under each, the three severities with the sums of the
    counts of the matching rows.  A row with any other severity, as a
    custom level of the lexicon gives, makes it raise [KeyError] with that
    severity, at the first such row. *)
Theorem report_summary_totals (summary : list SummaryRow) :
  ((forall row, row ∈ summary -> r_severity row ∈ report_severities) ->
   exists m : gmap string (gmap string Z),
     task_summary summary = Found m
     /\ (forall t, t ∉ map r_task_type summary -> m !! t = None)
     /\ (forall t, t ∈ map r_task_type summary ->
           exists severities : gmap string Z,
             m !! t = Some severities
             /\ forall s, severities !! s
                          = if decide (s ∈ report_severities)
                            then Some (total_of summary t s) else None))
  /\ (forall (before after : list SummaryRow) (row : SummaryRow),
        summary = (before ++ row :: after)%list ->
        (forall r, r ∈ before -> r_severity r ∈ report_severities) ->
        r_severity row ∉ report_severities ->
        task_summary summary = KeyError (r_severity row)).
Proof.
  pose proof (task_summary_run summary) as Hrun. split.
  - intros Hall.
    assert (Hnone : first_unknown summary = None).
    { unfold first_unknown. destruct (List.find _ summary) as [row|] eqn:Hfind; [|reflexivity].
      apply find_some in Hfind as [Hin Hbad]. apply list_elem_of_In in Hin.
      apply Hall, str_mem_spec in Hin. now rewrite Hin in Hbad. }
    destruct (task_summary summary) as [m|key]; [|congruence].
    destruct Hrun as [_ Hsum]. exists m. split; [reflexivity|].
    split; intros t; apply Hsum.
  - intros before after row -> Hbefore Hbad.
    assert (Hfirst : first_unknown (before ++ row :: after) = Some (r_severity row)).
    { unfold first_unknown. clear Hrun.
      induction before as [|r before IH]; cbn [app List.find].
      - assert (Hmem : str_mem (r_severity row) report_severities = false).
        { apply not_true_iff_false. now rewrite str_mem_spec. }
        now rewrite Hmem.
      - assert (Hmem : str_mem (r_severity r) report_severities = true).
        { apply str_mem_spec, Hbefore. left. }
        rewrite Hmem. cbn [negb]. apply IH. intros r' Hin. apply Hbefore. now right. }
    destruct (task_summary (before ++ row :: after)) as [m|key].
    + destruct Hrun as [Hnone _]. congruence.
    + congruence.
Qed.

(** X22.  The benchmark's aggregation gives an entry for exactly the task
    types of the rows, holding the sum of the counts of the rows of that
    task type. *)
Theorem aggregate_summary_totals (data : list SummaryRow) :
  forall t : string,
    aggregate_summary data !! t
    = if decide (t ∈ map r_task_type data) then Some (task_total data t) else None.
Proof.
  induction data as [|row data IH] using rev_ind; intros t.
  - rewrite decide_False by (intros Hin; inversion Hin). apply lookup_empty.
  - unfold aggregate_summary in *. rewrite foldl_app. simpl.
    set (m := foldl _ ∅ data) in *. set (t0 := r_task_type row).
    rewrite map_app, task_total_snoc. simpl. fold t0.
    assert (Hmem : t ∈ (map r_task_type data ++ [t0])%list
                   <-> t = t0 \/ t ∈ map r_task_type data).
    { rewrite elem_of_app, list_elem_of_singleton. tauto. }
    pose proof (IH t0) as Ht0.
    destruct (decide (t0 ∈ map r_task_type data)) as [Hin0|Hnot0].
    + rewrite Ht0. rewrite Ht0.
      destruct (decide (t = t0)) as [->|Hne].
      * rewrite lookup_insert_eq, decide_True by (apply Hmem; now left).
        now rewrite decide_True by reflexivity.
      * rewrite lookup_insert_ne by auto. rewrite IH.
        rewrite (decide_False (P := t0 = t)) by auto. rewrite Z.add_0_r.
        destruct (decide (t ∈ map r_task_type data)) as [Hin|Hnot].
        -- now rewrite decide_True by (apply Hmem; now right).
        -- rewrite decide_False; [reflexivity|]. rewrite Hmem. tauto.
    + rewrite Ht0. rewrite lookup_insert_eq.
      destruct (decide (t = t0)) as [->|Hne].
      * rewrite lookup_insert_eq, decide_True by (apply Hmem; now left).
        rewrite decide_True by reflexivity.
        now rewrite task_total_absent by exact Hnot0.
      * rewrite !lookup_insert_ne by auto. rewrite IH.
        rewrite (decide_False (P := t0 = t)) by auto. rewrite Z.add_0_r.
        destruct (decide (t ∈ map r_task_type data)) as [Hin|Hnot].
        -- now rewrite decide_True by (apply Hmem; now right).
        -- rewrite decide_False; [reflexivity|]. rewrite Hmem. tauto.
Qed.
(** * The properties at concrete inputs *)

#[local] Existing Instance Concrete.py.

(** The executable library on patterns of the default configuration. *)
Example search_found :
  re_search "deploy.*production" "deploy to production now" = Ret true
  /\ re_search "release.*v\d+\.\d+" "release of v12.3" = Ret true
  /\ re_search "revert.*[a-f0-9]{7,}" "revert commit abc1234" = Ret true.
Proof. repeat split; reflexivity. Qed.

Example search_not_found :
  re_search "release.*v\d+\.\d+" "release of v12x3" = Ret false
  /\ re_search "revert.*[a-f0-9]{7,}" "revert commit abc123" = Ret false
  /\ re_search "config.*change" "update config file" = Ret false.
Proof. repeat split; reflexivity. Qed.

Example search_rejected :
  re_search "release.*[" "release" = Raise (re_error "release.*[")
  /\ re_search "*deploy" "deploy" = Raise (re_error "*deploy").
Proof. split; reflexivity. Qed.

Example default_patterns_compile : well_formed_rulesb default_patterns = true.
Proof. reflexivity. Qed.

Example path_matches :
  path_match "README.md" "*.md" = Some true
  /\ path_match "infra/k8s/app.yaml" "k8s/*.yaml" = Some true
  /\ path_match "app.yaml" "k8s/*.yaml" = Some false
  /\ path_match "scripts/deploy_prod.sh" "deploy*.sh" = Some true
  /\ path_match "README.md" "" = None.
Proof. repeat split; reflexivity. Qed.

Lemma rule_precedence_witness :
  _analyze_commit_message default_config precedence_message = Ret (Some "manual_deploy").
Proof.
  refine (proj2 (rule_precedence default_config precedence_message
                   [] [] (drop 2 default_patterns) "manual_deploy" "manual_fix"
                   (default_rule "manual_deploy") (default_rule "manual_fix")
                   eq_refl _ _ _) _).
  - apply well_formed_rulesb_spec. vm_compute. reflexivity.
  - apply satisfiesb_spec. vm_compute. reflexivity.
  - apply satisfiesb_spec. vm_compute. reflexivity.
  - intros name r Hin. inversion Hin.
Defined.

(** C3 as stated fails: the default rule manual_deploy has its keyword,
    a confirm pattern and the exclude term staging in the message, and the
    message is classified all the same, by the later rule restart. *)
Lemma exclude_veto_counterexample :
  _analyze_commit_message default_config veto_message = Ret (Some "restart")
  /\ ~ exclude_veto_claim.
Proof.
  split; [vm_compute; reflexivity|].
  intros Hclaim.
  assert (Hnone : _analyze_commit_message default_config veto_message = Ret None).
  { apply (Hclaim default_config veto_message "manual_deploy" (default_rule "manual_deploy")).
    - apply well_formed_rulesb_spec. vm_compute. reflexivity.
    - left.
    - apply any_word_spec. vm_compute. reflexivity.
    - exists "deploy.*production". split; [left|].
      apply pattern_foundb_spec. vm_compute. reflexivity.
    - apply any_word_spec. vm_compute. reflexivity. }
  vm_compute in Hnone. discriminate.
Qed.

Lemma exclude_veto_witness :
  _analyze_commit_message default_config veto_message
  = _analyze_commit_message
      {| patterns := drop 1 default_patterns; severity := default_severity |} veto_message.
Proof.
  refine (proj1 (exclude_veto_skips_rule default_config veto_message
                   [] (drop 1 default_patterns) "manual_deploy"
                   (default_rule "manual_deploy") eq_refl _ _)).
  - assert (Hwf : well_formed_rules [("manual_deploy", default_rule "manual_deploy")])
      by (apply well_formed_rulesb_spec; vm_compute; reflexivity).
    apply (Hwf "manual_deploy"). left.
  - apply any_word_spec. vm_compute. reflexivity.
Defined.

(** C2 fails in the code on a category named by the empty string: the
    first rule with a matching file pattern has that name, and the
    message-based category stands where the override is specified. *)
Lemma file_override_counterexample :
  final_type_of unnamed_config true readme_commit = Ret (Some "docs")
  /\ ~ file_override_claim.
Proof.
  split; [vm_compute; reflexivity|].
  intros Hclaim.
  assert (Hfinal : final_type_of unnamed_config true readme_commit = Ret (Some "")).
  { apply (Hclaim unnamed_config readme_commit "docs" [] (drop 1 (patterns unnamed_config))
             "" {| keywords := []; regex_patterns := [];
                   file_patterns := ["*.md"]; exclude := [] |}).
    - vm_compute. reflexivity.
    - apply globs_acceptedb_spec. vm_compute. reflexivity.
    - reflexivity.
    - intros name r Hin. inversion Hin.
    - apply file_hitb_spec. vm_compute. reflexivity. }
  vm_compute in Hfinal. discriminate.
Qed.

Lemma file_override_witness :
  final_type_of default_config true terraform_commit = Ret (Some "env_setup")
  /\ final_type_of default_config true staging_commit = Ret None.
Proof.
  destruct (file_override default_config terraform_commit) as [Hfound _].
  destruct (file_override default_config staging_commit) as [_ Hnothing].
  split.
  - refine (proj1 (Hfound "manual_deploy" _ eq_refl _)
              (take 3 default_patterns) (drop 4 default_patterns)
              "env_setup" (default_rule "env_setup") eq_refl _ _).
    + vm_compute. reflexivity.
    + apply globs_acceptedb_spec. vm_compute. reflexivity.
    + apply (none_checked (fun r => file_hit r (c_files terraform_commit))
               (fun r => file_hitb r (c_files terraform_commit))).
      * intros r. apply file_hitb_spec.
      * vm_compute. reflexivity.
    + apply file_hitb_spec. vm_compute. reflexivity.
  - apply (Hnothing None true); [vm_compute; reflexivity | reflexivity].
Defined.

(** C4 as stated fails: in a lexicon that lists low before high, a message
    with a word of each level is assessed LOW. *)
Lemma severity_order_counterexample :
  _assess_severity low_first_config "Emergency update" "manual_fix" = "LOW"
  /\ ~ severity_order_claim.
Proof.
  split; [vm_compute; reflexivity|].
  intros Hclaim.
  assert (Hhigh : _assess_severity low_first_config "Emergency update" "manual_fix" = "HIGH").
  { apply (Hclaim low_first_config "Emergency update" "manual_fix"
             ["emergency"; "critical"] ["update"; "config"]).
    - right. right. left.
    - left.
    - apply word_hit_checked. vm_compute. reflexivity.
    - apply word_hit_checked. vm_compute. reflexivity. }
  vm_compute in Hhigh. discriminate.
Qed.

Lemma severity_assessment_witness :
  _assess_severity low_first_config "Emergency update" "manual_fix" = "LOW"
  /\ _assess_severity default_config "Emergency update" "env_setup" = "HIGH"
  /\ _assess_severity default_config "rollback" "revert" = "HIGH".
Proof.
  destruct (severity_assessment low_first_config "Emergency update" "manual_fix")
    as (Hfirst & _).
  destruct (severity_assessment default_config "Emergency update" "env_setup")
    as (_ & Hdefault & _).
  destruct (severity_assessment default_config "rollback" "revert")
    as (_ & _ & _ & Htable).
  split; [|split].
  - apply (Hfirst [] [("medium", ["hotfix"; "production"]); ("high", ["emergency"; "critical"])]
             "low" ["update"; "config"] eq_refl).
    + intros l ws Hin. inversion Hin.
    + apply word_hit_checked. vm_compute. reflexivity.
  - refine (proj1 (Hdefault _ _ _ eq_refl) _).
    apply word_hit_checked. vm_compute. reflexivity.
  - refine (proj1 (Htable _) _).
    + apply (none_checked (fun ws => word_hit ws (lower "rollback"))
               (fun ws => existsb (fun word => str_in word (lower "rollback")) ws)).
      * intros ws. apply word_hit_checked.
      * vm_compute. reflexivity.
    + right. left.
Defined.

(** C5, as amended.  With the default rule set and severity lexicon, the
    commit with message "update config file" and changed file README.md
    yields no event: the keyword config of env_setup occurs in the message,
    but none of the confirm patterns of env_setup is found in it, and no
    other rule has a keyword in it.  LOW is what the severity assessment
    gives for this message and the category env_setup. *)
Theorem worked_example_no_event :
  (forall repo_path : string,
     classify_commit default_config true repo_path example_commit = Ret None)
  /\ _analyze_commit_message default_config (c_message example_commit) = Ret None
  /\ keyword_hit (default_rule "env_setup") (lower (c_message example_commit))
  /\ ~ confirmed (default_rule "env_setup") (lower (c_message example_commit))
  /\ (forall name r, (name, r) ∈ default_patterns -> name <> "env_setup" ->
        ~ keyword_hit r (lower (c_message example_commit)))
  /\ _assess_severity default_config (c_message example_commit) "env_setup" = "LOW".
Proof.
  refine (conj _ (conj _ (conj _ (conj _ (conj _ _))))).
  - intros repo_path. reflexivity.
  - reflexivity.
  - apply any_word_spec. reflexivity.
  - rewrite <- confirmedb_spec. vm_compute. discriminate.
  - intros name r Hin Hname Hkw. apply any_word_spec in Hkw.
    repeat (apply elem_of_cons in Hin as [Hin|Hin];
            [injection Hin as -> ->; first [contradiction | vm_compute in Hkw; discriminate]|]).
    inversion Hin.
  - reflexivity.
Qed.

(** C5 as stated fails: the commit of the worked example gets no event. *)
Lemma worked_example_counterexample :
  classify_commit default_config true "/srv/app" example_commit = Ret None
  /\ ~ worked_example_claim.
Proof.
  split; [reflexivity|].
  intros Hclaim. destruct (Hclaim "/srv/app") as (ev & Hev & _).
  vm_compute in Hev. discriminate.
Qed.



Lemma cache_idempotence_witness :
  exists events : list Event,
    (scan_with_caching cache0 default_config "/srv/app" 30 world0).1 = Ret events
    /\ scans (scan_with_caching cache0 default_config "/srv/app" 30 world0).2
       = ("/srv/app", 30) :: scans world0
    /\ scan_with_caching cache0 default_config "/srv/app" 30
         (set_clock 4600 (scan_with_caching cache0 default_config "/srv/app" 30 world0).2)
       = (Ret events,
          set_clock 4600 (scan_with_caching cache0 default_config "/srv/app" 30 world0).2)
    /\ scans (scan_with_caching cache0 default_config "/srv/app" 30
                (set_clock 4600
                   (scan_with_caching cache0 default_config "/srv/app" 30 world0).2)).2
       = scans (set_clock 4600
                  (scan_with_caching cache0 default_config "/srv/app" 30 world0).2).
Proof.
  apply (cache_idempotence cache0 default_config "/srv/app" 30 world0
           (set_clock 4600 (scan_with_caching cache0 default_config "/srv/app" 30 world0).2)).
  - vm_compute. reflexivity.
  - reflexivity.
  - reflexivity.
  - vm_compute. reflexivity.
  - vm_compute. discriminate.
Defined.

(** C8 as stated fails: a rule set with a confirm pattern that is not a
    regular expression loads. *)
Lemma fail_fast_counterexample :
  _load_config broken_source = Ret broken_config
  /\ re_compile "release.*[" = None
  /\ ~ fail_fast_claim.
Proof.
  split; [reflexivity|]. split; [reflexivity|].
  intros Hclaim.
  assert (Hwf : well_formed_rules (patterns broken_config))
    by (apply (Hclaim broken_source); reflexivity).
  destruct (Hwf "deploys" broken_rule) with (pattern := "release.*[") as [rx Hrx];
    [left | right; left |].
  vm_compute in Hrx. discriminate.
Qed.

Lemma config_not_validated_witness :
  _analyze_commit_message broken_config (c_message release_commit)
  = Raise (re_error "release.*[")
  /\ scan_git_history broken_config "/srv/app" 30 true
       world_release
     = (Ret [], logged "/srv/app" 30 world_release)
  /\ rule_fires broken_rule
                (lower "restart the server") = Ret false.
Proof.
  destruct config_not_validated as (_ & Hreach & Hpass).
  destruct (Hreach broken_config (c_message release_commit) [] []
              "deploys" broken_rule
              ["deploy.*prod"] [] "release.*[" eq_refl) as [Hraise Hscan].
  - intros name r Hin. inversion Hin.
  - apply any_word_spec. vm_compute. reflexivity.
  - reflexivity.
  - intros pattern Hin. apply list_elem_of_singleton in Hin as ->. split.
    + vm_compute. eauto.
    + rewrite <- pattern_foundb_spec. vm_compute. discriminate.
  - reflexivity.
  - split; [exact Hraise|]. split.
    + apply (Hscan _ "/srv/app" 30 true [staging_commit; release_commit] release_commit).
      * reflexivity.
      * right. left.
      * reflexivity.
    + apply Hpass. intros Hkw. apply any_word_spec in Hkw. vm_compute in Hkw. discriminate.
Defined.

(** C9 as stated fails: the entry of a path whose scan failed is the entry
    of a repository without toil, so the mapping does not tell the two
    apart. *)
Lemma failure_erased_counterexample :
  (scan_multiple_repos default_config ["/srv/missing"] 30 world0).1
  = Ret {[ "/srv/missing" := [] ]}
  /\ (scan_multiple_repos default_config ["/srv/missing"] 30 world_quiet).1
     = Ret {[ "/srv/missing" := [] ]}
  /\ scan_fails default_config "/srv/missing" 30 world0
  /\ ~ scan_fails default_config "/srv/missing" 30 world_quiet
  /\ ~ failure_captured_claim.
Proof.
  assert (Hfails : scan_fails default_config "/srv/missing" 30 world0)
    by (left; eexists; reflexivity).
  assert (Hquiet : ~ scan_fails default_config "/srv/missing" 30 world_quiet).
  { intros [[e He] | (commits & e & Hlog & Hraise)]; [discriminate|].
    injection Hlog as <-. vm_compute in Hraise. discriminate. }
  split; [reflexivity|]. split; [reflexivity|]. split; [exact Hfails|].
  split; [exact Hquiet|].
  intros [failed Hclaim].
  destruct (Hclaim default_config 30 ["/srv/missing"] world0 _ _ "/srv/missing" eq_refl)
    as (entry & Hentry & Hfailed); [left|].
  destruct (Hclaim default_config 30 ["/srv/missing"] world_quiet _ _ "/srv/missing" eq_refl)
    as (entry' & Hentry' & Hfailed'); [left|].
  vm_compute in Hentry, Hentry'. injection Hentry as <-. injection Hentry' as <-.
  apply Hquiet, Hfailed', Hfailed, Hfails.
Qed.

Lemma multi_repo_isolation_witness :
  exists (results : gmap string (list Event)) (w' : World),
    scan_multiple_repos default_config ["/srv/missing"; "/srv/app"] 30 world0
    = (Ret results, w')
    /\ dom results =@{gset string} list_to_set ["/srv/app"; "/srv/missing"]
    /\ size results = length ["/srv/app"; "/srv/missing"]
    /\ (forall repo : string, repo ∈ ["/srv/app"; "/srv/missing"] ->
          exists events : list Event,
            (scan_git_history default_config repo 30 true world0).1 = Ret events
            /\ results !! repo = Some events
            /\ (scan_fails default_config repo 30 world0 -> events = [])).
Proof.
  apply (multi_repo_isolation default_config 30
           ["/srv/app"; "/srv/missing"] ["/srv/missing"; "/srv/app"] world0).
  - apply NoDup_cons. split.
    + intros Hin. apply list_elem_of_singleton in Hin. discriminate.
    + apply NoDup_singleton.
  - apply perm_swap.
Defined.

Lemma shallow_merge_witness :
  exists cfg : Config,
    _load_config broken_source = Ret cfg
    /\ patterns cfg = broken_rules
    /\ severity cfg = default_severity.
Proof.
  destruct (shallow_merge (Some broken_rules) None)
    as (cfg & Hload & Hpatterns & _ & _ & Hseverity).
  exists cfg. split; [exact Hload|]. split.
  - apply (Hpatterns broken_rules eq_refl).
  - apply Hseverity. reflexivity.
Defined.

(** ** The further properties at concrete inputs *)

Lemma no_keyword_no_category_witness :
  _analyze_commit_message default_config (c_message feature_commit) = Ret None
  /\ classify_commit default_config true "/srv/app" feature_commit = Ret None.
Proof.
  destruct (no_keyword_no_category default_config (c_message feature_commit))
    as [Hnone Hcommit].
  - apply (none_checked (fun r => keyword_hit r (lower (c_message feature_commit)))
             (fun r => existsb (fun k => str_in k (lower (c_message feature_commit)))
                               (keywords r))).
    + intros r. apply any_word_spec.
    + vm_compute. reflexivity.
  - split; [exact Hnone | now apply Hcommit].
Defined.

Lemma upper_case_words_are_dead_witness :
  str_in "Deploy" (lower "Deploy HOTFIX now") = false
  /\ rule_fires capital_rule (lower "Deploy HOTFIX now") = Ret false.
Proof.
  destruct upper_case_words_are_dead as (Hword & Hrule & _). split.
  - apply Hword. reflexivity.
  - apply Hrule. intros keyword Hin.
    repeat (apply elem_of_cons in Hin as [->|Hin]; [reflexivity|]). inversion Hin.
Defined.

Lemma events_follow_commits_witness :
  (exists kept : list Commit,
     sublist kept sample_commits
     /\ Forall2 (event_of_commit default_config "/srv/app") sample_events kept)
  /\ (length sample_events <= length sample_commits)%nat.
Proof.
  apply (events_follow_commits default_config true "/srv/app" sample_commits sample_events).
  vm_compute. reflexivity.
Defined.

Lemma classification_errors_witness :
  (exists name r pattern,
     (name, r) ∈ patterns broken_config
     /\ keyword_hit r (lower (c_message release_commit))
     /\ pattern ∈ regex_patterns r /\ re_compile pattern = None
     /\ re_error "release.*[" = re_raises pattern)
  \/ (true = true /\ c_files release_commit <> []
      /\ exists name r pattern file,
           (name, r) ∈ patterns broken_config /\ pattern ∈ file_patterns r
           /\ file ∈ c_files release_commit
           /\ path_match file pattern = None
           /\ re_error "release.*[" = ValueError "empty pattern").
Proof.
  apply (classification_errors broken_config true "/srv/app" release_commit).
  vm_compute. reflexivity.
Defined.

Lemma severity_range_witness :
  _assess_severity default_config "Emergency update" "env_setup" ∈ ["HIGH"; "MEDIUM"; "LOW"].
Proof.
  apply (proj2 (severity_range default_config "Emergency update" "env_setup")).
  intros level words Hin.
  repeat (apply elem_of_cons in Hin as [Hin|Hin];
          [injection Hin as -> _; vm_compute; repeat constructor|]).
  inversion Hin.
Defined.


Lemma write_failure_tolerated_witness :
  exists w' : World,
    scan_with_caching cache0 default_config "/srv/app" 30 world_readonly
    = (Ret (scan_events default_config "/srv/app" 30 true world_readonly), w')
    /\ files w' !! entry_path cache0 "/srv/app" 30 world_readonly = None
    /\ files w' !! entry_path cache0 "/srv/app" 30 w' = None
    /\ valid_entry cache0 "/srv/app" 30 w' = None.
Proof.
  apply (write_failure_tolerated cache0 default_config "/srv/app" 30 world_readonly).
  - reflexivity.
  - vm_compute. reflexivity.
Defined.


Lemma fingerprint_change_rescans_witness :
  exists w3 : World,
    scan_with_caching cache0 default_config "/srv/app" 30
      (with_fingerprint "/srv/app" "Tue Jan 16 08:00:00 2024 +0000"
         (scan_with_caching cache0 default_config "/srv/app" 30 world0).2)
    = (Ret (scan_events default_config "/srv/app" 30 true
              (with_fingerprint "/srv/app" "Tue Jan 16 08:00:00 2024 +0000"
                 (scan_with_caching cache0 default_config "/srv/app" 30 world0).2)), w3)
    /\ scans w3 = ("/srv/app", 30) :: ("/srv/app", 30) :: scans world0
    /\ files w3 !! entry_path cache0 "/srv/app" 30 world0
       = Some {| st_mtime := clock world0;
                 body := JsonOf (scan_events default_config "/srv/app" 30 true world0) |}.
Proof.
  apply (fingerprint_change_rescans cache0 default_config "/srv/app" 30 world0
           "Tue Jan 16 08:00:00 2024 +0000").
  - vm_compute. reflexivity.
  - reflexivity.
  - vm_compute. discriminate.
  - vm_compute. reflexivity.
Defined.

Lemma miss_refreshes_entry_witness :
  files (scan_with_caching cache0 default_config "/srv/app" 30 world0).2
    !! entry_path cache0 "/srv/app" 30 world0
  = Some {| st_mtime := clock world0;
            body := JsonOf (scan_events default_config "/srv/app" 30 true world0) |}
  /\ (0 <= ttl cache0 ->
      valid_entry cache0 "/srv/app" 30
        (scan_with_caching cache0 default_config "/srv/app" 30 world0).2
      = Some (scan_events default_config "/srv/app" 30 true world0)).
Proof.
  apply (miss_refreshes_entry cache0 default_config "/srv/app" 30 world0).
  - vm_compute. reflexivity.
  - reflexivity.
Defined.

Lemma cache_key_separates_witness :
  (7 = 7 /\ "Mon Jan 15 10:00:00 2024 +0000" = "Mon Jan 15 10:00:00 2024 +0000")
  /\ "abc" = "abc".
Proof.
  destruct cache_key_separates as [Hkey Hfile]. split.
  - apply (Hkey "/srv/app"). reflexivity.
  - apply (Hfile cache0). reflexivity.
Defined.

Lemma clear_empties_cache_witness :
  files (clear cache0 world_cached).2
    !! ".toil_cache/app:30:Mon Jan 15 10:00:00 2024 +0000.json" = None
  /\ files (clear cache0 world_cached).2 !! ".toil_cache/notes.txt"
     = files world_cached !! ".toil_cache/notes.txt"
  /\ get cache0 "app" 30 (clear cache0 world_cached).2
     = (Ret None, (clear cache0 world_cached).2)
  /\ clear cache0 (read_only world_cached) = (Ret tt, read_only world_cached).
Proof.
  destruct (clear_empties_cache cache0 world_cached) as (_ & _ & Hwritable & Hkept).
  destruct (Hwritable eq_refl) as [Hgone Hmiss].
  destruct (clear_empties_cache cache0 (read_only world_cached)) as (_ & Hleft & _).
  split; [|split; [|split]].
  - apply Hgone. reflexivity.
  - apply Hkept. reflexivity.
  - apply Hmiss. reflexivity.
  - apply Hleft. reflexivity.
Defined.

Lemma batches_partition_witness :
  exists batches : list (list nat),
    batch_process_commits [1; 2; 3; 4; 5; 6; 7]%nat 3 = Ret batches
    /\ concat batches = [1; 2; 3; 4; 5; 6; 7]%nat
    /\ (forall (i : nat) (batch : list nat), batches !! i = Some batch ->
          (0 < length batch)%nat /\ Z.of_nat (length batch) <= 3
          /\ ((S i < length batches)%nat -> Z.of_nat (length batch) = 3))
    /\ Z.of_nat (length batches)
       = (Z.of_nat (length [1; 2; 3; 4; 5; 6; 7]%nat) + 3 - 1) / 3.
Proof. apply (batches_partition [1; 2; 3; 4; 5; 6; 7]%nat 3). lia. Defined.

Lemma batches_nonpositive_witness :
  batch_process_commits [1; 2; 3]%nat 0
  = Raise (ValueError "range() arg 3 must not be zero")
  /\ batch_process_commits [1; 2; 3]%nat (-50) = Ret [].
Proof.
  split.
  - apply (proj1 (batches_nonpositive [1; 2; 3]%nat 0)). reflexivity.
  - apply (proj2 (batches_nonpositive [1; 2; 3]%nat (-50))). lia.
Defined.

Lemma parse_round_trip_witness :
  _parse_git_output (join_lines (log_lines sample_commits)) = sample_commits.
Proof.
  apply parse_round_trip.
  repeat (constructor; [repeat split; try reflexivity;
                        repeat (constructor; [repeat split; try reflexivity;
                                              vm_compute; discriminate|]);
                        constructor|]).
  constructor.
Defined.

Lemma unterminated_commit_dropped_witness :
  _parse_git_output
    (join_lines ([] ++ header_line merge_commit
                  :: [] ++ header_line readme_commit :: ["README.md"; ""])%list)
  = _parse_git_output
      (join_lines ([] ++ header_line readme_commit :: ["README.md"; ""])%list).
Proof.
  apply (unterminated_commit_dropped [] ["README.md"; ""] [] merge_commit readme_commit);
    try reflexivity; repeat constructor.
Defined.

Lemma no_header_no_commit_witness :
  _parse_git_output (join_lines ["README.md"; ""; "warning: a|b"; "   "]) = [].
Proof.
  apply no_header_no_commit.
  - repeat constructor.
  - discriminate.
  - repeat (constructor; [vm_compute; discriminate|]). constructor.
Defined.

Lemma scan_never_raises_witness :
  scan_git_history default_config "/srv/missing" 30 true world0
  = (Ret [], logged "/srv/missing" 30 world0)
  /\ scan_git_history broken_config "/srv/app" 30 true world_release
     = (Ret [], logged "/srv/app" 30 world_release).
Proof.
  destruct (scan_never_raises default_config "/srv/missing" 30 true world0)
    as (events & Hrun & Hgit & _).
  destruct (scan_never_raises broken_config "/srv/app" 30 true world_release)
    as (events' & Hrun' & _ & Hraise & _).
  split.
  - rewrite Hrun. rewrite Hgit; [reflexivity|]. eexists. reflexivity.
  - rewrite Hrun'.
    rewrite (Hraise [staging_commit; release_commit] release_commit
               (re_error "release.*[")); [reflexivity | reflexivity | right; left |].
    vm_compute. reflexivity.
Defined.

Lemma parallel_scan_entries_witness :
  parallel_scan_multiple_repos cache0 default_config 0 ["/srv/lib"; "/srv/app"] 30 world_stuck
  = (Raise (ValueError "max_workers must be greater than 0"), world_stuck)
  /\ exists (results : gmap string (list Event)) (w' : World),
       parallel_scan_multiple_repos cache0 default_config 4 ["/srv/lib"; "/srv/app"] 30
         world_stuck
       = (Ret results, w')
       /\ dom results =@{gset string} list_to_set ["/srv/app"; "/srv/lib"]
       /\ (forall repo : string, repo ∈ ["/srv/app"; "/srv/lib"] ->
             results !! repo
             = Some match (scan_with_caching cache0 default_config repo 30 world_stuck).1 with
                    | Ret events => events
                    | Raise _ => []
                    end
             /\ (stuck_entry cache0 repo 30 world_stuck = false ->
                 results !! repo
                 = Some match valid_entry cache0 repo 30 world_stuck with
                        | Some data => data
                        | None => scan_events default_config repo 30 true world_stuck
                        end)
             /\ (stuck_entry cache0 repo 30 world_stuck = true ->
                 (scan_with_caching cache0 default_config repo 30 world_stuck).1
                 = Raise (OSError "PermissionError")
                 /\ results !! repo = Some [])).
Proof.
  assert (Hnodup : NoDup ["/srv/app"; "/srv/lib"]).
  { apply NoDup_cons. split.
    - intros Hin. apply list_elem_of_singleton in Hin. discriminate.
    - apply NoDup_singleton. }
  assert (Hdist : forall r r', r ∈ ["/srv/app"; "/srv/lib"] -> r' ∈ ["/srv/app"; "/srv/lib"] ->
                    r <> r' ->
                    entry_path cache0 r 30 world_stuck <> entry_path cache0 r' 30 world_stuck).
  { intros r r' Hr Hr' Hne.
    apply elem_of_cons in Hr as [->|Hr]; [|apply list_elem_of_singleton in Hr as ->];
      (apply elem_of_cons in Hr' as [->|Hr']; [|apply list_elem_of_singleton in Hr' as ->]);
      try congruence; vm_compute; discriminate. }
  split.
  - apply (proj1 (parallel_scan_entries cache0 default_config 0 30
                    ["/srv/app"; "/srv/lib"] ["/srv/lib"; "/srv/app"] world_stuck
                    Hnodup (perm_swap _ _ _) Hdist)).
    lia.
  - apply (proj2 (parallel_scan_entries cache0 default_config 4 30
                    ["/srv/app"; "/srv/lib"] ["/srv/lib"; "/srv/app"] world_stuck
                    Hnodup (perm_swap _ _ _) Hdist)).
    lia.
Defined.

Lemma report_summary_totals_witness :
  (exists m : gmap string (gmap string Z),
     task_summary sample_rows = Found m
     /\ (forall t, t ∉ map r_task_type sample_rows -> m !! t = None)
     /\ (forall t, t ∈ map r_task_type sample_rows ->
           exists severities : gmap string Z,
             m !! t = Some severities
             /\ forall s, severities !! s
                          = if decide (s ∈ report_severities)
                            then Some (total_of sample_rows t s) else None))
  /\ task_summary (sample_rows ++ critical_row :: sample_rows)%list = KeyError "CRITICAL".
Proof.
  split.
  - apply (proj1 (report_summary_totals sample_rows)).
    intros row Hin.
    repeat (apply elem_of_cons in Hin as [->|Hin]; [repeat constructor|]). inversion Hin.
  - apply (proj2 (report_summary_totals (sample_rows ++ critical_row :: sample_rows)%list)
             sample_rows sample_rows critical_row eq_refl).
    + intros row Hin.
      repeat (apply elem_of_cons in Hin as [->|Hin]; [repeat constructor|]). inversion Hin.
    + intros Hin.
      repeat (apply elem_of_cons in Hin as [Hin|Hin]; [discriminate|]). inversion Hin.
Defined.
